(** * semdep.parsers.yarn: the yarn.lock parsers (version 1 and 2/3)

    A shallow embedding of [cli/src/semdep/parsers/yarn.py] and of the
    parser-combinator primitives it is written with, followed by the
    verification of the properties the lockfile specification states
    about it.

    Python [str] values are [string]s, dictionaries are [gmap]s, sets are
    [gset]s, [Optional] is [option], lists are lists.  The characters of
    a [string] are the code points 0 to 255: the texts of the model are
    the Python texts without a character above these. *)

From stdpp Require Import gmap strings list.
From Stdlib Require Import Ascii String Sorted.

Local Open Scope string_scope.

(** ** Characters and strings *)

Definition LF : ascii := "010"%char.
Definition DQUOTE : ascii := "034"%char.
Definition SPACE : ascii := " "%char.
Definition COLON : ascii := ":"%char.
Definition COMMA : ascii := ","%char.
Definition AT : ascii := "@"%char.
Definition HASH : ascii := "#"%char.

Definition str1 (a : ascii) : string := String a EmptyString.

(** [s[len(lit):]] when [s.startswith(lit)], nothing otherwise. *)
Fixpoint strip_prefix (lit s : string) : option string :=
  match lit with
  | EmptyString => Some s
  | String a lit' =>
      match s with
      | String b s' => if Ascii.eqb a b then strip_prefix lit' s' else None
      | EmptyString => None
      end
  end.

(** [s.startswith(prefix)] *)
Definition startswith (s prefix : string) : bool :=
  match strip_prefix prefix s with Some _ => true | None => false end.

(** [s.count("\n")] *)
Fixpoint count_nl (s : string) : nat :=
  match s with
  | EmptyString => 0
  | String a s' => (if Ascii.eqb a LF then 1 else 0) + count_nl s'
  end.

(** [c in chars] for a list of single characters. *)
Definition char_in (chars : list ascii) (c : ascii) : bool :=
  existsb (Ascii.eqb c) chars.

(** The longest prefix of [s] without a character of [stops], and what
    follows it. *)
Fixpoint span (stops : list ascii) (s : string) : string * string :=
  match s with
  | EmptyString => (EmptyString, EmptyString)
  | String a s' =>
      if char_in stops a then (EmptyString, s)
      else let '(tok, r) := span stops s' in (String a tok, r)
  end.

(** [c in s] for a single character [c]. *)
Fixpoint contains (c : ascii) (s : string) : bool :=
  match s with
  | EmptyString => false
  | String a s' => Ascii.eqb a c || contains c s'
  end.

(** [s.lstrip(c)], [s.rstrip(c)] and [s.strip(c)] for a single character:
    every leading (trailing) occurrence is removed. *)
Fixpoint lstrip (c : ascii) (s : string) : string :=
  match s with
  | String a s' => if Ascii.eqb a c then lstrip c s' else s
  | EmptyString => EmptyString
  end.

Fixpoint rstrip (c : ascii) (s : string) : string :=
  match s with
  | String a s' =>
      match rstrip c s' with
      | EmptyString => if Ascii.eqb a c then EmptyString else str1 a
      | r => String a r
      end
  | EmptyString => EmptyString
  end.

Definition strip (c : ascii) (s : string) : string := rstrip c (lstrip c s).

(** [s.split(c)]: the pieces between the occurrences of [c]; never empty. *)
Fixpoint split (c : ascii) (s : string) : list string :=
  match s with
  | EmptyString => [EmptyString]
  | String a s' =>
      if Ascii.eqb a c then EmptyString :: split c s'
      else match split c s' with
           | piece :: pieces => String a piece :: pieces
           | [] => [str1 a]
           end
  end.

(** [sep.join(pieces)] *)
Fixpoint join (sep : string) (pieces : list string) : string :=
  match pieces with
  | [] => EmptyString
  | [piece] => piece
  | piece :: others => piece +:+ sep +:+ join sep others
  end.

(** [s[n:]] *)
Fixpoint slice_from (n : nat) (s : string) : string :=
  match n, s with
  | S n', String _ s' => slice_from n' s'
  | _, _ => s
  end.

(** [xs[:-1]] *)
Definition all_but_last {A} (xs : list A) : list A := removelast xs.

(** ** The parsy primitives

    The parser-combinator library ([semdep.external.parsy]) is an
    external collaborator of the lockfile grammars (spec section 1); its
    primitives are sequencing, alternation, repetition, peeking and
    matching of literals, and the definitions of [Parsy] follow it.

    A parsy parser is called on [(stream, index)] and answers with a
    value and a new index, or with a failure.  A [Cursor] keeps what the
    parsers below read of that pair: [rest] is [stream[index:]] and
    [line] is [stream.count("\n", 0, index)], the zero-based line that
    [line_info] reports. *)

Record Cursor := MkCursor { line : nat; rest : string }.

Definition Parser (A : Type) : Type := Cursor -> option (A * Cursor).

(** Move the cursor over [consumed], leaving [r]. *)
Definition advance (c : Cursor) (consumed r : string) : Cursor :=
  {| line := line c + count_nl consumed; rest := r |}.

Module Parsy.

(** Modelled from the spec: [success(v)], the parser that gives [v] and
    consumes nothing. *)
Definition success {A} (v : A) : Parser A := fun c => Some (v, c).

(** Modelled from the spec: [p.bind(f)], sequencing: [p], then the
    parser that [f] makes of its value. *)
Definition bind {A B} (p : Parser A) (f : A -> Parser B) : Parser B :=
  fun c => match p c with
           | Some (v, c') => f v c'
           | None => None
           end.

(** Modelled from the spec: [p.map(f)], [f] applied to the value of [p]. *)
Definition map {A B} (p : Parser A) (f : A -> B) : Parser B :=
  bind p (fun v => success (f v)).

(** Modelled from the spec: [p >> q], sequencing that keeps the value of [q]. *)
Definition then_ {A B} (p : Parser A) (q : Parser B) : Parser B :=
  bind p (fun _ => q).

(** Modelled from the spec: [p << q], sequencing that keeps the value of [p]. *)
Definition skip {A B} (p : Parser A) (q : Parser B) : Parser A :=
  bind p (fun v => bind q (fun _ => success v)).

(** Modelled from the spec: [p + q] on parsers of strings, sequencing that
    concatenates the two values. *)
Definition concat (p q : Parser string) : Parser string :=
  bind p (fun a => bind q (fun b => success (a +:+ b))).

(** Modelled from the spec: [p | q], alternation: [q] is tried from the
    same index when [p] fails. *)
Definition alt {A} (p q : Parser A) : Parser A :=
  fun c => match p c with
           | Some r => Some r
           | None => q c
           end.

(** Modelled from the spec: [string(lit)], matching of the literal [lit]. *)
Definition string (lit : String.string) : Parser String.string :=
  fun c => match strip_prefix lit (rest c) with
           | Some r => Some (lit, advance c lit r)
           | None => None
           end.

(** Modelled from the spec: [any_char], matching of one character. *)
Definition any_char : Parser String.string :=
  fun c => match rest c with
           | String a r => Some (str1 a, advance c (str1 a) r)
           | EmptyString => None
           end.

(** Modelled from the spec: [peek(p)], peeking: the value of [p], the
    index unchanged. *)
Definition peek {A} (p : Parser A) : Parser A :=
  fun c => match p c with
           | Some (v, _) => Some (v, c)
           | None => None
           end.

(** Modelled from the spec: [p.optional(default)], [p] or else
    [default] with nothing consumed. *)
Definition optional {A} (p : Parser A) (default : A) : Parser A :=
  alt p (success default).

(** Modelled from the spec: [p.many()], repetition: [p] as often as it
    succeeds.  The library loops while [p] succeeds; [fuel] bounds the
    loop, and a loop that is cut off gives no result.  [many] starts it
    with more fuel than there are characters left, which a parser that
    consumes input never uses up ([many_loop_total]). *)
Fixpoint many_loop {A} (fuel : nat) (p : Parser A) (c : Cursor)
  : option (list A * Cursor) :=
  match fuel with
  | O => None
  | S fuel' =>
      match p c with
      | None => Some ([], c)
      | Some (v, c') =>
          match many_loop fuel' p c' with
          | Some (vs, c'') => Some (v :: vs, c'')
          | None => None
          end
      end
  end.

(** Modelled from the spec: [p.many()], the loop started with its fuel. *)
Definition many {A} (p : Parser A) : Parser (list A) :=
  fun c => many_loop (S (String.length (rest c))) p c.

(** Modelled from the spec: [p.sep_by(sep)], repetition with a
    separator, with the library's default [min=0]: one [p] and then
    [(sep >> p).many()], or else no item at all. *)
Definition sep_by {A B} (p : Parser A) (sep : Parser B) : Parser (list A) :=
  alt (bind p (fun x => bind (many (then_ sep p)) (fun xs => success (x :: xs))))
      (success []).

(** Modelled from the spec: [eof], the end of the text. *)
Definition eof : Parser unit :=
  fun c => match rest c with
           | EmptyString => Some (tt, c)
           | String _ _ => None
           end.

(** Modelled from the spec: [p.parse(text)], [p] from index 0 and then
    the end of the text ("over the complete file text", spec section
    4.4). *)
Definition parse {A} (p : Parser A) (text : String.string) : option A :=
  match skip p eof {| line := 0; rest := text |} with
  | Some (v, _) => Some v
  | None => None
  end.

End Parsy.

(** ** The helpers of [semdep.parsers.util] *)

Inductive Transitivity := Direct | Transitive | Unknown.

Module Util.
Import Parsy.

(** Modelled from the spec: [not_any] is the bounded scan behind [upto]
    and [consume_line] (spec section 2, "bounded scans"): a non-empty
    run of characters none of which is in [chars]. *)
Definition not_any (chars : list ascii) : Parser String.string :=
  fun c => match span chars (rest c) with
           | (EmptyString, _) => None
           | (tok, r) => Some (tok, advance c tok r)
           end.

(** Modelled from the spec: a single character out of [chars]. *)
Definition one_of (chars : list ascii) : Parser String.string :=
  fun c => match rest c with
           | String a r =>
               if char_in chars a then Some (str1 a, advance c (str1 a) r)
               else None
           | EmptyString => None
           end.

(** Modelled from the spec: [upto(s, consume_other)] scans up to
    the next delimiter of [s] or the end of the line; with
    [consume_other] the delimiter is consumed too, and is not part of
    the value (spec section 4.1: "everything up to and including the
    next @", "the remainder up to a dialect-specific terminator"). *)
Definition upto (s : list ascii) (consume_other : bool) : Parser String.string :=
  let stops := (s ++ [LF])%list in
  if consume_other then skip (not_any stops) (one_of s) else not_any stops.

(** Modelled from the spec: [consume_line] consumes a line "up to
    end-of-line" and discards it "without producing output" (spec
    section 4.2); the newline itself is left for the separator of the
    field lines, and a blank line is not a line of a block (spec
    section 4.3: blocks are separated by one blank line). *)
Definition consume_line {A} : Parser (option A) :=
  map (not_any [LF]) (fun _ => None).

(** Modelled from the spec: [line_number] is the 1-based line of the
    cursor, and [mark_line(p)] prefixes the value of [p] with the line
    [p] started on (spec section 4.3, "line tracking"). *)
Definition line_number : Parser nat := fun c => Some (S (line c), c).

Definition mark_line {A} (p : Parser A) : Parser (nat * A) :=
  bind line_number (fun ln => bind p (fun x => success (ln, x))).

(** Modelled from the spec: [pair(p1, p2)] runs [p1] then [p2] and
    gives both values. *)
Definition pair {A B} (p1 : Parser A) (p2 : Parser B) : Parser (A * B) :=
  bind p1 (fun a => bind p2 (fun b => success (a, b))).

(** Modelled from the spec: [quoted(p)] is [p] between two double
    quotes, which are not part of the value. *)
Definition quoted {A} (p : Parser A) : Parser A :=
  skip (then_ (string (str1 DQUOTE)) p) (string (str1 DQUOTE)).

(** Modelled from the spec: [safe_path_parse] runs the grammar "over
    the complete file text once"; a grammar failure is caught here and
    becomes [None] (spec sections 4.4 and 7).  The text of the file
    stands for its path. *)
Definition safe_path_parse {A} (text : String.string) (parser : Parser A) : option A :=
  parse parser text.

(** Modelled from the spec: the classification policy of spec section
    4.5.  [None] (no manifest): [Unknown]; else [Direct] when a source
    of the block is literally in the manifest set; else [Transitive]. *)
Definition transitivity (manifest_deps : option (gset (String.string * String.string)))
    (dep_sources : list (String.string * String.string)) : Transitivity :=
  match manifest_deps with
  | None => Unknown
  | Some deps =>
      if existsb (fun dep_source => bool_decide (dep_source ∈ deps)) dep_sources
      then Direct else Transitive
  end.

End Util.

(** ** The yarn grammars ([yarn.py]) *)

Abbreviation Source := (string * string)%type.
Abbreviation Fields := (gmap string string).
Abbreviation Block := (nat * (list Source * Fields))%type.

(** [{x[0]: x[1] for x in xs if x}]: a later key overwrites an earlier one. *)
Definition fields_of (xs : list (option (string * string))) : gmap string string :=
  fold_left (fun m x => match x with
                        | Some (k, v) => <[k:=v]> m
                        | None => m
                        end) xs ∅.

Definition source1 (quoted : bool) : Parser Source :=
  Util.pair
    (Parsy.concat (Parsy.optional (Parsy.string "@") EmptyString)
                  (Util.upto [AT] true))
    (Util.upto ([DQUOTE] ++ (if negb quoted then [COLON; COMMA] else []))%list false).

Definition multi_source1 : Parser (list Source) :=
  Parsy.sep_by (Parsy.alt (Util.quoted (source1 true)) (source1 false))
               (Parsy.string ", ").

Definition key_value1 : Parser (option (string * string)) :=
  Parsy.bind (Parsy.many (Parsy.string " ")) (fun spaces =>
    if negb (Nat.eqb (List.length spaces) 2) then Util.consume_line
    else Parsy.bind (Util.upto [SPACE; COLON] false) (fun key =>
      Parsy.bind (Parsy.peek Parsy.any_char) (fun next =>
        if String.eqb next ":" then Util.consume_line
        else Parsy.then_ (Parsy.string " ")
               (Parsy.bind (Util.upto [LF] false) (fun value =>
                  Parsy.success (Some (key, strip DQUOTE value))))))).

Definition NEWLINE : string := str1 LF.

(** The block without its line mark: the header, then the field lines. *)
Definition yarn_block1 : Parser (list Source * Fields) :=
  Util.pair
    (Parsy.skip multi_source1 (Parsy.string (":" +:+ NEWLINE)))
    (Parsy.map (Parsy.sep_by key_value1 (Parsy.string NEWLINE)) fields_of).

Definition yarn_dep1 : Parser Block := Util.mark_line yarn_block1.

Definition YARN1_PREFIX : string :=
  "# THIS IS AN AUTOGENERATED FILE. DO NOT EDIT THIS FILE DIRECTLY." +:+ NEWLINE +:+
  "# yarn lockfile v1" +:+ NEWLINE +:+
  NEWLINE.

Definition yarn1 : Parser (list Block) :=
  Parsy.skip
    (Parsy.then_
       (Parsy.then_ (Parsy.string YARN1_PREFIX)
                    (Parsy.optional (Parsy.map (Parsy.string NEWLINE) Some) None))
       (Parsy.sep_by yarn_dep1 (Parsy.string (NEWLINE +:+ NEWLINE))))
    (Parsy.optional (Parsy.map (Parsy.string NEWLINE) Some) None).

Definition remove_npm_prefix (s : string) : string :=
  if startswith s "npm:" then slice_from 4 s else s.

Definition source2 : Parser Source :=
  Util.pair
    (Parsy.concat (Parsy.optional (Parsy.string "@") EmptyString)
                  (Util.upto [AT] true))
    (Parsy.map (Util.upto [DQUOTE; COMMA] false) remove_npm_prefix).

Definition multi_source2 : Parser (list Source) :=
  Util.quoted (Parsy.sep_by source2 (Parsy.string ", ")).

Definition key_value2 : Parser (option (string * string)) :=
  Parsy.bind (Parsy.many (Parsy.string " ")) (fun spaces =>
    if negb (Nat.eqb (List.length spaces) 2) then Util.consume_line
    else Parsy.bind (Util.upto [COLON] false) (fun key =>
      Parsy.then_ (Parsy.string ":")
        (Parsy.bind (Parsy.peek Parsy.any_char) (fun next =>
           if String.eqb next NEWLINE then Parsy.success None
           else Parsy.then_ (Parsy.string " ")
                  (Parsy.bind (Util.upto [LF] false) (fun value =>
                     Parsy.success (Some (key, strip DQUOTE value)))))))).

Definition yarn_block2 : Parser (list Source * Fields) :=
  Util.pair
    (Parsy.skip multi_source2 (Parsy.string (":" +:+ NEWLINE)))
    (Parsy.map (Parsy.sep_by key_value2 (Parsy.string NEWLINE)) fields_of).

Definition yarn_dep2 : Parser Block := Util.mark_line yarn_block2.

Definition YARN2_PREFIX : string :=
  "# This file is generated by running " +:+ str1 DQUOTE +:+ "yarn install" +:+
  str1 DQUOTE +:+ " inside your project." +:+ NEWLINE +:+
  "# Manual changes might be lost - proceed with caution!" +:+ NEWLINE.

(** [regex(YARN2_METADATA_REGEX)]: the pattern is the literal lines of the
    metadata stanza with [\d+] for the two numbers.  A greedy [\d+] in
    front of a newline matches the whole run of digits and nothing else
    does, so the match is a scan.  The pattern is a [str] pattern without
    the ASCII flag, so [\d] is any decimal digit of Unicode (category
    Nd); of the code points 0 to 255 these are [0] to [9] only, the
    superscript digits being of another category.  A text with a decimal
    digit of another script in its metadata stanza is outside the model. *)
Definition DIGITS : list ascii :=
  ["0"; "1"; "2"; "3"; "4"; "5"; "6"; "7"; "8"; "9"]%char.

Fixpoint span_digits (s : string) : string * string :=
  match s with
  | EmptyString => (EmptyString, EmptyString)
  | String a s' =>
      if char_in DIGITS a
      then let '(tok, r) := span_digits s' in (String a tok, r)
      else (EmptyString, s)
  end.

Definition digits1 : Parser string :=
  fun c => match span_digits (rest c) with
           | (EmptyString, _) => None
           | (tok, r) => Some (tok, advance c tok r)
           end.

Definition YARN2_METADATA_REGEX : Parser string :=
  Parsy.concat (Parsy.string (NEWLINE +:+ "__metadata:" +:+ NEWLINE +:+ "  version: "))
    (Parsy.concat digits1
       (Parsy.concat (Parsy.string (NEWLINE +:+ "  cacheKey: "))
          (Parsy.concat digits1 (Parsy.string NEWLINE)))).

Definition yarn2 : Parser (list Block) :=
  Parsy.skip
    (Parsy.then_
       (Parsy.then_
          (Parsy.then_ (Parsy.string YARN2_PREFIX)
                       (Parsy.optional (Parsy.map YARN2_METADATA_REGEX Some) None))
          (Parsy.optional (Parsy.map (Parsy.string NEWLINE) Some) None))
       (Parsy.sep_by yarn_dep2 (Parsy.string (NEWLINE +:+ NEWLINE))))
    (Parsy.optional (Parsy.map (Parsy.string NEWLINE) Some) None).

(** ** The records and the manifest *)

Inductive Ecosystem := Npm.

Module FoundDependency.
Record t := mk {
  package : string;
  version : string;
  ecosystem : Ecosystem;
  allowed_hashes : gmap string (list string);
  resolved_url : option string;
  transitivity : Transitivity;
  line_number : nat
}.
End FoundDependency.

Definition Path : Type := string.

(** Modelled from the spec: the manifest is "a structured document whose
    top-level object contains an optional dependencies object mapping
    package name to version-constraint string" (spec section 6); [JSON]
    is what [json_doc] gives for such a document, [as_dict] and [get]
    read its [dependencies] member and [as_str] the constraints. *)
Record JSON := { dependencies : option (gmap string string) }.

Definition remove_trailing_octothorpe (s : option string) : option string :=
  match s with
  | None => None
  | Some s =>
      Some (if contains HASH s then join (str1 HASH) (all_but_last (split HASH s))
            else s)
  end.

Section ParseYarn.

(** [safe_path_parse(manifest_path, json_doc, ...)]: reading and parsing
    the manifest is an external primitive (spec section 1). *)
Variable json_doc : Path -> option JSON.

(** [extract_npm_lockfile_hash] decodes an [integrity] value; it
    belongs to [semdep.parsers.util] and is "an external collaborator's
    contract" (spec section 8). *)
Variable extract_npm_lockfile_hash : option string -> gmap string (list string).

Definition get_manifest_deps (manifest_path : option Path)
  : option (gset (string * string)) :=
  match manifest_path with
  | None => None
  | Some path =>
      match json_doc path with
      | None => None
      | Some json =>
          match dependencies json with
          | None => Some ∅
          | Some deps => Some (list_to_set (map_to_list deps))
          end
      end
  end.

(** The body of the loop of [parse_yarn]: the record of one block, or
    nothing where the loop says [continue]. *)
Definition assemble (yarn_version : nat)
    (manifest_deps : option (gset (string * string))) (dep : Block)
  : option FoundDependency.t :=
  let '(line_number, (sources, fields)) := dep in
  match sources with
  | [] => None
  | (package, _) :: _ =>
      match fields !! "version" with
      | None => None
      | Some version =>
          let allowed_hashes :=
            if Nat.eqb yarn_version 1
            then extract_npm_lockfile_hash (fields !! "integrity")
            else match fields !! "checksum" with
                 | Some (String a r as checksum) => {[ "sha512" := [checksum] ]}
                 | Some EmptyString | None => ∅
                 end in
          let resolved_url := fields !! "resolved" in
          Some (FoundDependency.mk package version Npm allowed_hashes
                  (remove_trailing_octothorpe resolved_url)
                  (Util.transitivity manifest_deps sources)
                  line_number)
      end
  end.

Definition yarn_version_of (lockfile_text : string) : nat :=
  if startswith lockfile_text YARN1_PREFIX then 1 else 2.

Definition parser_of (yarn_version : nat) : Parser (list Block) :=
  if Nat.eqb yarn_version 1 then yarn1 else yarn2.

(** [lockfile_text] is what [f.read()] gave for [lockfile_path]. *)
Definition parse_yarn (lockfile_text : string) (manifest_path : option Path)
  : list FoundDependency.t :=
  let manifest_deps := get_manifest_deps manifest_path in
  let yarn_version := yarn_version_of lockfile_text in
  let parser := parser_of yarn_version in
  match Util.safe_path_parse lockfile_text parser with
  | None | Some [] => []
  | Some deps => omap (assemble yarn_version manifest_deps) deps
  end.

End ParseYarn.

(** ** Predicates of the verification *)

(** A token that holds none of the stop characters, in front of the end
    of the text or of a stop character, is what [span] finds. *)
Definition free_of (stops : list ascii) (s : string) : Prop :=
  forall a, char_in stops a = true -> contains a s = false.

Definition stops_at (stops : list ascii) (r : string) : Prop :=
  match r with
  | EmptyString => True
  | String a _ => char_in stops a = true
  end.

(** What a parser consumes: every parser of the grammars moves the
    cursor forward over a piece of the text and counts the newlines of
    that piece. *)
Definition consumes {A} (p : Parser A) : Prop :=
  forall c v c', p c = Some (v, c') ->
    exists s, rest c = s +:+ rest c' /\ line c' = line c + count_nl s.

(** A parser that consumes at least one character whenever it succeeds. *)
Definition productive {A} (p : Parser A) : Prop :=
  forall c v c', p c = Some (v, c') ->
    String.length (rest c') < String.length (rest c).

(** The cursor [c] is a position of [text]: [rest c] is what follows it
    and [line c] counts the newlines in front of it. *)
Definition at_text (text : string) (c : Cursor) : Prop :=
  exists pre, text = pre +:+ rest c /\ line c = count_nl pre.

(** The block [dep] was read from a header that starts at a position of
    [text], and is marked with the 1-based number of the line of that
    position. *)
Definition header_at (text : string) (block : Parser (list Source * Fields))
    (dep : Block) : Prop :=
  exists pre post c',
    text = pre +:+ post /\
    dep.1 = S (count_nl pre) /\
    block {| line := count_nl pre; rest := post |} = Some (dep.2, c').

(** The block grammar of a dialect, without the line mark. *)
Definition block_of (yarn_version : nat) : Parser (list Source * Fields) :=
  if Nat.eqb yarn_version 1 then yarn_block1 else yarn_block2.

(** A block "that has at least one source spec and a version field". *)
Definition survives (dep : Block) : bool :=
  match dep with
  | (_, (sources, fields)) =>
      Nat.leb 1 (List.length sources) && bool_decide (is_Some (fields !! "version"))
  end.

(** The record [r] was made from the block [dep]: its line number, the
    name of its first source and its version field. *)
Definition record_of (dep : Block) (r : FoundDependency.t) : Prop :=
  match dep with
  | (line_number, (sources, fields)) =>
      FoundDependency.line_number r = line_number /\
      (exists constraint others,
          sources = (FoundDependency.package r, constraint) :: others) /\
      fields !! "version" = Some (FoundDependency.version r)
  end.

(** ** Sample lockfiles *)

Definition QUOTE : string := str1 DQUOTE.

(** A version 1 lockfile of three blocks; the second has no version. *)
Definition three_blocks : string :=
  YARN1_PREFIX +:+ NEWLINE +:+
  "a@^1.0.0, a@^2.0.0:" +:+ NEWLINE +:+
  "  version " +:+ QUOTE +:+ "2.1.0" +:+ QUOTE +:+ NEWLINE +:+
  "  resolved " +:+ QUOTE +:+ "https://host/a.tgz#abcdef" +:+ QUOTE +:+ NEWLINE +:+
  NEWLINE +:+
  "b@^2.0.0:" +:+ NEWLINE +:+
  "  resolved " +:+ QUOTE +:+ "https://host/b.tgz" +:+ QUOTE +:+ NEWLINE +:+
  NEWLINE +:+
  QUOTE +:+ "@scope/c@^3.0.0" +:+ QUOTE +:+ ":" +:+ NEWLINE +:+
  "  version " +:+ QUOTE +:+ "3.0.0" +:+ QUOTE +:+ NEWLINE +:+
  "  dependencies:" +:+ NEWLINE +:+
  "    a " +:+ QUOTE +:+ "^1.0.0" +:+ QUOTE +:+ NEWLINE.

(** A version 2 lockfile of two blocks; the second has an empty checksum. *)
Definition two_blocks2 : string :=
  YARN2_PREFIX +:+ NEWLINE +:+
  "__metadata:" +:+ NEWLINE +:+ "  version: 6" +:+ NEWLINE +:+
  "  cacheKey: 8" +:+ NEWLINE +:+ NEWLINE +:+
  QUOTE +:+ "a@npm:^1.0.0, a@file:../a" +:+ QUOTE +:+ ":" +:+ NEWLINE +:+
  "  version: 1.2.0" +:+ NEWLINE +:+
  "  checksum: 2987dbeb" +:+ NEWLINE +:+
  "  languageName: node" +:+ NEWLINE +:+
  NEWLINE +:+
  QUOTE +:+ "b@npm:^2.0.0" +:+ QUOTE +:+ ":" +:+ NEWLINE +:+
  "  version: 2.0.1" +:+ NEWLINE +:+
  "  checksum: " +:+ QUOTE +:+ QUOTE +:+ NEWLINE.

(** The blocks a lockfile parses to, none when the grammar fails. *)
Definition blocks_of (text : string) (parser : Parser (list Block)) : list Block :=
  match Util.safe_path_parse text parser with
  | Some deps => deps
  | None => []
  end.

Definition no_manifest : Path -> option JSON := fun _ => None.
Definition no_hashes : option string -> gmap string (list string) := fun _ => ∅.

(** A lockfile whose banner lacks the blank line, and one whose last
    block stops in the middle of its header. *)
Definition corrupted_banner : string :=
  "# THIS IS AN AUTOGENERATED FILE. DO NOT EDIT THIS FILE DIRECTLY." +:+ NEWLINE +:+
  "# yarn lockfile v1" +:+ NEWLINE +:+
  "a@^1.0.0:" +:+ NEWLINE +:+
  "  version " +:+ QUOTE +:+ "1.0.0" +:+ QUOTE +:+ NEWLINE.

Definition truncated_block : string :=
  YARN1_PREFIX +:+ NEWLINE +:+
  "a@^1.0.0:" +:+ NEWLINE +:+
  "  version " +:+ QUOTE +:+ "1.0.0" +:+ QUOTE +:+ NEWLINE +:+
  NEWLINE +:+
  "b@^2.0".

(** Manifests: one that declares [a@^2.0.0], one that declares
    [a@^9.9.9], one without a dependencies section, and none that parses
    under any other path. *)
Definition manifests (path : Path) : option JSON :=
  if String.eqb path "package.json"
  then Some {| dependencies := Some {[ "a" := "^2.0.0" ]} |}
  else if String.eqb path "other/package.json"
  then Some {| dependencies := Some {[ "a" := "^9.9.9" ]} |}
  else if String.eqb path "bare/package.json"
  then Some {| dependencies := None |}
  else None.

(** ** Shapes of lines *)

(** No character of [chars] occurs in [s]. *)
Definition lacks (chars : list ascii) (s : string) : bool :=
  forallb (fun a => negb (contains a s)) chars.

(** [tail] is the end of the text or starts with a newline. *)
Definition line_ends (tail : string) : bool :=
  match tail with
  | EmptyString => true
  | String a _ => Ascii.eqb a LF
  end.

Definition starts_with_space (s : string) : bool :=
  match s with
  | String a _ => Ascii.eqb a SPACE
  | EmptyString => false
  end.

(** [" " * n] *)
Fixpoint spaces (n : nat) : string :=
  match n with
  | O => EmptyString
  | S n' => String SPACE (spaces n')
  end.

(** The text that a specification calls "one layer of surrounding quotes
    stripped": the inside of a string that starts and ends with a double
    quote, any other string unchanged. *)
Fixpoint ends_with_quote (s : string) : bool :=
  match s with
  | EmptyString => false
  | String a EmptyString => Ascii.eqb a DQUOTE
  | String _ s' => ends_with_quote s'
  end.

Fixpoint drop_last (s : string) : string :=
  match s with
  | EmptyString | String _ EmptyString => EmptyString
  | String a s' => String a (drop_last s')
  end.

Definition strip_one_layer (s : string) : string :=
  match s with
  | String a s' =>
      if Ascii.eqb a DQUOTE && ends_with_quote s' then drop_last s' else s
  | EmptyString => s
  end.

(** The name of a source, as [source1] and [source2] have it: an
    optional [@] and then the text up to the next [@], which is
    consumed. *)
Definition name_part : Parser string :=
  Parsy.concat (Parsy.optional (Parsy.string "@") EmptyString) (Util.upto [AT] true).

(** The header of a block: [multi_source << string(":\n")]. *)
Definition header1 : Parser (list Source) :=
  Parsy.skip multi_source1 (Parsy.string (":" +:+ NEWLINE)).

Definition header2 : Parser (list Source) :=
  Parsy.skip multi_source2 (Parsy.string (":" +:+ NEWLINE)).

(** The constraint of a source of a version 2 block is what
    [remove_npm_prefix] makes of a piece [raw] of the text, scanned at a
    position of the text up to a quote, a comma or the end of the line. *)
Definition constraint_from (text : string) (src : Source) : Prop :=
  exists c1 raw c',
    at_text text c1 /\
    Util.upto [DQUOTE; COMMA] false c1 = Some (raw, c') /\
    src.2 = remove_npm_prefix raw.

(** A version 2 header with four sources, one for each protocol tag. *)
Definition tagged_sources : string :=
  QUOTE +:+ "a@npm:^2.0.0, b@file:../b, c@patch:c@^1.1.7#~builtin, d@https://host/d.git"
  +:+ QUOTE +:+ ":" +:+ NEWLINE.

(** A field line whose key and value are quoted, the value twice. *)
Definition quoted_field : string :=
  "  " +:+ QUOTE +:+ "k" +:+ QUOTE +:+ " " +:+
  QUOTE +:+ QUOTE +:+ "v" +:+ QUOTE +:+ QUOTE.

Definition quoted_field2 : string :=
  "  " +:+ QUOTE +:+ "k" +:+ QUOTE +:+ ": " +:+
  QUOTE +:+ QUOTE +:+ "v" +:+ QUOTE +:+ QUOTE.

(** Lockfiles whose only block has a header without a source. *)
Definition empty_header1 : string := YARN1_PREFIX +:+ ":" +:+ NEWLINE.
Definition empty_header2 : string :=
  YARN2_PREFIX +:+ QUOTE +:+ QUOTE +:+ ":" +:+ NEWLINE.

(** [n] double quotes. *)
Fixpoint quotes (n : nat) : string :=
  match n with
  | O => EmptyString
  | S n' => String DQUOTE (quotes n')
  end.

Definition starts_with_quote (s : string) : bool :=
  match s with
  | String a _ => Ascii.eqb a DQUOTE
  | EmptyString => false
  end.

Definition nonempty (s : string) : bool :=
  match s with
  | EmptyString => false
  | String _ _ => true
  end.

(** ** Lockfile text

    The text of the parts of a lockfile, to state what the grammars read
    from a text that is written in this way. *)

(** The renderings of a list, one after the other. *)
Fixpoint render_all {L} (render : L -> string) (ls : list L) : string :=
  match ls with
  | [] => EmptyString
  | l :: ls' => render l +:+ render_all render ls'
  end.

(** The values read from the renderings of a list that starts on line
    [ln]: the value of an element may depend on the line it starts on. *)
Fixpoint values_from {L A} (render : L -> string) (value : nat -> L -> A)
    (ln : nat) (ls : list L) : list A :=
  match ls with
  | [] => []
  | l :: ls' => value ln l :: values_from render value (ln + count_nl (render l)) ls'
  end.

(** What follows the last element of a list suits that element. *)
Fixpoint ok_last {L} (ok : L -> string -> Prop) (ls : list L) (stopper : string) : Prop :=
  match ls with
  | [] => True
  | [l] => ok l stopper
  | _ :: ls' => ok_last ok ls' stopper
  end.

(** The values read from a list whose renderings are separated by
    [sep], the first of them starting on line [ln]. *)
Fixpoint sep_values {L A} (sep : string) (render : L -> string)
    (value : nat -> L -> A) (ln : nat) (ls : list L) : list A :=
  match ls with
  | [] => []
  | l :: ls' =>
      value ln l ::
      sep_values sep render value (ln + count_nl (render l) + count_nl sep) ls'
  end.

(** A package name without its scope mark: the text after a leading [@]. *)
Definition name_body (name : string) : string :=
  match name with
  | String a body => if Ascii.eqb a AT then body else name
  | EmptyString => name
  end.

(** A package name as a lockfile writes it: an optional [@], then text
    without [@], double quote or newline. *)
Definition wf_name (name : string) : bool :=
  nonempty (name_body name) && lacks [AT; DQUOTE; LF] (name_body name).

(** [name@constraint] *)
Definition render_source (src : Source) : string := src.1 +:+ "@" +:+ src.2.

(** A source of a version 1 header, in quotes when the flag is set. *)
Definition render_source1 (item : bool * Source) : string :=
  if item.1 then QUOTE +:+ render_source item.2 +:+ QUOTE else render_source item.2.

(** The constraint of a quoted source may hold colons and commas, that
    of a bare source may not. *)
Definition wf_source1 (item : bool * Source) : bool :=
  wf_name item.2.1 && nonempty item.2.2 &&
  lacks (if item.1 then [DQUOTE; LF] else [DQUOTE; COLON; COMMA; LF]) item.2.2.

Definition wf_source2 (src : Source) : bool :=
  wf_name src.1 && nonempty src.2 && lacks [DQUOTE; COMMA; LF] src.2.

(** [r] is the end of the text or starts with a character of [stops]. *)
Definition stops_here (stops : list ascii) (r : string) : bool :=
  match r with
  | EmptyString => true
  | String a _ => char_in stops a
  end.

(** The characters that end the constraint of a bare version 1 source. *)
Definition BARE_STOPS : list ascii := [DQUOTE; COLON; COMMA; LF].

(** The characters that end the constraint of a version 2 source. *)
Definition SOURCE2_STOPS : list ascii := [DQUOTE; COMMA; LF].

(** A version 2 source as the header parser gives it: the constraint
    without a leading [npm:]. *)
Definition source2_value (src : Source) : Source := (src.1, remove_npm_prefix src.2).

(** The lines under the header of a block: a field, the header of a
    nested sub-block, or a line with another indentation than two
    spaces (the entries of a nested sub-block). *)
Inductive Line :=
| Field (key value : string)
| Header (key : string)
| Indented (n : nat) (body : string).

Definition render_line1 (l : Line) : string :=
  match l with
  | Field key value => "  " +:+ key +:+ " " +:+ value
  | Header key => "  " +:+ key +:+ ":"
  | Indented n body => spaces n +:+ body
  end.

Definition render_line2 (l : Line) : string :=
  match l with
  | Field key value => "  " +:+ key +:+ ": " +:+ value
  | Header key => "  " +:+ key +:+ ":"
  | Indented n body => spaces n +:+ body
  end.

(** What a line adds to the fields of its block. *)
Definition line_value (l : Line) : option (string * string) :=
  match l with
  | Field key value => Some (key, strip DQUOTE value)
  | Header _ | Indented _ _ => None
  end.

Definition wf_key1 (key : string) : bool :=
  nonempty key && lacks [SPACE; COLON; LF] key.

Definition wf_key2 (key : string) : bool :=
  nonempty key && negb (starts_with_space key) && lacks [COLON; LF] key.

Definition wf_line (wf_key : string -> bool) (l : Line) : bool :=
  match l with
  | Field key value => wf_key key && nonempty value && lacks [LF] value
  | Header key => wf_key key
  | Indented n body =>
      negb (Nat.eqb n 2) && nonempty body && negb (starts_with_space body) &&
      lacks [LF] body
  end.

(** What may follow a line of a version 2 block: the end of the line,
    which for the header of a sub-block is a newline and not the end of
    the text. *)
Definition line_follows2 (l : Line) (r : string) : bool :=
  line_ends r && match l with
                 | Header _ => nonempty r
                 | Field _ _ | Indented _ _ => true
                 end.

(** What follows the lines of a block: the end of the text, a last
    newline, or a blank line. *)
Definition block_end (stopper : string) : bool :=
  match stopper with
  | EmptyString => true
  | String a EmptyString => Ascii.eqb a LF
  | String a (String b _) => Ascii.eqb a LF && Ascii.eqb b LF
  end.

(** The text of a block: its sources, at least one, and the lines under
    its header, at least one.  [Src] is the form of a source: with its
    quoting flag in version 1, plain in version 2. *)
Record BlockText (Src : Type) := MkBlockText {
  bt_sources : Src * list Src;
  bt_lines : Line * list Line
}.
Arguments MkBlockText {Src} _ _.
Arguments bt_sources {Src} _.
Arguments bt_lines {Src} _.

Definition all {X} (p : X * list X) : list X := p.1 :: p.2.

Definition render_block1 (b : BlockText (bool * Source)) : string :=
  join ", " (List.map render_source1 (all (bt_sources b))) +:+ ":" +:+ NEWLINE +:+
  join NEWLINE (List.map render_line1 (all (bt_lines b))).

Definition render_block2 (b : BlockText Source) : string :=
  QUOTE +:+ join ", " (List.map render_source (all (bt_sources b))) +:+ QUOTE +:+
  ":" +:+ NEWLINE +:+
  join NEWLINE (List.map render_line2 (all (bt_lines b))).

(** What the block grammar reads from the text of a block. *)
Definition block_value1 (b : BlockText (bool * Source)) : list Source * Fields :=
  (List.map snd (all (bt_sources b)),
   fields_of (List.map line_value (all (bt_lines b)))).

Definition block_value2 (b : BlockText Source) : list Source * Fields :=
  (List.map source2_value (all (bt_sources b)),
   fields_of (List.map line_value (all (bt_lines b)))).

Definition wf_block1 (b : BlockText (bool * Source)) : bool :=
  forallb wf_source1 (all (bt_sources b)) &&
  forallb (wf_line wf_key1) (all (bt_lines b)).

Definition wf_block2 (b : BlockText Source) : bool :=
  forallb wf_source2 (all (bt_sources b)) &&
  forallb (wf_line wf_key2) (all (bt_lines b)).

(** The number of lines of the text of a block, its header included. *)
Definition block_height {Src} (b : BlockText Src) : nat :=
  S (List.length (all (bt_lines b))).

(** The last line of a block. *)
Definition last_line {Src} (b : BlockText Src) : Line :=
  List.last (bt_lines b).2 (bt_lines b).1.

(** The empty string or one newline. *)
Definition optional_newline (s : string) : bool :=
  String.eqb s EmptyString || String.eqb s NEWLINE.

(** The blocks read from the texts of a list of blocks of which the
    first header is on line [n] (1-based): a block and the blank line
    after it take [block_height b + 1] lines. *)
Fixpoint number_blocks {Src} (value : BlockText Src -> list Source * Fields)
    (n : nat) (bs : list (BlockText Src)) : list Block :=
  match bs with
  | [] => []
  | b :: bs' => (n, value b) :: number_blocks value (n + block_height b + 1) bs'
  end.

(** A version 1 lockfile: the banner, an optional blank line, the blocks
    with a blank line between them, and an optional last newline. *)
Definition render_lockfile1 (lead trail : string)
    (bs : list (BlockText (bool * Source))) : string :=
  YARN1_PREFIX +:+ lead +:+
  join (NEWLINE +:+ NEWLINE) (List.map render_block1 bs) +:+ trail.

(** A run of decimal digits, at least one. *)
Fixpoint all_digits (s : string) : bool :=
  match s with
  | EmptyString => true
  | String a s' => char_in DIGITS a && all_digits s'
  end.

Definition is_number (s : string) : bool := nonempty s && all_digits s.

(** The metadata stanza of a version 2 lockfile, when there is one. *)
Definition render_metadata (meta : option (string * string)) : string :=
  match meta with
  | Some (version, cache_key) =>
      NEWLINE +:+ "__metadata:" +:+ NEWLINE +:+ "  version: " +:+ version +:+
      NEWLINE +:+ "  cacheKey: " +:+ cache_key +:+ NEWLINE
  | None => EmptyString
  end.

Definition wf_metadata (meta : option (string * string)) : bool :=
  match meta with
  | Some (version, cache_key) => is_number version && is_number cache_key
  | None => true
  end.

(** A version 2 lockfile: the banner, the metadata stanza if any, an
    optional blank line, the blocks with a blank line between them, and
    an optional last newline. *)
Definition render_lockfile2 (meta : option (string * string)) (lead trail : string)
    (bs : list (BlockText Source)) : string :=
  YARN2_PREFIX +:+ render_metadata meta +:+ lead +:+
  join (NEWLINE +:+ NEWLINE) (List.map render_block2 bs) +:+ trail.

(** The blocks of [three_blocks] and of [two_blocks2]. *)
Definition sample_blocks1 : list (BlockText (bool * Source)) :=
  [ MkBlockText ((false, ("a", "^1.0.0")), [(false, ("a", "^2.0.0"))])
      (Field "version" (QUOTE +:+ "2.1.0" +:+ QUOTE),
       [Field "resolved" (QUOTE +:+ "https://host/a.tgz#abcdef" +:+ QUOTE)]);
    MkBlockText ((false, ("b", "^2.0.0")), [])
      (Field "resolved" (QUOTE +:+ "https://host/b.tgz" +:+ QUOTE), []);
    MkBlockText ((true, ("@scope/c", "^3.0.0")), [])
      (Field "version" (QUOTE +:+ "3.0.0" +:+ QUOTE),
       [Header "dependencies"; Indented 4 ("a " +:+ QUOTE +:+ "^1.0.0" +:+ QUOTE)]) ].

Definition sample_blocks2 : list (BlockText Source) :=
  [ MkBlockText (("a", "npm:^1.0.0"), [("a", "file:../a")])
      (Field "version" "1.2.0",
       [Field "checksum" "2987dbeb"; Field "languageName" "node"]);
    MkBlockText (("b", "npm:^2.0.0"), [])
      (Field "version" "2.0.1", [Field "checksum" (QUOTE +:+ QUOTE)]) ].

Definition sample_lines : list Line :=
  [ Header "dependencies"; Indented 4 "a ^1.0.0"; Field "version" "1.0.0" ].

(** A record without its classification. *)
Definition without_transitivity (r : FoundDependency.t) : FoundDependency.t :=
  FoundDependency.mk (FoundDependency.package r) (FoundDependency.version r)
    (FoundDependency.ecosystem r) (FoundDependency.allowed_hashes r)
    (FoundDependency.resolved_url r) Unknown (FoundDependency.line_number r).
(** * Verification *)

(** ** Strings *)

#[local] Arguments String.append !s1 s2 : simpl nomatch.

Lemma string_app_assoc (a b c : string) : (a +:+ b) +:+ c = a +:+ (b +:+ c).
Proof. induction a as [|x a IH]; simpl; [reflexivity | now rewrite IH]. Qed.

Lemma string_app_nil_r (a : string) : a +:+ EmptyString = a.
Proof. induction a as [|x a IH]; simpl; [reflexivity | now rewrite IH]. Qed.

Lemma string_length_app (a b : string) :
  String.length (a +:+ b) = String.length a + String.length b.
Proof. induction a as [|x a IH]; simpl; [reflexivity | now rewrite IH]. Qed.

Lemma count_nl_app (a b : string) : count_nl (a +:+ b) = count_nl a + count_nl b.
Proof. induction a as [|x a IH]; simpl; [reflexivity | rewrite IH; lia]. Qed.

Lemma strip_prefix_app (lit r : string) : strip_prefix lit (lit +:+ r) = Some r.
Proof.
  induction lit as [|x lit IH]; simpl; [reflexivity |].
  now rewrite Ascii.eqb_refl.
Qed.

Lemma strip_prefix_Some (lit s r : string) :
  strip_prefix lit s = Some r -> s = lit +:+ r.
Proof.
  revert s. induction lit as [|x lit IH]; simpl; intros s H.
  - congruence.
  - destruct s as [|y s]; [discriminate |].
    destruct (Ascii.eqb_spec x y) as [->|]; [| discriminate].
    now rewrite (IH _ H).
Qed.

Lemma startswith_iff (s prefix : string) :
  startswith s prefix = true <-> exists r, s = prefix +:+ r.
Proof.
  unfold startswith. split.
  - destruct (strip_prefix prefix s) as [r|] eqn:E; [| discriminate].
    intros _. exists r. now apply strip_prefix_Some.
  - intros [r ->]. now rewrite strip_prefix_app.
Qed.

Lemma span_app (stops : list ascii) (s tok r : string) :
  span stops s = (tok, r) -> s = tok +:+ r.
Proof.
  revert tok r. induction s as [|a s IH]; simpl; intros tok r H.
  - now inversion H.
  - destruct (char_in stops a).
    + now inversion H.
    + destruct (span stops s) as [tok' r'] eqn:E. inversion H; subst.
      simpl. now rewrite (IH _ _ eq_refl).
Qed.

Lemma free_of_cons stops a s :
  free_of stops (String a s) -> char_in stops a = false /\ free_of stops s.
Proof.
  intros H. split.
  - destruct (char_in stops a) eqn:E; [| reflexivity].
    specialize (H a E). simpl in H. now rewrite Ascii.eqb_refl in H.
  - intros b Hb. specialize (H b Hb). simpl in H.
    now apply orb_false_iff in H.
Qed.

Lemma span_token (stops : list ascii) (tok r : string) :
  free_of stops tok -> stops_at stops r -> span stops (tok +:+ r) = (tok, r).
Proof.
  intros Hfree Hstop. induction tok as [|a tok IH]; simpl.
  - destruct r as [|b r]; simpl in *; [reflexivity | now rewrite Hstop].
  - apply free_of_cons in Hfree as [-> Hfree]. now rewrite (IH Hfree).
Qed.

Lemma span_digits_app (s tok r : string) :
  span_digits s = (tok, r) -> s = tok +:+ r.
Proof.
  revert tok r. induction s as [|a s IH]; cbn [span_digits]; intros tok r H.
  - now inversion H.
  - destruct (char_in DIGITS a).
    + destruct (span_digits s) as [tok' r'] eqn:E. inversion H; subst.
      simpl. now rewrite (IH _ _ eq_refl).
    + now inversion H.
Qed.

Create HintDb consumes.

Lemma consumes_success {A} (v : A) : consumes (Parsy.success v).
Proof.
  intros c w c' H. inversion H; subst. exists EmptyString. simpl. split; [reflexivity | lia].
Qed.

Lemma consumes_bind {A B} (p : Parser A) (f : A -> Parser B) :
  consumes p -> (forall v, consumes (f v)) -> consumes (Parsy.bind p f).
Proof.
  intros Hp Hf c w c' H. unfold Parsy.bind in H.
  destruct (p c) as [[v c1]|] eqn:E; [| discriminate].
  destruct (Hp _ _ _ E) as (s1 & Hr1 & Hl1).
  destruct (Hf _ _ _ _ H) as (s2 & Hr2 & Hl2).
  exists (s1 +:+ s2). rewrite string_app_assoc, count_nl_app, Hr1, Hr2. split; [reflexivity | lia].
Qed.

Lemma consumes_map {A B} (p : Parser A) (f : A -> B) :
  consumes p -> consumes (Parsy.map p f).
Proof. intros Hp. apply consumes_bind; [assumption | intros; apply consumes_success]. Qed.

Lemma consumes_then {A B} (p : Parser A) (q : Parser B) :
  consumes p -> consumes q -> consumes (Parsy.then_ p q).
Proof. intros Hp Hq. now apply consumes_bind. Qed.

Lemma consumes_skip {A B} (p : Parser A) (q : Parser B) :
  consumes p -> consumes q -> consumes (Parsy.skip p q).
Proof.
  intros Hp Hq. apply consumes_bind; [assumption | intros v].
  apply consumes_bind; [assumption | intros; apply consumes_success].
Qed.

Lemma consumes_concat (p q : Parser string) :
  consumes p -> consumes q -> consumes (Parsy.concat p q).
Proof.
  intros Hp Hq. apply consumes_bind; [assumption | intros v].
  apply consumes_bind; [assumption | intros; apply consumes_success].
Qed.

Lemma consumes_alt {A} (p q : Parser A) :
  consumes p -> consumes q -> consumes (Parsy.alt p q).
Proof.
  intros Hp Hq c v c' H. unfold Parsy.alt in H.
  destruct (p c) as [[v1 c1]|] eqn:E.
  - inversion H; subst. eauto.
  - eauto.
Qed.

Lemma consumes_optional {A} (p : Parser A) (default : A) :
  consumes p -> consumes (Parsy.optional p default).
Proof. intros Hp. apply consumes_alt; [assumption | apply consumes_success]. Qed.

Lemma consumes_string (lit : string) : consumes (Parsy.string lit).
Proof.
  intros c v c' H. unfold Parsy.string in H.
  destruct (strip_prefix lit (rest c)) as [r|] eqn:E; [| discriminate].
  injection H as <- <-. exists lit. simpl. split; [| reflexivity].
  now apply strip_prefix_Some.
Qed.

Lemma consumes_any_char : consumes Parsy.any_char.
Proof.
  intros c v c' H. unfold Parsy.any_char in H.
  destruct (rest c) as [|a r] eqn:E; [discriminate |].
  inversion H; subst. exists (str1 a). simpl. split; reflexivity.
Qed.

Lemma consumes_peek {A} (p : Parser A) : consumes (Parsy.peek p).
Proof.
  intros c v c' H. unfold Parsy.peek in H.
  destruct (p c) as [[v1 c1]|]; [| discriminate].
  inversion H; subst. exists EmptyString. simpl. split; [reflexivity | lia].
Qed.

Lemma consumes_many_loop {A} (p : Parser A) :
  consumes p ->
  forall fuel c vs c', Parsy.many_loop fuel p c = Some (vs, c') ->
    exists s, rest c = s +:+ rest c' /\ line c' = line c + count_nl s.
Proof.
  intros Hp fuel. induction fuel as [|fuel IH]; intros c vs c' H; simpl in H.
  - discriminate.
  - destruct (p c) as [[v c1]|] eqn:E.
    + destruct (Parsy.many_loop fuel p c1) as [[ws c2]|] eqn:E2; [| discriminate].
      inversion H; subst.
      destruct (Hp _ _ _ E) as (s1 & Hr1 & Hl1).
      destruct (IH _ _ _ E2) as (s2 & Hr2 & Hl2).
      exists (s1 +:+ s2). rewrite string_app_assoc, count_nl_app, Hr1, Hr2.
      split; [reflexivity | lia].
    + inversion H; subst. exists EmptyString. simpl. split; [reflexivity | lia].
Qed.

Lemma consumes_many {A} (p : Parser A) : consumes p -> consumes (Parsy.many p).
Proof. intros Hp c vs c' H. eapply consumes_many_loop; eassumption. Qed.

Lemma consumes_sep_by {A B} (p : Parser A) (sep : Parser B) :
  consumes p -> consumes sep -> consumes (Parsy.sep_by p sep).
Proof.
  intros Hp Hs. apply consumes_alt; [| apply consumes_success].
  apply consumes_bind; [assumption | intros x].
  apply consumes_bind; [| intros; apply consumes_success].
  apply consumes_many. now apply consumes_then.
Qed.

Lemma consumes_eof : consumes Parsy.eof.
Proof.
  intros c v c' H. unfold Parsy.eof in H.
  destruct (rest c) eqn:E; [| discriminate].
  inversion H; subst. exists EmptyString. simpl. rewrite E. split; [reflexivity | lia].
Qed.

Lemma consumes_not_any (chars : list ascii) : consumes (Util.not_any chars).
Proof.
  intros c v c' H. unfold Util.not_any in H.
  destruct (span chars (rest c)) as [tok r] eqn:E.
  apply span_app in E.
  destruct tok as [|a tok]; [discriminate |].
  inversion H; subst. exists (String a tok). simpl. split; [assumption | reflexivity].
Qed.

Lemma consumes_one_of (chars : list ascii) : consumes (Util.one_of chars).
Proof.
  intros c v c' H. unfold Util.one_of in H.
  destruct (rest c) as [|a r] eqn:E; [discriminate |].
  destruct (char_in chars a); [| discriminate].
  inversion H; subst. exists (str1 a). simpl. split; reflexivity.
Qed.

Lemma consumes_upto (s : list ascii) (consume_other : bool) :
  consumes (Util.upto s consume_other).
Proof.
  unfold Util.upto. destruct consume_other.
  - apply consumes_skip; [apply consumes_not_any | apply consumes_one_of].
  - apply consumes_not_any.
Qed.

Lemma consumes_consume_line {A} : consumes (@Util.consume_line A).
Proof. apply consumes_map, consumes_not_any. Qed.

Lemma consumes_line_number : consumes Util.line_number.
Proof.
  intros c v c' H. inversion H; subst. exists EmptyString. simpl. split; [reflexivity | lia].
Qed.

Lemma consumes_mark_line {A} (p : Parser A) : consumes p -> consumes (Util.mark_line p).
Proof.
  intros Hp. apply consumes_bind; [apply consumes_line_number | intros ln].
  apply consumes_bind; [assumption | intros; apply consumes_success].
Qed.

Lemma consumes_pair {A B} (p1 : Parser A) (p2 : Parser B) :
  consumes p1 -> consumes p2 -> consumes (Util.pair p1 p2).
Proof.
  intros H1 H2. apply consumes_bind; [assumption | intros a].
  apply consumes_bind; [assumption | intros; apply consumes_success].
Qed.

Lemma consumes_quoted {A} (p : Parser A) : consumes p -> consumes (Util.quoted p).
Proof.
  intros Hp. apply consumes_skip; [| apply consumes_string].
  apply consumes_then; [apply consumes_string | assumption].
Qed.

Lemma consumes_digits1 : consumes digits1.
Proof.
  intros c v c' H. unfold digits1 in H.
  destruct (span_digits (rest c)) as [tok r] eqn:E.
  apply span_digits_app in E.
  destruct tok as [|a tok]; [discriminate |].
  inversion H; subst. exists (String a tok). simpl. split; [assumption | reflexivity].
Qed.

#[export] Hint Resolve consumes_success consumes_map consumes_then consumes_skip
  consumes_concat consumes_alt consumes_optional consumes_string
  consumes_any_char consumes_peek consumes_many consumes_sep_by consumes_eof
  consumes_not_any consumes_one_of consumes_upto consumes_consume_line
  consumes_line_number consumes_mark_line consumes_pair consumes_quoted
  consumes_digits1 : consumes.

(** The grammars of [yarn.py]. *)

Lemma consumes_source1 (quoted : bool) : consumes (source1 quoted).
Proof. unfold source1. auto 10 with consumes. Qed.

Lemma consumes_multi_source1 : consumes multi_source1.
Proof. unfold multi_source1. pose proof consumes_source1. auto 10 with consumes. Qed.

Lemma consumes_key_value1 : consumes key_value1.
Proof.
  unfold key_value1. apply consumes_bind; [auto with consumes | intros spaces].
  destruct (negb _); [auto with consumes |].
  apply consumes_bind; [auto with consumes | intros key].
  apply consumes_bind; [auto with consumes | intros next].
  destruct (String.eqb _ _); [auto with consumes |].
  apply consumes_then; [auto with consumes |].
  apply consumes_bind; [auto with consumes | intros value; auto with consumes].
Qed.

Lemma consumes_yarn_block1 : consumes yarn_block1.
Proof.
  unfold yarn_block1. pose proof consumes_multi_source1. pose proof consumes_key_value1.
  auto 10 with consumes.
Qed.

Lemma consumes_source2 : consumes source2.
Proof. unfold source2. auto 10 with consumes. Qed.

Lemma consumes_multi_source2 : consumes multi_source2.
Proof. unfold multi_source2. pose proof consumes_source2. auto 10 with consumes. Qed.

Lemma consumes_key_value2 : consumes key_value2.
Proof.
  unfold key_value2. apply consumes_bind; [auto with consumes | intros spaces].
  destruct (negb _); [auto with consumes |].
  apply consumes_bind; [auto with consumes | intros key].
  apply consumes_then; [auto with consumes |].
  apply consumes_bind; [auto with consumes | intros next].
  destruct (String.eqb _ _); [auto with consumes |].
  apply consumes_then; [auto with consumes |].
  apply consumes_bind; [auto with consumes | intros value; auto with consumes].
Qed.

Lemma consumes_yarn_block2 : consumes yarn_block2.
Proof.
  unfold yarn_block2. pose proof consumes_multi_source2. pose proof consumes_key_value2.
  auto 10 with consumes.
Qed.

Lemma consumes_metadata : consumes YARN2_METADATA_REGEX.
Proof. unfold YARN2_METADATA_REGEX. auto 10 with consumes. Qed.

(** ** Repetition never runs out of fuel *)

Lemma consumes_length {A} (p : Parser A) :
  consumes p ->
  forall c v c', p c = Some (v, c') -> String.length (rest c') <= String.length (rest c).
Proof.
  intros Hp c v c' H. destruct (Hp _ _ _ H) as (s & -> & _).
  rewrite string_length_app. lia.
Qed.

Lemma productive_string (lit : string) :
  lit <> EmptyString -> productive (Parsy.string lit).
Proof.
  intros Hne c v c' H. destruct (consumes_string lit _ _ _ H) as (s & Hr & _).
  unfold Parsy.string in H.
  destruct (strip_prefix lit (rest c)) as [r|] eqn:E; [| discriminate].
  injection H as <- <-. apply strip_prefix_Some in E. rewrite E. simpl.
  rewrite string_length_app. destruct lit; [congruence | simpl; lia].
Qed.

Lemma bind_Some {A B} (p : Parser A) (f : A -> Parser B) c r :
  Parsy.bind p f c = Some r ->
  exists v c1, p c = Some (v, c1) /\ f v c1 = Some r.
Proof.
  unfold Parsy.bind. destruct (p c) as [[v c1]|]; [| discriminate]. eauto.
Qed.

Lemma then_Some {A B} (p : Parser A) (q : Parser B) c r :
  Parsy.then_ p q c = Some r ->
  exists v c1, p c = Some (v, c1) /\ q c1 = Some r.
Proof. apply bind_Some. Qed.

Lemma skip_Some {A B} (p : Parser A) (q : Parser B) c v c' :
  Parsy.skip p q c = Some (v, c') ->
  exists w c1, p c = Some (v, c1) /\ q c1 = Some (w, c').
Proof.
  intros H. apply bind_Some in H as (v1 & c1 & Hp & H).
  apply bind_Some in H as (w & c2 & Hq & H). inversion H; subst. eauto.
Qed.

Lemma pair_Some {A B} (p1 : Parser A) (p2 : Parser B) c a b c' :
  Util.pair p1 p2 c = Some ((a, b), c') ->
  exists c1, p1 c = Some (a, c1) /\ p2 c1 = Some (b, c').
Proof.
  intros H. apply bind_Some in H as (a1 & c1 & Hp & H).
  apply bind_Some in H as (b1 & c2 & Hq & H). inversion H; subst. eauto.
Qed.

Lemma map_Some {A B} (p : Parser A) (f : A -> B) c w c' :
  Parsy.map p f c = Some (w, c') ->
  exists v, p c = Some (v, c') /\ w = f v.
Proof.
  intros H. apply bind_Some in H as (v & c1 & Hp & H). inversion H; subst. eauto.
Qed.

Lemma productive_then {A B} (p : Parser A) (q : Parser B) :
  productive p -> consumes q -> productive (Parsy.then_ p q).
Proof.
  intros Hp Hq c v c' H. apply then_Some in H as (w & c1 & H1 & H2).
  apply Hp in H1. apply (consumes_length _ Hq) in H2. lia.
Qed.

Lemma many_loop_total {A} (p : Parser A) :
  productive p ->
  forall fuel c, String.length (rest c) < fuel -> is_Some (Parsy.many_loop fuel p c).
Proof.
  intros Hp fuel. induction fuel as [|fuel IH]; intros c Hlen; [lia |].
  simpl. destruct (p c) as [[v c1]|] eqn:E; [| eauto].
  apply Hp in E. destruct (IH c1) as [[vs c2] ->]; [lia | eauto].
Qed.

Lemma many_total {A} (p : Parser A) :
  productive p -> forall c, is_Some (Parsy.many p c).
Proof. intros Hp c. apply many_loop_total; [assumption | lia]. Qed.

Lemma many_loop_fuel {A} (p : Parser A) fuel fuel' c r :
  Parsy.many_loop fuel p c = Some r -> fuel <= fuel' ->
  Parsy.many_loop fuel' p c = Some r.
Proof.
  revert fuel' c r. induction fuel as [|fuel IH]; intros fuel' c r H Hle; [discriminate |].
  destruct fuel' as [|fuel']; [lia |]. simpl in *.
  destruct (p c) as [[v c1]|]; [| assumption].
  destruct (Parsy.many_loop fuel p c1) as [[vs c2]|] eqn:E; [| discriminate].
  rewrite (IH fuel' c1 _ E); [assumption | lia].
Qed.

(** The four repetitions of the grammars are repetitions of parsers that
    consume input, so each of them gives a result as the library does. *)
Lemma yarn_repetitions_total :
  (forall c, is_Some (Parsy.many (Parsy.string " ") c)) /\
  (forall c, is_Some (Parsy.many (Parsy.then_ (Parsy.string ", ")
                        (Parsy.alt (Util.quoted (source1 true)) (source1 false))) c)) /\
  (forall c, is_Some (Parsy.many (Parsy.then_ (Parsy.string ", ") source2) c)) /\
  (forall c, is_Some (Parsy.many (Parsy.then_ (Parsy.string NEWLINE) key_value1) c)) /\
  (forall c, is_Some (Parsy.many (Parsy.then_ (Parsy.string NEWLINE) key_value2) c)) /\
  (forall c, is_Some (Parsy.many (Parsy.then_ (Parsy.string (NEWLINE +:+ NEWLINE)) yarn_dep1) c)) /\
  (forall c, is_Some (Parsy.many (Parsy.then_ (Parsy.string (NEWLINE +:+ NEWLINE)) yarn_dep2) c)).
Proof.
  pose proof consumes_source1. pose proof consumes_source2.
  pose proof consumes_key_value1. pose proof consumes_key_value2.
  pose proof consumes_yarn_block1. pose proof consumes_yarn_block2.
  repeat split; apply many_total;
    try (apply productive_then; [| unfold yarn_dep1, yarn_dep2; auto 10 with consumes]);
    apply productive_string; discriminate.
Qed.

(** ** Invariants of a separated list *)

Section SepByInvariant.
Context {A B : Type} (p : Parser A) (sep : Parser B).
Context (I : Cursor -> Prop) (P : A -> Prop).
Hypothesis p_ok : forall c v c', I c -> p c = Some (v, c') -> P v /\ I c'.
Hypothesis sep_ok : forall c v c', I c -> sep c = Some (v, c') -> I c'.

Lemma many_loop_invariant fuel c vs c' :
  I c -> Parsy.many_loop fuel (Parsy.then_ sep p) c = Some (vs, c') ->
  Forall P vs /\ I c'.
Proof.
  revert c vs c'. induction fuel as [|fuel IH]; intros c vs c' Hc H; [discriminate |].
  simpl in H. destruct (Parsy.then_ sep p c) as [[v c1]|] eqn:E.
  - destruct (Parsy.many_loop fuel (Parsy.then_ sep p) c1) as [[ws c2]|] eqn:E2;
      [| discriminate].
    injection H as <- <-.
    apply then_Some in E as (w & c0 & Hs & Hp).
    apply sep_ok in Hs; [| assumption].
    destruct (p_ok _ _ _ Hs Hp) as [Hv Hc1].
    destruct (IH _ _ _ Hc1 E2) as [Hws Hc2]. split; [constructor |]; assumption.
  - injection H as <- <-. split; [constructor | assumption].
Qed.

Lemma sep_by_invariant c vs c' :
  I c -> Parsy.sep_by p sep c = Some (vs, c') -> Forall P vs /\ I c'.
Proof.
  intros Hc H. unfold Parsy.sep_by, Parsy.alt in H.
  destruct (Parsy.bind p _ c) as [[ws c2]|] eqn:E.
  - injection H as <- <-.
    apply bind_Some in E as (x & c1 & Hp & E).
    apply bind_Some in E as (xs & c3 & Hm & E). injection E as <- <-.
    destruct (p_ok _ _ _ Hc Hp) as [Hx Hc1].
    destruct (many_loop_invariant _ _ _ _ Hc1 Hm) as [Hxs Hc3].
    split; [constructor |]; assumption.
  - injection H as <- <-. split; [constructor | assumption].
Qed.
End SepByInvariant.

(** ** Positions of the text *)

Lemma at_text_start (text : string) : at_text text {| line := 0; rest := text |}.
Proof. exists EmptyString. split; reflexivity. Qed.

Lemma at_text_step {A} (p : Parser A) text c v c' :
  consumes p -> at_text text c -> p c = Some (v, c') -> at_text text c'.
Proof.
  intros Hp (pre & Ht & Hl) H. destruct (Hp _ _ _ H) as (s & Hr & Hl').
  exists (pre +:+ s). rewrite string_app_assoc, <- Hr, count_nl_app. split; [assumption | lia].
Qed.

Lemma mark_line_header (block : Parser (list Source * Fields)) text c dep c' :
  consumes block -> at_text text c -> Util.mark_line block c = Some (dep, c') ->
  header_at text block dep /\ at_text text c'.
Proof.
  intros Hb Hc H. split;
    [| now apply (at_text_step (Util.mark_line block) text c dep c' (consumes_mark_line _ Hb))].
  destruct Hc as (pre & Ht & Hl).
  apply bind_Some in H as (ln & c1 & Hln & H). injection Hln as <- <-.
  apply bind_Some in H as (x & c2 & Hx & H). injection H as <- <-.
  exists pre, (rest c), c2. split; [assumption |]. split; [simpl; now rewrite Hl |].
  simpl. rewrite <- Hl. now destruct c.
Qed.

(** ** The blocks of a document *)

Lemma optional_newline_at text c v c' :
  at_text text c ->
  Parsy.optional (Parsy.map (Parsy.string NEWLINE) Some) None c = Some (v, c') ->
  at_text text c'.
Proof. intros Hc H. eapply at_text_step; [| exact Hc | exact H]. auto with consumes. Qed.

Lemma yarn_deps_headers (block : Parser (list Source * Fields)) text c deps c' :
  consumes block -> at_text text c ->
  Parsy.sep_by (Util.mark_line block) (Parsy.string (NEWLINE +:+ NEWLINE)) c = Some (deps, c') ->
  Forall (header_at text block) deps.
Proof.
  intros Hb Hc H.
  refine (proj1 (sep_by_invariant _ _ (at_text text) (header_at text block) _ _ c deps c' Hc H)).
  - intros c0 v c1 H0 H1. now apply (mark_line_header block text c0 v c1).
  - intros c0 v c1 H0 H1. eapply at_text_step; [| exact H0 | exact H1]. auto with consumes.
Qed.

Lemma parse_Some {A} (p : Parser A) text v :
  Util.safe_path_parse text p = Some v ->
  exists c', p {| line := 0; rest := text |} = Some (v, c') /\ rest c' = EmptyString.
Proof.
  unfold Util.safe_path_parse, Parsy.parse. intros H.
  destruct (Parsy.skip p Parsy.eof _) as [[w c']|] eqn:E; [| discriminate].
  injection H as ->. apply skip_Some in E as (u & c1 & Hp & He).
  unfold Parsy.eof in He. destruct (rest c1) eqn:Er; [| discriminate].
  injection He as _ <-. eauto.
Qed.

Lemma yarn1_headers text deps :
  Util.safe_path_parse text yarn1 = Some deps ->
  Forall (header_at text yarn_block1) deps.
Proof.
  intros H. apply parse_Some in H as (c' & H & _). unfold yarn1 in H.
  apply skip_Some in H as (w & c3 & H & _).
  apply then_Some in H as (v2 & c2 & H & Hdeps).
  apply then_Some in H as (v1 & c1 & Hprefix & Hnl).
  eapply yarn_deps_headers; [apply consumes_yarn_block1 | | exact Hdeps].
  eapply optional_newline_at; [| exact Hnl].
  eapply at_text_step; [apply consumes_string | apply at_text_start | exact Hprefix].
Qed.

Lemma yarn2_headers text deps :
  Util.safe_path_parse text yarn2 = Some deps ->
  Forall (header_at text yarn_block2) deps.
Proof.
  intros H. apply parse_Some in H as (c' & H & _). unfold yarn2 in H.
  apply skip_Some in H as (w & c4 & H & _).
  apply then_Some in H as (v3 & c3 & H & Hdeps).
  apply then_Some in H as (v2 & c2 & H & Hnl).
  apply then_Some in H as (v1 & c1 & Hprefix & Hmeta).
  eapply yarn_deps_headers; [apply consumes_yarn_block2 | | exact Hdeps].
  eapply optional_newline_at; [| exact Hnl].
  eapply at_text_step; [| | exact Hmeta].
  - pose proof consumes_metadata. auto with consumes.
  - eapply at_text_step; [apply consumes_string | apply at_text_start | exact Hprefix].
Qed.

(** ** The loop of [parse_yarn] *)

Section Assembly.
Variable json_doc : Path -> option JSON.
Variable extract_npm_lockfile_hash : option string -> gmap string (list string).

#[local] Abbreviation assemble := (assemble extract_npm_lockfile_hash).
#[local] Abbreviation parse_yarn := (parse_yarn json_doc extract_npm_lockfile_hash).

Lemma parse_yarn_omap text manifest_path deps :
  Util.safe_path_parse text (parser_of (yarn_version_of text)) = Some deps ->
  parse_yarn text manifest_path =
  omap (assemble (yarn_version_of text) (get_manifest_deps json_doc manifest_path)) deps.
Proof.
  intros H. unfold parse_yarn. rewrite H. now destruct deps.
Qed.

Lemma assemble_survives yarn_version manifest_deps dep :
  survives dep = true <-> is_Some (assemble yarn_version manifest_deps dep).
Proof.
  destruct dep as [ln [sources fields]]. unfold assemble, survives.
  destruct sources as [|[package constraint] others]; simpl.
  - split; [discriminate | intros [r Hr]; discriminate].
  - destruct (fields !! "version") as [version|] eqn:E.
    + split; [eauto | intros _]. apply bool_decide_eq_true. eauto.
    + split; [| intros [r Hr]; discriminate].
      intros H%bool_decide_eq_true. destruct H as [v Hv]. discriminate.
Qed.

Lemma omap_assemble yarn_version manifest_deps deps :
  Forall2 (fun r dep => assemble yarn_version manifest_deps dep = Some r)
    (omap (assemble yarn_version manifest_deps) deps)
    (List.filter survives deps).
Proof.
  induction deps as [|dep deps IH]; simpl; [constructor |].
  pose proof (assemble_survives yarn_version manifest_deps dep) as Hs.
  destruct (assemble yarn_version manifest_deps dep) as [r|] eqn:E.
  - rewrite (proj2 Hs) by eauto. now constructor.
  - destruct (survives dep); [| assumption].
    destruct (proj1 Hs eq_refl) as [r Hr]. discriminate.
Qed.

Lemma assemble_record yarn_version manifest_deps dep r :
  assemble yarn_version manifest_deps dep = Some r -> record_of dep r.
Proof.
  destruct dep as [ln [sources fields]]. unfold assemble, record_of.
  destruct sources as [|[package constraint] others]; [discriminate |].
  destruct (fields !! "version") as [version|]; [| discriminate].
  intros H. injection H as <-. simpl. eauto.
Qed.

End Assembly.

Lemma survives_iff (dep : Block) :
  survives dep = true <-> dep.2.1 <> [] /\ is_Some (dep.2.2 !! "version").
Proof.
  destruct dep as [ln [sources fields]]. unfold survives. simpl.
  rewrite andb_true_iff, bool_decide_eq_true.
  destruct sources; simpl; split; intros [H1 H2]; try done.
Qed.

Lemma yarn_headers text deps :
  Util.safe_path_parse text (parser_of (yarn_version_of text)) = Some deps ->
  Forall (header_at text (block_of (yarn_version_of text))) deps.
Proof.
  unfold parser_of, block_of, yarn_version_of.
  destruct (startswith text YARN1_PREFIX); simpl.
  - apply yarn1_headers.
  - apply yarn2_headers.
Qed.

(** ** The lines of the blocks *)

Lemma string_None (lit : string) (c : Cursor) :
  startswith (rest c) lit = false -> Parsy.string lit c = None.
Proof.
  unfold startswith, Parsy.string.
  now destruct (strip_prefix lit (rest c)).
Qed.

Lemma string_Some (lit : string) (c : Cursor) v c' :
  Parsy.string lit c = Some (v, c') ->
  startswith (rest c) lit = true /\ line c' = line c + count_nl lit.
Proof.
  unfold startswith, Parsy.string.
  destruct (strip_prefix lit (rest c)); [| discriminate].
  intros [= <- <-]. split; reflexivity.
Qed.

Lemma consumes_line {A} (p : Parser A) c v c' :
  consumes p -> p c = Some (v, c') -> line c <= line c'.
Proof. intros Hp H. destruct (Hp _ _ _ H) as (s & _ & ->). lia. Qed.

Lemma mark_line_Some {A} (p : Parser A) c d c' :
  Util.mark_line p c = Some (d, c') -> d.1 = S (line c) /\ p c = Some (d.2, c').
Proof.
  intros H. apply bind_Some in H as (ln & c0 & Hln & H). injection Hln as <- <-.
  apply bind_Some in H as (x & c1 & Hx & H). injection H as <- <-. now split.
Qed.

Lemma marks_loop_increase {A} (block : Parser A) :
  consumes block ->
  forall fuel c deps c',
    Parsy.many_loop fuel
      (Parsy.then_ (Parsy.string (NEWLINE +:+ NEWLINE)) (Util.mark_line block)) c =
      Some (deps, c') ->
    StronglySorted lt (List.map fst deps) /\ Forall (fun d => line c + 2 < d.1) deps.
Proof.
  intros Hb fuel. induction fuel as [|fuel IH]; intros c deps c' H; [discriminate |].
  cbn [Parsy.many_loop] in H.
  destruct (Parsy.then_ _ _ c) as [[d c1]|] eqn:E.
  - destruct (Parsy.many_loop fuel _ c1) as [[ds c2]|] eqn:E2; [| discriminate].
    injection H as <- <-.
    apply then_Some in E as (w & c0 & Hsep & Hmark).
    apply string_Some in Hsep as [_ Hline]. change (count_nl _) with 2 in Hline.
    apply mark_line_Some in Hmark as [Hd Hblock].
    apply (consumes_line _ _ _ _ Hb) in Hblock.
    destruct (IH _ _ _ E2) as [Hsorted Hall].
    split.
    + cbn [List.map]. constructor; [assumption |].
      apply Forall_map. eapply Forall_impl; [exact Hall |]. simpl. intros y Hy. lia.
    + constructor; [lia |]. eapply Forall_impl; [exact Hall |]. simpl. intros y Hy. lia.
  - injection H as <- <-. split; constructor.
Qed.

Lemma marks_increase {A} (block : Parser A) c deps c' :
  consumes block ->
  Parsy.sep_by (Util.mark_line block) (Parsy.string (NEWLINE +:+ NEWLINE)) c =
    Some (deps, c') ->
  StronglySorted lt (List.map fst deps) /\ Forall (fun d => line c < d.1) deps.
Proof.
  intros Hb H. unfold Parsy.sep_by, Parsy.alt in H.
  destruct (Parsy.bind (Util.mark_line block) _ c) as [[ds c2]|] eqn:E.
  - injection H as <- <-.
    apply bind_Some in E as (d & c1 & Hmark & E).
    apply bind_Some in E as (ds' & c3 & Hloop & E). injection E as <- <-.
    apply mark_line_Some in Hmark as [Hd Hblock].
    apply (consumes_line _ _ _ _ Hb) in Hblock.
    destruct (marks_loop_increase block Hb _ _ _ _ Hloop) as [Hsorted Hall].
    split.
    + cbn [List.map]. constructor; [assumption |].
      apply Forall_map. eapply Forall_impl; [exact Hall |]. simpl. intros y Hy. lia.
    + constructor; [lia |]. eapply Forall_impl; [exact Hall |]. simpl. intros y Hy. lia.
  - injection H as <- <-. split; constructor.
Qed.

Lemma yarn_marks text deps :
  Util.safe_path_parse text (parser_of (yarn_version_of text)) = Some deps ->
  StronglySorted lt (List.map fst deps) /\
  Forall (fun d : Block => (if Nat.eqb (yarn_version_of text) 1 then 4 else 3) <= d.1) deps.
Proof.
  unfold parser_of, yarn_version_of.
  destruct (startswith text YARN1_PREFIX); simpl; intros H;
    apply parse_Some in H as (c' & H & _).
  - unfold yarn1 in H.
    apply skip_Some in H as (w & c3 & H & _).
    apply then_Some in H as (v2 & c2 & H & Hdeps).
    apply then_Some in H as (v1 & c1 & Hprefix & Hnl).
    apply string_Some in Hprefix as [_ Hline]. change (count_nl _) with 3 in Hline.
    apply consumes_line in Hnl; [| auto with consumes].
    destruct (marks_increase _ _ _ _ consumes_yarn_block1 Hdeps) as [Hsorted Hall].
    split; [assumption |]. eapply Forall_impl; [exact Hall |].
    simpl in *. intros d Hd. lia.
  - unfold yarn2 in H.
    apply skip_Some in H as (w & c4 & H & _).
    apply then_Some in H as (v3 & c3 & H & Hdeps).
    apply then_Some in H as (v2 & c2 & H & Hnl).
    apply then_Some in H as (v1 & c1 & Hprefix & Hmeta).
    apply string_Some in Hprefix as [_ Hline]. change (count_nl _) with 2 in Hline.
    apply consumes_line in Hnl; [| auto with consumes].
    apply consumes_line in Hmeta; [| pose proof consumes_metadata; auto with consumes].
    destruct (marks_increase _ _ _ _ consumes_yarn_block2 Hdeps) as [Hsorted Hall].
    split; [assumption |]. eapply Forall_impl; [exact Hall |].
    simpl in *. intros d Hd. lia.
Qed.

Lemma sorted_filter {A} (f : A -> bool) (g : A -> nat) (l : list A) :
  StronglySorted lt (List.map g l) -> StronglySorted lt (List.map g (List.filter f l)).
Proof.
  induction l as [|x l IH]; simpl; [constructor |].
  intros H. apply StronglySorted_inv in H as [Hl Hx].
  destruct (f x); [| now apply IH]. simpl. constructor; [now apply IH |].
  apply Forall_map. apply Forall_forall.
  intros y Hy. apply list_elem_of_In, filter_In in Hy as [Hy _].
  rewrite Forall_forall in Hx. apply Hx. now apply list_elem_of_In, in_map.
Qed.

Lemma record_lines
    (extract_npm_lockfile_hash : option string -> gmap string (list string))
    (yarn_version : nat) (manifest_deps : option (gset (string * string)))
    (deps : list Block) :
  List.map FoundDependency.line_number
    (omap (assemble extract_npm_lockfile_hash yarn_version manifest_deps) deps) =
  List.map fst (List.filter survives deps).
Proof.
  pose proof (omap_assemble extract_npm_lockfile_hash yarn_version manifest_deps deps)
    as Hrecords.
  induction Hrecords as [|r dep rs ds Hr _ IH]; [reflexivity |].
  cbn [List.map]. rewrite IH. f_equal.
  apply assemble_record in Hr. destruct dep as [ln [sources fields]].
  now destruct Hr as [-> _].
Qed.

(** Of two places of a text, the one with fewer newlines before it is
    the earlier one: a smaller line number is an earlier position. *)
Lemma earlier_line_earlier_place (pre1 post1 pre2 post2 : string) :
  pre1 +:+ post1 = pre2 +:+ post2 ->
  count_nl pre1 < count_nl pre2 ->
  String.length pre1 < String.length pre2.
Proof.
  revert pre2. induction pre1 as [|a pre1 IH]; intros [|b pre2] Htext Hlines;
    cbn [count_nl String.length] in *; try lia.
  cbn [String.append] in Htext. injection Htext as <- Htext.
  specialize (IH pre2 Htext). lia.
Qed.

(** * The properties of the specification *)

(** C1: on every lockfile text that the grammar of its dialect accepts,
    [parse_yarn] gives one record for each parsed block that has a source
    and a [version] field and none for the other blocks, in the order of
    the blocks; each record carries the 1-based number of the line on
    which the header of its block starts.  The order of the blocks is
    their order in the text: the line numbers of the blocks, which are
    the lines of their headers in the text, increase strictly along the
    list, and so do the line numbers of the records. *)
Theorem C1_records_follow_blocks
    (json_doc : Path -> option JSON)
    (extract_npm_lockfile_hash : option string -> gmap string (list string))
    (text : string) (manifest_path : option Path) (deps : list Block) :
  Util.safe_path_parse text (parser_of (yarn_version_of text)) = Some deps ->
  Forall2 (fun r dep => record_of dep r)
    (parse_yarn json_doc extract_npm_lockfile_hash text manifest_path)
    (List.filter survives deps) /\
  Forall (fun dep => survives dep = true <->
                     dep.2.1 <> [] /\ is_Some (dep.2.2 !! "version")) deps /\
  Forall (header_at text (block_of (yarn_version_of text))) deps /\
  StronglySorted lt (List.map fst deps) /\
  StronglySorted lt
    (List.map FoundDependency.line_number
       (parse_yarn json_doc extract_npm_lockfile_hash text manifest_path)).
Proof.
  intros H. destruct (yarn_marks _ _ H) as [Hsorted _].
  split; [| split; [| split; [| split]]].
  - rewrite (parse_yarn_omap _ _ _ _ _ H).
    eapply Forall2_impl; [apply omap_assemble |].
    intros r dep Hr. eapply assemble_record, Hr.
  - apply Forall_forall. intros dep _. apply survives_iff.
  - now apply yarn_headers.
  - exact Hsorted.
  - rewrite (parse_yarn_omap _ _ _ _ _ H), record_lines. now apply sorted_filter.
Qed.

Example three_blocks_records :
  List.map (fun r => (FoundDependency.line_number r, FoundDependency.package r,
                      FoundDependency.version r))
    (parse_yarn no_manifest no_hashes three_blocks None) =
  [(5, "a", "2.1.0"); (12, "@scope/c", "3.0.0")].
Proof. vm_compute. reflexivity. Qed.

Lemma C1_witness :
  Forall2 (fun r dep => record_of dep r)
    (parse_yarn no_manifest no_hashes three_blocks None)
    (List.filter survives (blocks_of three_blocks yarn1)) /\
  Forall (fun dep => survives dep = true <->
                     dep.2.1 <> [] /\ is_Some (dep.2.2 !! "version"))
    (blocks_of three_blocks yarn1) /\
  Forall (header_at three_blocks (block_of (yarn_version_of three_blocks)))
    (blocks_of three_blocks yarn1) /\
  StronglySorted lt (List.map fst (blocks_of three_blocks yarn1)) /\
  StronglySorted lt
    (List.map FoundDependency.line_number
       (parse_yarn no_manifest no_hashes three_blocks None)).
Proof.
  apply (C1_records_follow_blocks no_manifest no_hashes three_blocks None).
  vm_compute. reflexivity.
Defined.

(** C2: when the grammar of the dialect fails on the text, [parse_yarn]
    returns the empty list: the failure does not propagate and no part
    of the document is reported. *)
Theorem C2_failed_grammar_no_records
    (json_doc : Path -> option JSON)
    (extract_npm_lockfile_hash : option string -> gmap string (list string))
    (text : string) (manifest_path : option Path) :
  Util.safe_path_parse text (parser_of (yarn_version_of text)) = None ->
  parse_yarn json_doc extract_npm_lockfile_hash text manifest_path = [].
Proof. intros H. unfold parse_yarn. now rewrite H. Qed.

Lemma C2_witness :
  parse_yarn no_manifest no_hashes corrupted_banner None = [] /\
  parse_yarn no_manifest no_hashes truncated_block None = [].
Proof.
  split.
  - apply (C2_failed_grammar_no_records no_manifest no_hashes corrupted_banner None).
    vm_compute. reflexivity.
  - apply (C2_failed_grammar_no_records no_manifest no_hashes truncated_block None).
    vm_compute. reflexivity.
Defined.

(** ** Transitivity *)

Lemma transitivity_known (m : gset (string * string)) (sources : list Source) :
  (Util.transitivity (Some m) sources = Direct <->
   exists src, In src sources /\ src ∈ m) /\
  (Util.transitivity (Some m) sources = Transitive <->
   ~ exists src, In src sources /\ src ∈ m).
Proof.
  unfold Util.transitivity.
  destruct (existsb _ sources) eqn:E.
  - apply existsb_exists in E as (src & Hin & Hm%bool_decide_eq_true).
    split; split; try done; eauto. intros Hno. exfalso. eauto.
  - assert (Hno : ~ exists src, In src sources /\ src ∈ m).
    { intros (src & Hin & Hm).
      assert (existsb (fun dep_source => bool_decide (dep_source ∈ m)) sources = true)
        as Ht; [| congruence].
      apply existsb_exists. exists src. split; [assumption |].
      now apply bool_decide_eq_true. }
    split; split; try done.
Qed.

Lemma parse_yarn_In json_doc extract_npm_lockfile_hash text manifest_path r :
  In r (parse_yarn json_doc extract_npm_lockfile_hash text manifest_path) ->
  exists dep,
    assemble extract_npm_lockfile_hash (yarn_version_of text)
      (get_manifest_deps json_doc manifest_path) dep = Some r.
Proof.
  unfold parse_yarn. intros H.
  destruct (Util.safe_path_parse _ _) as [[|dep deps]|]; try (now destruct H).
  apply list_elem_of_In, list_elem_of_omap in H as (x & _ & Hx). eauto.
Qed.

Lemma assemble_transitivity extract_npm_lockfile_hash yarn_version manifest_deps dep r :
  assemble extract_npm_lockfile_hash yarn_version manifest_deps dep = Some r ->
  FoundDependency.transitivity r = Util.transitivity manifest_deps dep.2.1.
Proof.
  destruct dep as [ln [sources fields]]. unfold assemble.
  destruct sources as [|[package constraint] others]; [discriminate |].
  destruct (fields !! "version") as [version|]; [| discriminate].
  intros H. injection H as <-. reflexivity.
Qed.

(** C3: without a manifest path, or with a manifest that does not parse,
    every record is [Unknown]; a manifest without a dependencies section
    gives the empty set; a manifest with one gives the set of its
    (name, constraint) items; and against a manifest set a record is
    [Direct] exactly when a source of its block is in the set, and
    [Transitive] exactly when none is. *)
Theorem C3_transitivity_classification
    (json_doc : Path -> option JSON)
    (extract_npm_lockfile_hash : option string -> gmap string (list string))
    (text : string) :
  (forall r,
      In r (parse_yarn json_doc extract_npm_lockfile_hash text None) ->
      FoundDependency.transitivity r = Unknown) /\
  (forall path r,
      json_doc path = None ->
      In r (parse_yarn json_doc extract_npm_lockfile_hash text (Some path)) ->
      FoundDependency.transitivity r = Unknown) /\
  (forall path json,
      json_doc path = Some json -> dependencies json = None ->
      get_manifest_deps json_doc (Some path) = Some ∅) /\
  (forall path json declared,
      json_doc path = Some json -> dependencies json = Some declared ->
      exists m, get_manifest_deps json_doc (Some path) = Some m /\
                forall name constraint,
                  (name, constraint) ∈ m <-> declared !! name = Some constraint) /\
  (forall manifest_path m deps,
      get_manifest_deps json_doc manifest_path = Some m ->
      Util.safe_path_parse text (parser_of (yarn_version_of text)) = Some deps ->
      Forall2 (fun r dep =>
                 (FoundDependency.transitivity r = Direct <->
                  exists src, In src dep.2.1 /\ src ∈ m) /\
                 (FoundDependency.transitivity r = Transitive <->
                  ~ exists src, In src dep.2.1 /\ src ∈ m))
        (parse_yarn json_doc extract_npm_lockfile_hash text manifest_path)
        (List.filter survives deps)).
Proof.
  repeat split.
  - intros r (dep & H)%parse_yarn_In. now rewrite (assemble_transitivity _ _ _ _ _ H).
  - intros path r Hdoc (dep & H)%parse_yarn_In.
    rewrite (assemble_transitivity _ _ _ _ _ H). simpl. now rewrite Hdoc.
  - intros path json Hdoc Hdeps. simpl. now rewrite Hdoc, Hdeps.
  - intros path json declared Hdoc Hdeps. simpl. rewrite Hdoc, Hdeps.
    eexists. split; [reflexivity |]. intros name constraint.
    rewrite elem_of_list_to_set. apply elem_of_map_to_list.
  - intros manifest_path m deps Hm Hparse.
    rewrite (parse_yarn_omap _ _ _ _ _ Hparse).
    eapply Forall2_impl; [apply omap_assemble |].
    intros r dep Hr. rewrite (assemble_transitivity _ _ _ _ _ Hr), Hm.
    apply transitivity_known.
Qed.

Example three_blocks_transitivity :
  List.map FoundDependency.transitivity
    (parse_yarn manifests no_hashes three_blocks (Some "package.json")) =
    [Direct; Transitive] /\
  List.map FoundDependency.transitivity
    (parse_yarn manifests no_hashes three_blocks (Some "other/package.json")) =
    [Transitive; Transitive] /\
  List.map FoundDependency.transitivity
    (parse_yarn manifests no_hashes three_blocks (Some "bare/package.json")) =
    [Transitive; Transitive] /\
  List.map FoundDependency.transitivity
    (parse_yarn manifests no_hashes three_blocks (Some "missing/package.json")) =
    [Unknown; Unknown] /\
  List.map FoundDependency.transitivity
    (parse_yarn manifests no_hashes three_blocks None) = [Unknown; Unknown].
Proof. vm_compute. repeat split; reflexivity. Qed.

Lemma C3_witness :
  (exists m, get_manifest_deps manifests (Some "package.json") = Some m /\
             forall name constraint,
               (name, constraint) ∈ m <->
               ({[ "a" := "^2.0.0" ]} : gmap string string) !! name = Some constraint) /\
  get_manifest_deps manifests (Some "bare/package.json") = Some ∅.
Proof.
  destruct (C3_transitivity_classification manifests no_hashes three_blocks)
    as (_ & _ & Hbare & Hdeclared & _).
  split.
  - apply (Hdeclared "package.json" {| dependencies := Some {[ "a" := "^2.0.0" ]} |});
      reflexivity.
  - apply (Hbare "bare/package.json" {| dependencies := None |}); reflexivity.
Defined.

(** ** Dialect dispatch *)

Lemma yarn1_is_not_yarn2 : yarn1 <> yarn2.
Proof.
  intros H.
  apply (f_equal (fun p : Parser (list Block) => p {| line := 0; rest := YARN1_PREFIX |})) in H.
  vm_compute in H. discriminate.
Qed.

(** C4: the version 1 grammar is chosen exactly for the texts that start
    with [YARN1_PREFIX], every other text is given to the version 2
    grammar, and the records are those of the blocks that the chosen
    grammar reads. *)
Theorem C4_dialect_dispatch
    (json_doc : Path -> option JSON)
    (extract_npm_lockfile_hash : option string -> gmap string (list string))
    (text : string) (manifest_path : option Path) :
  (yarn_version_of text = 1 <-> exists r, text = YARN1_PREFIX +:+ r) /\
  (yarn_version_of text = 2 <-> ~ exists r, text = YARN1_PREFIX +:+ r) /\
  (parser_of (yarn_version_of text) = yarn1 <-> exists r, text = YARN1_PREFIX +:+ r) /\
  (parser_of (yarn_version_of text) = yarn2 <-> ~ exists r, text = YARN1_PREFIX +:+ r) /\
  parse_yarn json_doc extract_npm_lockfile_hash text manifest_path =
  omap (assemble extract_npm_lockfile_hash (yarn_version_of text)
          (get_manifest_deps json_doc manifest_path))
       (blocks_of text (parser_of (yarn_version_of text))).
Proof.
  pose proof (startswith_iff text YARN1_PREFIX) as Hs.
  pose proof yarn1_is_not_yarn2 as Hne.
  assert (Hrecords :
    parse_yarn json_doc extract_npm_lockfile_hash text manifest_path =
    omap (assemble extract_npm_lockfile_hash (yarn_version_of text)
            (get_manifest_deps json_doc manifest_path))
         (blocks_of text (parser_of (yarn_version_of text)))).
  { unfold parse_yarn, blocks_of.
    now destruct (Util.safe_path_parse text _) as [[|dep deps]|]. }
  unfold yarn_version_of, parser_of in *.
  destruct (startswith text YARN1_PREFIX) eqn:E; simpl in *.
  - assert (Hex : exists r, text = YARN1_PREFIX +:+ r) by now apply Hs.
    split; [tauto |]. split; [split; [discriminate | tauto] |].
    split; [tauto |]. split; [split; [congruence | tauto] |]. exact Hrecords.
  - assert (Hno : ~ exists r, text = YARN1_PREFIX +:+ r).
    { intros Hex. apply Hs in Hex. discriminate. }
    split; [split; [discriminate | tauto] |]. split; [tauto |].
    split; [split; [intros Heq; now destruct Hne | tauto] |].
    split; [tauto |]. exact Hrecords.
Qed.

Example corrupted_banner_is_version2 :
  yarn_version_of corrupted_banner = 2 /\ yarn_version_of three_blocks = 1 /\
  yarn_version_of two_blocks2 = 2.
Proof. vm_compute. repeat split; reflexivity. Qed.

(** ** The resolved URL *)

Lemma split_nonempty (c : ascii) (s : string) : split c s <> [].
Proof.
  destruct s as [|a s]; simpl; [discriminate |].
  destruct (Ascii.eqb a c); [discriminate |].
  destruct (split c s); discriminate.
Qed.

Lemma split_free (c : ascii) (s : string) : contains c s = false -> split c s = [s].
Proof.
  induction s as [|a s IH]; simpl; [reflexivity |].
  intros [Ha Hs]%orb_false_iff. rewrite Ha, (IH Hs). reflexivity.
Qed.

Lemma split_last (c : ascii) (a b : string) :
  contains c b = false ->
  split c (a +:+ String c b) = (split c a ++ [b])%list.
Proof.
  intros Hb. induction a as [|x a IH]; simpl.
  - rewrite Ascii.eqb_refl. now rewrite (split_free _ _ Hb).
  - rewrite IH. destruct (Ascii.eqb x c); [reflexivity |].
    pose proof (split_nonempty c a) as Hne.
    destruct (split c a); [congruence | reflexivity].
Qed.

Lemma join_cons (sep piece : string) (others : list string) :
  others <> [] -> join sep (piece :: others) = piece +:+ sep +:+ join sep others.
Proof. destruct others; [congruence | reflexivity]. Qed.

Lemma join_split (c : ascii) (s : string) : join (str1 c) (split c s) = s.
Proof.
  induction s as [|x s IH]; [reflexivity |]. cbn [split].
  pose proof (split_nonempty c s) as Hne.
  destruct (Ascii.eqb_spec x c) as [->|Hx].
  - rewrite join_cons, IH by assumption. reflexivity.
  - destruct (split c s) as [|piece pieces] eqn:E; [congruence |].
    destruct pieces as [|piece' pieces].
    + simpl in *. now rewrite IH.
    + rewrite join_cons in IH by discriminate.
      rewrite join_cons by discriminate. now rewrite <- IH.
Qed.

Lemma contains_app (c : ascii) (a b : string) : contains c (a +:+ String c b) = true.
Proof.
  induction a as [|x a IH]; simpl.
  - now rewrite Ascii.eqb_refl.
  - rewrite IH. apply orb_true_r.
Qed.

Lemma assemble_resolved_url extract_npm_lockfile_hash yarn_version manifest_deps dep r :
  assemble extract_npm_lockfile_hash yarn_version manifest_deps dep = Some r ->
  FoundDependency.resolved_url r = remove_trailing_octothorpe (dep.2.2 !! "resolved").
Proof.
  destruct dep as [ln [sources fields]]. unfold assemble.
  destruct sources as [|[package constraint] others]; [discriminate |].
  destruct (fields !! "version") as [version|]; [| discriminate].
  intros H. injection H as <-. reflexivity.
Qed.

(** C6: a resolved value with a [#] is cut at its last [#], a value
    without one is kept, no value gives none, and the resolved URL of
    every record is its block's [resolved] field treated in this way. *)
Theorem C6_resolved_url_fragment
    (json_doc : Path -> option JSON)
    (extract_npm_lockfile_hash : option string -> gmap string (list string))
    (text : string) (manifest_path : option Path) :
  (forall a b, contains HASH b = false ->
     remove_trailing_octothorpe (Some (a +:+ String HASH b)) = Some a) /\
  (forall s, contains HASH s = false ->
     remove_trailing_octothorpe (Some s) = Some s) /\
  remove_trailing_octothorpe None = None /\
  (forall deps,
     Util.safe_path_parse text (parser_of (yarn_version_of text)) = Some deps ->
     Forall2 (fun r dep =>
                FoundDependency.resolved_url r =
                remove_trailing_octothorpe (dep.2.2 !! "resolved"))
       (parse_yarn json_doc extract_npm_lockfile_hash text manifest_path)
       (List.filter survives deps)).
Proof.
  repeat split.
  - intros a b Hb. unfold remove_trailing_octothorpe, all_but_last.
    rewrite contains_app, (split_last _ _ _ Hb), removelast_last, join_split.
    reflexivity.
  - intros s Hs. unfold remove_trailing_octothorpe. now rewrite Hs.
  - intros deps Hparse. rewrite (parse_yarn_omap _ _ _ _ _ Hparse).
    eapply Forall2_impl; [apply omap_assemble |].
    intros r dep Hr. eapply assemble_resolved_url, Hr.
Qed.

Lemma C6_witness :
  remove_trailing_octothorpe (Some ("https://host/pkg.tgz" +:+ String HASH "abcdef")) =
    Some "https://host/pkg.tgz" /\
  remove_trailing_octothorpe (Some ("a#b" +:+ String HASH "c")) = Some "a#b" /\
  remove_trailing_octothorpe (Some "https://host/pkg.tgz") = Some "https://host/pkg.tgz" /\
  Forall2 (fun r dep =>
             FoundDependency.resolved_url r =
             remove_trailing_octothorpe (dep.2.2 !! "resolved"))
    (parse_yarn no_manifest no_hashes three_blocks None)
    (List.filter survives (blocks_of three_blocks yarn1)).
Proof.
  destruct (C6_resolved_url_fragment no_manifest no_hashes three_blocks None)
    as (Hcut & Hkeep & _ & Hrecords).
  split; [apply Hcut; reflexivity |].
  split; [apply Hcut; reflexivity |].
  split; [apply Hkeep; reflexivity |].
  apply Hrecords. vm_compute. reflexivity.
Defined.

Example three_blocks_resolved :
  List.map FoundDependency.resolved_url
    (parse_yarn no_manifest no_hashes three_blocks None) =
  [Some "https://host/a.tgz"; None].
Proof. vm_compute. reflexivity. Qed.

(** ** The hashes of a version 2 block *)

Lemma assemble_checksum extract_npm_lockfile_hash manifest_deps dep r :
  assemble extract_npm_lockfile_hash 2 manifest_deps dep = Some r ->
  FoundDependency.allowed_hashes r =
  match dep.2.2 !! "checksum" with
  | Some (String a s as checksum) => {[ "sha512" := [checksum] ]}
  | Some EmptyString | None => ∅
  end.
Proof.
  destruct dep as [ln [sources fields]]. unfold assemble.
  destruct sources as [|[package constraint] others]; [discriminate |].
  destruct (fields !! "version") as [version|]; [| discriminate].
  intros H. injection H as <-. reflexivity.
Qed.

Lemma parse_yarn2_records json_doc extract_npm_lockfile_hash text manifest_path deps :
  startswith text YARN1_PREFIX = false ->
  Util.safe_path_parse text yarn2 = Some deps ->
  Forall2 (fun r dep =>
             assemble extract_npm_lockfile_hash 2
               (get_manifest_deps json_doc manifest_path) dep = Some r)
    (parse_yarn json_doc extract_npm_lockfile_hash text manifest_path)
    (List.filter survives deps).
Proof.
  intros Hv Hparse.
  assert (Hversion : yarn_version_of text = 2) by (unfold yarn_version_of; now rewrite Hv).
  rewrite (parse_yarn_omap _ _ _ _ deps); rewrite Hversion; [apply omap_assemble | exact Hparse].
Qed.

(** C9: in a version 2 lockfile, a record whose block has a non-empty
    [checksum] field has exactly the hashes [{"sha512": [checksum]}],
    with the value of the field as it is. *)
Theorem C9_checksum_verbatim
    (json_doc : Path -> option JSON)
    (extract_npm_lockfile_hash : option string -> gmap string (list string))
    (text : string) (manifest_path : option Path) (deps : list Block) :
  startswith text YARN1_PREFIX = false ->
  Util.safe_path_parse text yarn2 = Some deps ->
  Forall2 (fun r dep =>
             forall checksum,
               dep.2.2 !! "checksum" = Some checksum -> checksum <> EmptyString ->
               FoundDependency.allowed_hashes r = {[ "sha512" := [checksum] ]})
    (parse_yarn json_doc extract_npm_lockfile_hash text manifest_path)
    (List.filter survives deps).
Proof.
  intros Hv Hparse.
  eapply Forall2_impl; [apply (parse_yarn2_records _ _ _ _ _ Hv Hparse) |].
  intros r dep Hr checksum Hc Hne. rewrite (assemble_checksum _ _ _ _ Hr), Hc.
  destruct checksum; [congruence | reflexivity].
Qed.

Lemma C9_witness :
  Forall2 (fun r dep =>
             forall checksum,
               dep.2.2 !! "checksum" = Some checksum -> checksum <> EmptyString ->
               FoundDependency.allowed_hashes r = {[ "sha512" := [checksum] ]})
    (parse_yarn no_manifest no_hashes two_blocks2 None)
    (List.filter survives (blocks_of two_blocks2 yarn2)).
Proof.
  apply (C9_checksum_verbatim no_manifest no_hashes two_blocks2 None);
    vm_compute; reflexivity.
Defined.

Example two_blocks2_hashes :
  List.map (fun r => (FoundDependency.line_number r, FoundDependency.package r,
                      map_to_list (FoundDependency.allowed_hashes r)))
    (parse_yarn no_manifest no_hashes two_blocks2 None) =
  [(8, "a", [("sha512", ["2987dbeb"])]); (13, "b", [])].
Proof. vm_compute. reflexivity. Qed.

(** C10: in a version 2 lockfile, a record whose block has no [checksum]
    field, or an empty one, has no hashes at all (and not a [sha512]
    entry with an empty digest); a block with an empty checksum gives
    the record of the same block without the field. *)
Theorem C10_empty_checksum_no_hashes
    (json_doc : Path -> option JSON)
    (extract_npm_lockfile_hash : option string -> gmap string (list string))
    (text : string) (manifest_path : option Path) (deps : list Block) :
  startswith text YARN1_PREFIX = false ->
  Util.safe_path_parse text yarn2 = Some deps ->
  Forall2 (fun r dep =>
             dep.2.2 !! "checksum" = None \/ dep.2.2 !! "checksum" = Some EmptyString ->
             FoundDependency.allowed_hashes r = ∅ /\
             FoundDependency.allowed_hashes r <> {[ "sha512" := [EmptyString] ]})
    (parse_yarn json_doc extract_npm_lockfile_hash text manifest_path)
    (List.filter survives deps) /\
  (forall manifest_deps line_number sources (fields : gmap string string),
     fields !! "checksum" = None ->
     assemble extract_npm_lockfile_hash 2 manifest_deps
       (line_number, (sources, <["checksum" := EmptyString]> fields)) =
     assemble extract_npm_lockfile_hash 2 manifest_deps
       (line_number, (sources, fields))).
Proof.
  intros Hv Hparse. split.
  - eapply Forall2_impl; [apply (parse_yarn2_records _ _ _ _ _ Hv Hparse) |].
    intros r dep Hr Hc. rewrite (assemble_checksum _ _ _ _ Hr).
    assert (Hne : (∅ : gmap string (list string)) <> {[ "sha512" := [EmptyString] ]}).
    { intros Heq. apply (f_equal (fun m => m !! "sha512")) in Heq.
      rewrite lookup_empty, lookup_singleton_eq in Heq. discriminate. }
    destruct Hc as [-> | ->]; split; try reflexivity; exact Hne.
  - intros manifest_deps line_number sources fields Hnone. unfold assemble.
    destruct sources as [|[package constraint] others]; [reflexivity |].
    rewrite (lookup_insert_ne fields "checksum" "version") by discriminate.
    rewrite (lookup_insert_ne fields "checksum" "resolved") by discriminate.
    rewrite lookup_insert_eq, Hnone. reflexivity.
Qed.

Lemma C10_witness :
  Forall2 (fun r dep =>
             dep.2.2 !! "checksum" = None \/ dep.2.2 !! "checksum" = Some EmptyString ->
             FoundDependency.allowed_hashes r = ∅ /\
             FoundDependency.allowed_hashes r <> {[ "sha512" := [EmptyString] ]})
    (parse_yarn no_manifest no_hashes two_blocks2 None)
    (List.filter survives (blocks_of two_blocks2 yarn2)).
Proof.
  apply (C10_empty_checksum_no_hashes no_manifest no_hashes two_blocks2 None);
    vm_compute; reflexivity.
Defined.

(** ** The constraints of version 2 sources *)

Lemma source2_constraint text c src c' :
  at_text text c -> source2 c = Some (src, c') ->
  constraint_from text src /\ at_text text c'.
Proof.
  intros Hc H. split; [| exact (at_text_step _ _ _ _ _ consumes_source2 Hc H)].
  destruct src as [name constraint]. unfold source2 in H.
  apply pair_Some in H as (c1 & Hname & H).
  apply map_Some in H as (raw & Hraw & ->).
  exists c1, raw, c'. split; [| split; [assumption | reflexivity]].
  eapply at_text_step; [| exact Hc | exact Hname]. auto 10 with consumes.
Qed.

Lemma multi_source2_constraints text c srcs c' :
  at_text text c -> multi_source2 c = Some (srcs, c') ->
  Forall (constraint_from text) srcs /\ at_text text c'.
Proof.
  intros Hc H. split; [| exact (at_text_step _ _ _ _ _ consumes_multi_source2 Hc H)].
  unfold multi_source2, Util.quoted in H.
  apply skip_Some in H as (w & c2 & H & _).
  apply then_Some in H as (q & c1 & Hq & H).
  assert (Hc1 : at_text text c1).
  { eapply at_text_step; [apply consumes_string | exact Hc | exact Hq]. }
  refine (proj1 (sep_by_invariant _ _ (at_text text) (constraint_from text) _ _ c1 srcs c2 Hc1 H)).
  - intros c0 v c3 H0 H1. exact (source2_constraint text c0 v c3 H0 H1).
  - intros c0 v c3 H0 H1. eapply at_text_step; [apply consumes_string | exact H0 | exact H1].
Qed.

Lemma yarn_dep2_constraints text c dep c' :
  at_text text c -> yarn_dep2 c = Some (dep, c') ->
  Forall (constraint_from text) dep.2.1 /\ at_text text c'.
Proof.
  intros Hc H. split.
  - unfold yarn_dep2, Util.mark_line in H.
    apply bind_Some in H as (ln & c0 & Hln & H). injection Hln as <- <-.
    apply bind_Some in H as ([srcs fields] & c1 & Hblock & H). injection H as <- <-.
    unfold yarn_block2 in Hblock. apply pair_Some in Hblock as (c2 & Hheader & _).
    apply skip_Some in Hheader as (w & c3 & Hsrcs & _).
    exact (proj1 (multi_source2_constraints text c srcs c3 Hc Hsrcs)).
  - eapply at_text_step; [| exact Hc | exact H].
    unfold yarn_dep2. pose proof consumes_yarn_block2. auto with consumes.
Qed.

Lemma yarn2_constraints text deps :
  Util.safe_path_parse text yarn2 = Some deps ->
  Forall (fun dep : Block => Forall (constraint_from text) dep.2.1) deps.
Proof.
  intros H. apply parse_Some in H as (c' & H & _). unfold yarn2 in H.
  apply skip_Some in H as (w & c4 & H & _).
  apply then_Some in H as (v3 & c3 & H & Hdeps).
  apply then_Some in H as (v2 & c2 & H & Hnl).
  apply then_Some in H as (v1 & c1 & Hprefix & Hmeta).
  assert (Hc3 : at_text text c3).
  { eapply optional_newline_at; [| exact Hnl].
    eapply at_text_step; [| | exact Hmeta].
    - pose proof consumes_metadata. auto with consumes.
    - eapply at_text_step; [apply consumes_string | apply at_text_start | exact Hprefix]. }
  refine (proj1 (sep_by_invariant _ _ (at_text text)
                   (fun dep : Block => Forall (constraint_from text) dep.2.1)
                   _ _ c3 deps c4 Hc3 Hdeps)).
  - intros c0 v c5 H0 H1. exact (yarn_dep2_constraints text c0 v c5 H0 H1).
  - intros c0 v c5 H0 H1. eapply at_text_step; [apply consumes_string | exact H0 | exact H1].
Qed.

(** C5: [remove_npm_prefix] removes the four characters of a leading
    [npm:] and keeps every string that starts otherwise, so also those
    that start with [file:], [patch:] or [https:]; the constraint of a
    version 2 source is [remove_npm_prefix] of the text scanned after the
    name, and so is every constraint in the blocks of a version 2
    lockfile. *)
Theorem C5_npm_prefix_removed :
  (forall s, remove_npm_prefix ("npm:" +:+ s) = s) /\
  (forall s, startswith s "npm:" = false -> remove_npm_prefix s = s) /\
  (forall s, remove_npm_prefix ("file:" +:+ s) = "file:" +:+ s /\
             remove_npm_prefix ("patch:" +:+ s) = "patch:" +:+ s /\
             remove_npm_prefix ("https:" +:+ s) = "https:" +:+ s) /\
  (forall c name constraint c',
     source2 c = Some ((name, constraint), c') ->
     exists c1 raw,
       name_part c = Some (name, c1) /\
       Util.upto [DQUOTE; COMMA] false c1 = Some (raw, c') /\
       constraint = remove_npm_prefix raw) /\
  (forall text deps,
     Util.safe_path_parse text yarn2 = Some deps ->
     Forall (fun dep : Block => Forall (constraint_from text) dep.2.1) deps).
Proof.
  split; [reflexivity |].
  split; [intros s H; unfold remove_npm_prefix; now rewrite H |].
  split; [intros s; repeat split; reflexivity |].
  split; [| apply yarn2_constraints].
  intros c name constraint c' H. unfold source2 in H.
  apply pair_Some in H as (c1 & Hname & H).
  apply map_Some in H as (raw & Hraw & ->).
  exists c1, raw. repeat split; assumption.
Qed.

Example tagged_sources_parsed :
  header2 {| line := 0; rest := tagged_sources |} =
  Some ([("a", "^2.0.0"); ("b", "file:../b"); ("c", "patch:c@^1.1.7#~builtin");
         ("d", "https://host/d.git")],
        {| line := 1; rest := EmptyString |}).
Proof. vm_compute. reflexivity. Qed.

Lemma C5_witness :
  remove_npm_prefix "^2.0.0" = "^2.0.0" /\
  (exists c1 raw,
     name_part {| line := 0; rest := "a@npm:^2.0.0" |} = Some ("a", c1) /\
     Util.upto [DQUOTE; COMMA] false c1 =
       Some (raw, {| line := 0; rest := EmptyString |}) /\
     "^2.0.0" = remove_npm_prefix raw) /\
  Forall (fun dep : Block => Forall (constraint_from two_blocks2) dep.2.1)
    (blocks_of two_blocks2 yarn2).
Proof.
  destruct C5_npm_prefix_removed as (_ & Hkeep & _ & Hsource & Hdoc).
  split; [apply Hkeep; reflexivity |].
  split; [apply Hsource; vm_compute; reflexivity |].
  apply Hdoc. vm_compute. reflexivity.
Defined.

(** ** Running the parsers on a line *)

Lemma bind_eq {A B} (p : Parser A) (f : A -> Parser B) c v c' :
  p c = Some (v, c') -> Parsy.bind p f c = f v c'.
Proof. intros H. unfold Parsy.bind. now rewrite H. Qed.

Lemma then_eq {A B} (p : Parser A) (q : Parser B) c v c' :
  p c = Some (v, c') -> Parsy.then_ p q c = q c'.
Proof. intros H. unfold Parsy.then_. now rewrite (bind_eq _ _ _ _ _ H). Qed.

Lemma lacks_free_of (stops : list ascii) (s : string) :
  lacks stops s = true -> free_of stops s.
Proof.
  unfold lacks, free_of, char_in. intros H a Ha.
  apply existsb_exists in Ha as (b & Hb & Hab). apply Ascii.eqb_eq in Hab as ->.
  rewrite forallb_forall in H. specialize (H b Hb). now apply negb_true_iff in H.
Qed.

Lemma free_of_same (stops stops' : list ascii) (s : string) :
  (forall a, char_in stops' a = true -> char_in stops a = true) ->
  free_of stops s -> free_of stops' s.
Proof. intros Hsub H a Ha. apply H, Hsub, Ha. Qed.

Lemma contains_count_nl (s : string) : contains LF s = false -> count_nl s = 0.
Proof.
  induction s as [|a s IH]; simpl; [reflexivity |].
  intros [-> Hs]%orb_false_iff. now rewrite (IH Hs).
Qed.

Lemma free_of_count_nl (stops : list ascii) (s : string) :
  char_in stops LF = true -> free_of stops s -> count_nl s = 0.
Proof. intros HLF H. apply contains_count_nl, H, HLF. Qed.

Lemma line_ends_stops (stops : list ascii) (tail : string) :
  char_in stops LF = true -> line_ends tail = true -> stops_at stops tail.
Proof.
  intros HLF H. destruct tail as [|a tail]; simpl in *; [exact I |].
  now apply Ascii.eqb_eq in H as ->.
Qed.

Lemma string_run (lit r : string) (ln : nat) :
  Parsy.string lit {| line := ln; rest := lit +:+ r |} =
  Some (lit, {| line := ln + count_nl lit; rest := r |}).
Proof. unfold Parsy.string. simpl. now rewrite strip_prefix_app. Qed.

Lemma not_any_run (stops : list ascii) (tok r : string) (ln : nat) :
  nonempty tok = true -> char_in stops LF = true ->
  free_of stops tok -> stops_at stops r ->
  Util.not_any stops {| line := ln; rest := tok +:+ r |} =
  Some (tok, {| line := ln; rest := r |}).
Proof.
  intros Hne HLF Hfree Hstop. unfold Util.not_any. simpl.
  rewrite (span_token _ _ _ Hfree Hstop).
  destruct tok as [|a tok]; [discriminate |].
  unfold advance. simpl line. rewrite (free_of_count_nl _ _ HLF Hfree).
  now rewrite Nat.add_0_r.
Qed.

Lemma length_spaces (n : nat) (body : string) :
  n <= String.length (spaces n +:+ body).
Proof. induction n as [|n IH]; simpl; lia. Qed.

Lemma many_loop_spaces (n : nat) :
  forall fuel ln body,
    n < fuel -> starts_with_space body = false ->
    Parsy.many_loop fuel (Parsy.string " ") {| line := ln; rest := spaces n +:+ body |} =
    Some (repeat " " n, {| line := ln; rest := body |}).
Proof.
  induction n as [|n IH]; intros fuel ln body Hfuel Hbody;
    (destruct fuel as [|fuel]; [lia |]); cbn [Parsy.many_loop].
  - unfold Parsy.string. cbn [rest].
    destruct body as [|a body]; [reflexivity |].
    cbn [starts_with_space] in Hbody. cbn [spaces String.append strip_prefix].
    rewrite Ascii.eqb_sym in Hbody. unfold SPACE in Hbody. now rewrite Hbody.
  - change (spaces (S n) +:+ body) with (" " +:+ (spaces n +:+ body)).
    rewrite string_run. simpl count_nl. rewrite Nat.add_0_r.
    rewrite IH by (lia || assumption). reflexivity.
Qed.

Lemma many_spaces (n ln : nat) (body : string) :
  starts_with_space body = false ->
  Parsy.many (Parsy.string " ") {| line := ln; rest := spaces n +:+ body |} =
  Some (repeat " " n, {| line := ln; rest := body |}).
Proof.
  intros Hbody. unfold Parsy.many. apply many_loop_spaces; [| assumption].
  simpl rest. pose proof (length_spaces n body). lia.
Qed.

Lemma starts_with_space_app (s r : string) :
  nonempty s = true -> starts_with_space (s +:+ r) = starts_with_space s.
Proof. destruct s; [discriminate | reflexivity]. Qed.

Lemma lacks_space_start (stops : list ascii) (s : string) :
  char_in stops SPACE = true -> free_of stops s -> starts_with_space s = false.
Proof.
  intros Hsp Hfree. destruct s as [|a s]; [reflexivity |].
  specialize (Hfree SPACE Hsp). cbn [contains] in Hfree.
  apply orb_false_iff in Hfree as [Ha _]. exact Ha.
Qed.

Lemma consume_line_run {A} (body tail : string) (ln : nat) :
  nonempty body = true -> lacks [LF] body = true -> line_ends tail = true ->
  @Util.consume_line A {| line := ln; rest := body +:+ tail |} =
  Some (None, {| line := ln; rest := tail |}).
Proof.
  intros Hne Hbody Htail. unfold Util.consume_line, Parsy.map.
  rewrite (bind_eq _ _ _ body {| line := ln; rest := tail |}); [reflexivity |].
  apply not_any_run; [assumption | reflexivity | now apply lacks_free_of |].
  now apply line_ends_stops.
Qed.

Lemma value_run (value tail : string) (ln : nat) :
  nonempty value = true -> lacks [LF] value = true -> line_ends tail = true ->
  Util.upto [LF] false {| line := ln; rest := value +:+ tail |} =
  Some (value, {| line := ln; rest := tail |}).
Proof.
  intros Hne Hvalue Htail. unfold Util.upto.
  apply not_any_run; [assumption | reflexivity | |].
  - apply (free_of_same [LF]); [| now apply lacks_free_of].
    intros a. unfold char_in. simpl. now destruct (Ascii.eqb a LF).
  - now apply line_ends_stops.
Qed.

Lemma indented_line (kv : list string -> Parser (option (string * string)))
    (n ln : nat) (body tail : string) :
  n <> 2 -> (forall spaces, List.length spaces <> 2 -> kv spaces = Util.consume_line) ->
  nonempty body = true -> starts_with_space body = false ->
  lacks [LF] body = true -> line_ends tail = true ->
  Parsy.bind (Parsy.many (Parsy.string " ")) kv
    {| line := ln; rest := spaces n +:+ body +:+ tail |} =
  Some (None, {| line := ln; rest := tail |}).
Proof.
  intros Hn Hkv Hne Hstart Hbody Htail.
  rewrite (bind_eq _ _ _ (repeat " " n) {| line := ln; rest := body +:+ tail |}).
  - rewrite Hkv by now rewrite repeat_length. now apply consume_line_run.
  - apply many_spaces. now rewrite starts_with_space_app.
Qed.

(** [strip] removes every quote in front and at the end. *)

Lemma lstrip_quotes (n : nat) (s : string) :
  lstrip DQUOTE (quotes n +:+ s) = lstrip DQUOTE s.
Proof.
  induction n as [|n IH]; [reflexivity |].
  cbn [quotes String.append lstrip]. now rewrite Ascii.eqb_refl.
Qed.

Lemma lstrip_keeps (s : string) :
  starts_with_quote s = false -> lstrip DQUOTE s = s.
Proof.
  destruct s as [|a s]; [reflexivity |]. cbn [starts_with_quote lstrip].
  now intros ->.
Qed.

Lemma rstrip_quotes (n : nat) : rstrip DQUOTE (quotes n) = EmptyString.
Proof.
  induction n as [|n IH]; [reflexivity |].
  cbn [quotes rstrip]. rewrite IH. now rewrite Ascii.eqb_refl.
Qed.

Lemma rstrip_keeps (s : string) (n : nat) :
  ends_with_quote s = false -> rstrip DQUOTE (s +:+ quotes n) = s.
Proof.
  induction s as [|a s IH]; intros Hs.
  - apply rstrip_quotes.
  - cbn [String.append rstrip]. destruct s as [|b s].
    + cbn [ends_with_quote] in Hs. cbn [String.append].
      now rewrite rstrip_quotes, Hs.
    + rewrite IH by exact Hs. reflexivity.
Qed.

Lemma strip_quotes (i j : nat) (inner : string) :
  starts_with_quote inner = false -> ends_with_quote inner = false ->
  strip DQUOTE (quotes i +:+ inner +:+ quotes j) = inner.
Proof.
  intros Hstart Hend. unfold strip. rewrite lstrip_quotes.
  destruct inner as [|a inner].
  - cbn [String.append].
    assert (lstrip DQUOTE (quotes j) = EmptyString) as ->; [| reflexivity].
    rewrite <- (string_app_nil_r (quotes j)). now rewrite lstrip_quotes.
  - rewrite lstrip_keeps by exact Hstart. now apply rstrip_keeps.
Qed.

(** C7, as the code has it: on a line of two spaces, a key, the
    separator of the dialect and a value, the field grammar gives the
    key as it is written and the value without its leading and trailing
    double quotes, however many there are; on a line with another
    indentation that has text after the spaces, it consumes the text up
    to the end of the line and gives no field. *)
Theorem C7_field_lines :
  (forall ln key value tail,
     nonempty key = true -> lacks [SPACE; COLON; LF] key = true ->
     nonempty value = true -> lacks [LF] value = true -> line_ends tail = true ->
     key_value1 {| line := ln; rest := "  " +:+ key +:+ " " +:+ value +:+ tail |} =
     Some (Some (key, strip DQUOTE value), {| line := ln; rest := tail |})) /\
  (forall ln key value tail,
     nonempty key = true -> starts_with_space key = false ->
     lacks [COLON; LF] key = true ->
     nonempty value = true -> lacks [LF] value = true -> line_ends tail = true ->
     key_value2 {| line := ln; rest := "  " +:+ key +:+ ": " +:+ value +:+ tail |} =
     Some (Some (key, strip DQUOTE value), {| line := ln; rest := tail |})) /\
  (forall ln n body tail,
     n <> 2 -> nonempty body = true -> starts_with_space body = false ->
     lacks [LF] body = true -> line_ends tail = true ->
     key_value1 {| line := ln; rest := spaces n +:+ body +:+ tail |} =
       Some (None, {| line := ln; rest := tail |}) /\
     key_value2 {| line := ln; rest := spaces n +:+ body +:+ tail |} =
       Some (None, {| line := ln; rest := tail |})) /\
  (forall i j inner,
     starts_with_quote inner = false -> ends_with_quote inner = false ->
     strip DQUOTE (quotes i +:+ inner +:+ quotes j) = inner).
Proof.
  split; [| split; [| split; [| apply strip_quotes]]].
  - intros ln key value tail Hkey Hk Hvalue Hv Htail. unfold key_value1.
    apply lacks_free_of in Hk.
    rewrite (bind_eq _ _ _ (repeat " " 2)
               {| line := ln; rest := key +:+ " " +:+ value +:+ tail |}).
    2:{ apply (many_spaces 2). rewrite starts_with_space_app by assumption.
        now apply (lacks_space_start [SPACE; COLON; LF]). }
    cbn [repeat List.length Nat.eqb negb].
    rewrite (bind_eq _ _ _ key {| line := ln; rest := " " +:+ value +:+ tail |}).
    2:{ unfold Util.upto. apply not_any_run; [assumption | reflexivity | assumption |].
        reflexivity. }
    rewrite (bind_eq _ _ _ " " {| line := ln; rest := " " +:+ value +:+ tail |})
      by reflexivity.
    change (String.eqb " " ":") with false. cbv iota.
    rewrite (then_eq _ _ _ " " {| line := ln; rest := value +:+ tail |}).
    2:{ rewrite string_run. simpl count_nl. now rewrite Nat.add_0_r. }
    now rewrite (bind_eq _ _ _ value {| line := ln; rest := tail |})
      by now apply value_run.
  - intros ln key value tail Hkey Hstart Hk Hvalue Hv Htail. unfold key_value2.
    apply lacks_free_of in Hk.
    rewrite (bind_eq _ _ _ (repeat " " 2)
               {| line := ln; rest := key +:+ ": " +:+ value +:+ tail |}).
    2:{ apply (many_spaces 2). now rewrite starts_with_space_app. }
    cbn [repeat List.length Nat.eqb negb].
    rewrite (bind_eq _ _ _ key {| line := ln; rest := ": " +:+ value +:+ tail |}).
    2:{ unfold Util.upto. apply not_any_run; [assumption | reflexivity | assumption |].
        reflexivity. }
    rewrite (then_eq _ _ _ ":" {| line := ln; rest := " " +:+ value +:+ tail |}).
    2:{ change (": " +:+ value +:+ tail) with (":" +:+ " " +:+ value +:+ tail).
        rewrite string_run. simpl count_nl. now rewrite Nat.add_0_r. }
    rewrite (bind_eq _ _ _ " " {| line := ln; rest := " " +:+ value +:+ tail |})
      by reflexivity.
    change (String.eqb " " NEWLINE) with false. cbv iota.
    rewrite (then_eq _ _ _ " " {| line := ln; rest := value +:+ tail |}).
    2:{ rewrite string_run. simpl count_nl. now rewrite Nat.add_0_r. }
    now rewrite (bind_eq _ _ _ value {| line := ln; rest := tail |})
      by now apply value_run.
  - intros ln n body tail Hn Hne Hstart Hbody Htail. split.
    + unfold key_value1. apply indented_line; try assumption.
      intros sp Hsp. apply Nat.eqb_neq in Hsp. now rewrite Hsp.
    + unfold key_value2. apply indented_line; try assumption.
      intros sp Hsp. apply Nat.eqb_neq in Hsp. now rewrite Hsp.
Qed.

Lemma C7_witness :
  key_value1 {| line := 5;
                rest := "  " +:+ "version" +:+ " " +:+
                        (QUOTE +:+ "2.1.1" +:+ QUOTE) +:+ (NEWLINE +:+ "  resolved x") |} =
    Some (Some ("version", strip DQUOTE (QUOTE +:+ "2.1.1" +:+ QUOTE)),
          {| line := 5; rest := NEWLINE +:+ "  resolved x" |}) /\
  key_value2 {| line := 5;
                rest := "  " +:+ "version" +:+ ": " +:+ "7.18.10" +:+ EmptyString |} =
    Some (Some ("version", strip DQUOTE "7.18.10"),
          {| line := 5; rest := EmptyString |}) /\
  key_value1 {| line := 7; rest := spaces 4 +:+ "a ^1.0.0" +:+ NEWLINE |} =
    Some (None, {| line := 7; rest := NEWLINE |}) /\
  key_value2 {| line := 7; rest := spaces 4 +:+ "a ^1.0.0" +:+ NEWLINE |} =
    Some (None, {| line := 7; rest := NEWLINE |}).
Proof.
  destruct C7_field_lines as (Hfield1 & Hfield2 & Hother & _).
  split; [apply Hfield1; reflexivity |].
  split; [apply Hfield2; reflexivity |].
  apply Hother; try reflexivity. lia.
Defined.

(** Stripping "one layer of surrounding quotes from both" is not what
    happens to a quoted key, which is kept with its quotes, nor to a
    value in two layers of quotes, which loses both. *)
Lemma C7_counterexample :
  key_value1 {| line := 0; rest := quoted_field |} =
    Some (Some (QUOTE +:+ "k" +:+ QUOTE, "v"), {| line := 0; rest := EmptyString |}) /\
  key_value2 {| line := 0; rest := quoted_field2 |} =
    Some (Some (QUOTE +:+ "k" +:+ QUOTE, "v"), {| line := 0; rest := EmptyString |}) /\
  QUOTE +:+ "k" +:+ QUOTE <> strip_one_layer (QUOTE +:+ "k" +:+ QUOTE) /\
  "v" <> strip_one_layer (QUOTE +:+ QUOTE +:+ "v" +:+ QUOTE +:+ QUOTE).
Proof. vm_compute. repeat split; discriminate. Qed.

(** ** Headers without a source *)

Lemma sep_by_none {A B} (p : Parser A) (sep : Parser B) c :
  p c = None -> Parsy.sep_by p sep c = Some ([], c).
Proof. intros H. unfold Parsy.sep_by, Parsy.alt, Parsy.bind. now rewrite H. Qed.

(** C8, as the code has it: a header in which no source is found is not
    a failure by itself.  In version 1 the header is then the bare
    terminator, and in version 2 the closing quote and the terminator
    after the opening quote: the header parser succeeds exactly when
    these follow, with an empty source list, and [parse_yarn] makes no
    record of a block without a source. *)
Theorem C8_header_without_source :
  (forall c,
     Parsy.alt (Util.quoted (source1 true)) (source1 false) c = None ->
     header1 c = Parsy.map (Parsy.string (":" +:+ NEWLINE)) (fun _ => []) c) /\
  (forall c c1,
     Parsy.string QUOTE c = Some (QUOTE, c1) -> source2 c1 = None ->
     header2 c =
     Parsy.map (Parsy.then_ (Parsy.string QUOTE) (Parsy.string (":" +:+ NEWLINE)))
               (fun _ => []) c1) /\
  (forall (extract_npm_lockfile_hash : option string -> gmap string (list string))
          yarn_version manifest_deps line_number fields,
     assemble extract_npm_lockfile_hash yarn_version manifest_deps
       (line_number, ([], fields)) = None).
Proof.
  split; [| split].
  - intros c H. unfold header1, multi_source1, Parsy.skip, Parsy.map.
    rewrite (bind_eq _ _ _ [] c) by now apply sep_by_none.
    unfold Parsy.bind. now destruct (Parsy.string _ c) as [[v c']|].
  - intros c c1 Hq H. unfold QUOTE in *.
    unfold header2, multi_source2, Util.quoted, Parsy.skip, Parsy.map, Parsy.then_,
      Parsy.bind.
    rewrite Hq, (sep_by_none _ _ _ H).
    destruct (Parsy.string (str1 DQUOTE) c1) as [[v c2]|]; [| reflexivity].
    unfold Parsy.success. cbv beta iota.
    now destruct (Parsy.string _ c2) as [[w c3]|].
  - reflexivity.
Qed.

Lemma C8_witness :
  header1 {| line := 3; rest := ":" +:+ NEWLINE |} =
    Parsy.map (Parsy.string (":" +:+ NEWLINE)) (fun _ => [])
      {| line := 3; rest := ":" +:+ NEWLINE |} /\
  header2 {| line := 2; rest := QUOTE +:+ QUOTE +:+ ":" +:+ NEWLINE |} =
    Parsy.map (Parsy.then_ (Parsy.string QUOTE) (Parsy.string (":" +:+ NEWLINE)))
      (fun _ => []) {| line := 2; rest := QUOTE +:+ ":" +:+ NEWLINE |} /\
  parse_yarn no_manifest no_hashes empty_header1 None = [] /\
  parse_yarn no_manifest no_hashes empty_header2 None = [].
Proof.
  destruct C8_header_without_source as (Hheader1 & Hheader2 & _).
  split; [apply Hheader1; vm_compute; reflexivity |].
  split; [apply Hheader2; vm_compute; reflexivity |].
  split; vm_compute; reflexivity.
Defined.

(** On a header that is only the terminator, the header parser and the
    document grammar succeed, with a block that has no source. *)
Lemma C8_counterexample :
  header1 {| line := 0; rest := ":" +:+ NEWLINE |} =
    Some ([], {| line := 1; rest := EmptyString |}) /\
  header2 {| line := 0; rest := QUOTE +:+ QUOTE +:+ ":" +:+ NEWLINE |} =
    Some ([], {| line := 1; rest := EmptyString |}) /\
  Util.safe_path_parse empty_header1 yarn1 = Some [(4, ([], ∅))] /\
  Util.safe_path_parse empty_header2 yarn2 = Some [(3, ([], ∅))].
Proof. vm_compute. repeat split; reflexivity. Qed.

(** * Further properties of the parsers *)

(** ** The field map of a block *)

Lemma fields_of_snoc (xs : list (option (string * string))) (x : option (string * string)) :
  fields_of (xs ++ [x]) =
  match x with
  | Some (k, v) => <[k:=v]> (fields_of xs)
  | None => fields_of xs
  end.
Proof. unfold fields_of. rewrite fold_left_app. reflexivity. Qed.

(** X1: in the field map of a block a key has the value of the last
    field line with that key, lines that give no field count for
    nothing, and a key is missing exactly when no line has it. *)
Theorem X1_fields_of_last_wins (xs : list (option (string * string))) (k : string) :
  (forall v,
     fields_of xs !! k = Some v <->
     exists before after,
       xs = (before ++ Some (k, v) :: after)%list /\
       forall v', ~ In (Some (k, v')) after) /\
  (fields_of xs !! k = None <-> forall v, ~ In (Some (k, v)) xs).
Proof.
  induction xs as [|x xs IH] using rev_ind.
  - split.
    + intros v. split.
      * unfold fields_of. simpl. rewrite lookup_empty. discriminate.
      * intros (before & after & H & _). now destruct before.
    + split; [intros _ v []| intros _; apply lookup_empty].
  - destruct IH as [IHsome IHnone]. rewrite fields_of_snoc.
    assert (Hlast : forall v,
      (exists before after, (xs ++ [x])%list = (before ++ Some (k, v) :: after)%list /\
                            forall v', ~ In (Some (k, v')) after) <->
      x = Some (k, v) \/
      ((forall v', x <> Some (k, v')) /\
       exists before after, xs = (before ++ Some (k, v) :: after)%list /\
                            forall v', ~ In (Some (k, v')) after)).
    { intros v. split.
      - intros (before & after & H & Hafter).
        destruct after as [|y after _] using rev_ind.
        + apply app_inj_tail in H as [_ ->]. now left.
        + rewrite app_comm_cons, app_assoc in H. apply app_inj_tail in H as [-> ->].
          right. split.
          * intros v' ->. apply (Hafter v'). apply in_or_app. right. now left.
          * exists before, after. split; [reflexivity |].
            intros v' Hin. apply (Hafter v'). apply in_or_app. now left.
      - intros [-> | (Hx & before & after & -> & Hafter)].
        + exists xs, []. split; [reflexivity | intros v' []].
        + exists before, (after ++ [x])%list. split.
          * now rewrite <- app_assoc.
          * intros v' [Hin | [Hin | []]]%in_app_or; [now apply (Hafter v') |].
            now apply (Hx v'). }
    split.
    + intros v. rewrite Hlast. destruct x as [[k' v']|].
      * destruct (decide (k' = k)) as [-> | Hne].
        -- rewrite lookup_insert_eq. split.
           ++ intros [= ->]. now left.
           ++ intros [[= ->] | [Hx _]]; [reflexivity |]. now destruct (Hx v').
        -- rewrite lookup_insert_ne by assumption. rewrite IHsome. split.
           ++ intros H. right. split; [| assumption]. intros v'' [= -> _]. congruence.
           ++ intros [[= -> _] | [_ H]]; [congruence | assumption].
      * rewrite IHsome. split.
        -- intros H. right. split; [discriminate | assumption].
        -- intros [H | [_ H]]; [discriminate | assumption].
    + destruct x as [[k' v']|].
      * destruct (decide (k' = k)) as [-> | Hne].
        -- rewrite lookup_insert_eq. split; [discriminate |].
           intros H. destruct (H v'). apply in_or_app. right. now left.
        -- rewrite lookup_insert_ne by assumption. rewrite IHnone. split.
           ++ intros H v [Hin | [[= -> _] | []]]%in_app_or; [now apply (H v) | congruence].
           ++ intros H v Hin. apply (H v). apply in_or_app. now left.
      * rewrite IHnone. split.
        -- intros H v [Hin | [[=] | []]]%in_app_or. now apply (H v).
        -- intros H v Hin. apply (H v). apply in_or_app. now left.
Qed.

(** ** Banners *)

Lemma yarn1_banner text deps :
  Util.safe_path_parse text yarn1 = Some deps -> startswith text YARN1_PREFIX = true.
Proof.
  intros H. apply parse_Some in H as (c' & H & _). unfold yarn1 in H.
  apply skip_Some in H as (w & c3 & H & _).
  apply then_Some in H as (v2 & c2 & H & _).
  apply then_Some in H as (v1 & c1 & Hprefix & _).
  now apply string_Some in Hprefix as [Hprefix _].
Qed.

Lemma yarn2_banner text deps :
  Util.safe_path_parse text yarn2 = Some deps -> startswith text YARN2_PREFIX = true.
Proof.
  intros H. apply parse_Some in H as (c' & H & _). unfold yarn2 in H.
  apply skip_Some in H as (w & c4 & H & _).
  apply then_Some in H as (v3 & c3 & H & _).
  apply then_Some in H as (v2 & c2 & H & _).
  apply then_Some in H as (v1 & c1 & Hprefix & _).
  now apply string_Some in Hprefix as [Hprefix _].
Qed.

(** X2: a text that starts with neither banner gives no record,
    whatever follows. *)
Theorem X2_no_banner_no_records
    (json_doc : Path -> option JSON)
    (extract_npm_lockfile_hash : option string -> gmap string (list string))
    (text : string) (manifest_path : option Path) :
  startswith text YARN1_PREFIX = false ->
  startswith text YARN2_PREFIX = false ->
  parse_yarn json_doc extract_npm_lockfile_hash text manifest_path = [].
Proof.
  intros H1 H2. unfold parse_yarn, yarn_version_of, parser_of. rewrite H1. simpl.
  destruct (Util.safe_path_parse text yarn2) as [deps|] eqn:E; [| reflexivity].
  apply yarn2_banner in E. congruence.
Qed.

Lemma X2_witness :
  parse_yarn no_manifest no_hashes "lockfileVersion: 1" None = [].
Proof.
  apply (X2_no_banner_no_records no_manifest no_hashes "lockfileVersion: 1" None);
    reflexivity.
Defined.

Lemma banners_differ (text : string) :
  startswith text YARN1_PREFIX = true -> startswith text YARN2_PREFIX = false.
Proof. intros (r & ->)%startswith_iff. reflexivity. Qed.

(** X3: a text that one of the two grammars accepts is dispatched to
    that grammar, and the other grammar rejects it. *)
Theorem X3_grammars_exclusive (text : string) (deps : list Block) :
  (Util.safe_path_parse text yarn1 = Some deps ->
   yarn_version_of text = 1 /\ Util.safe_path_parse text yarn2 = None) /\
  (Util.safe_path_parse text yarn2 = Some deps ->
   yarn_version_of text = 2 /\ Util.safe_path_parse text yarn1 = None).
Proof.
  split; intros H.
  - apply yarn1_banner in H. split; [unfold yarn_version_of; now rewrite H |].
    destruct (Util.safe_path_parse text yarn2) as [deps2|] eqn:E; [| reflexivity].
    apply yarn2_banner in E. apply banners_differ in H. congruence.
  - apply yarn2_banner in H.
    assert (H1 : startswith text YARN1_PREFIX = false).
    { destruct (startswith text YARN1_PREFIX) eqn:E; [| reflexivity].
      apply banners_differ in E. congruence. }
    split; [unfold yarn_version_of; now rewrite H1 |].
    destruct (Util.safe_path_parse text yarn1) as [deps1|] eqn:E; [| reflexivity].
    apply yarn1_banner in E. congruence.
Qed.

Lemma X3_witness :
  (yarn_version_of three_blocks = 1 /\ Util.safe_path_parse three_blocks yarn2 = None) /\
  (yarn_version_of two_blocks2 = 2 /\ Util.safe_path_parse two_blocks2 yarn1 = None).
Proof.
  split.
  - apply (X3_grammars_exclusive three_blocks (blocks_of three_blocks yarn1)).
    vm_compute. reflexivity.
  - apply (X3_grammars_exclusive two_blocks2 (blocks_of two_blocks2 yarn2)).
    vm_compute. reflexivity.
Defined.

(** ** Line numbers *)

(** X4: the line numbers of the records of a lockfile increase strictly
    from one record to the next, and none is a line of the banner: they
    are at least 4 in a version 1 lockfile and at least 3 in a version 2
    lockfile. *)
Theorem X4_line_numbers_increase
    (json_doc : Path -> option JSON)
    (extract_npm_lockfile_hash : option string -> gmap string (list string))
    (text : string) (manifest_path : option Path) :
  StronglySorted lt
    (List.map FoundDependency.line_number
       (parse_yarn json_doc extract_npm_lockfile_hash text manifest_path)) /\
  Forall (fun r => (if Nat.eqb (yarn_version_of text) 1 then 4 else 3)
                   <= FoundDependency.line_number r)
    (parse_yarn json_doc extract_npm_lockfile_hash text manifest_path).
Proof.
  destruct (Util.safe_path_parse text (parser_of (yarn_version_of text)))
    as [deps|] eqn:E.
  - rewrite (parse_yarn_omap _ _ _ _ _ E).
    destruct (yarn_marks _ _ E) as [Hsorted Hlow].
    pose proof (omap_assemble extract_npm_lockfile_hash (yarn_version_of text)
                  (get_manifest_deps json_doc manifest_path) deps) as Hrecords.
    assert (Hmap : List.map FoundDependency.line_number
                     (omap (assemble extract_npm_lockfile_hash (yarn_version_of text)
                              (get_manifest_deps json_doc manifest_path)) deps) =
                   List.map fst (List.filter survives deps)).
    { induction Hrecords as [|r dep rs ds Hr _ IH]; [reflexivity |].
      cbn [List.map]. rewrite IH. f_equal.
      apply assemble_record in Hr. destruct dep as [ln [sources fields]].
      now destruct Hr as [-> _]. }
    split.
    + rewrite Hmap. now apply sorted_filter.
    + apply Forall_forall. intros r Hr.
      apply list_elem_of_In, (in_map FoundDependency.line_number) in Hr.
      rewrite Hmap in Hr. apply in_map_iff in Hr as (d & <- & Hd).
      apply filter_In in Hd as [Hd _]. rewrite Forall_forall in Hlow.
      now apply Hlow, list_elem_of_In.
  - unfold parse_yarn. rewrite E. split; constructor.
Qed.

(** ** Reading a rendered list *)

Section ManyRun.
Context {L A : Type} (q : Parser A) (render : L -> string) (value : nat -> L -> A).
Context (good : L -> Prop) (ok : L -> string -> Prop).
Hypothesis run : forall l ln r,
  good l -> ok l r ->
  q {| line := ln; rest := render l +:+ r |} =
  Some (value ln l, {| line := ln + count_nl (render l); rest := r |}).
Hypothesis ok_next : forall l l' r, good l' -> ok l (render l' +:+ r).
Hypothesis render_nonempty : forall l, good l -> nonempty (render l) = true.

Lemma many_loop_run (ls : list L) :
  forall fuel ln stopper,
    Forall good ls -> ok_last ok ls stopper ->
    (forall ln', q {| line := ln'; rest := stopper |} = None) ->
    List.length ls < fuel ->
    Parsy.many_loop fuel q {| line := ln; rest := render_all render ls +:+ stopper |} =
    Some (values_from render value ln ls,
          {| line := ln + count_nl (render_all render ls); rest := stopper |}).
Proof.
  induction ls as [|l ls IH]; intros fuel ln stopper Hgood Hlast Hstop Hfuel;
    (destruct fuel as [|fuel]; [simpl in Hfuel; lia |]); cbn [Parsy.many_loop].
  - cbn [render_all String.append count_nl values_from]. rewrite Hstop.
    now rewrite Nat.add_0_r.
  - apply Forall_cons in Hgood as [Hl Hls].
    cbn [render_all values_from]. rewrite string_app_assoc.
    rewrite run; [| assumption |].
    + rewrite IH; [| assumption | | assumption | simpl in Hfuel; lia].
      * now rewrite count_nl_app, Nat.add_assoc.
      * destruct ls; [exact I | exact Hlast].
    + destruct ls as [|l' ls'].
      * exact Hlast.
      * apply Forall_cons in Hls as [Hl' _]. cbn [render_all].
        rewrite string_app_assoc. now apply ok_next.
Qed.

Lemma render_all_length (ls : list L) :
  Forall good ls -> List.length ls <= String.length (render_all render ls).
Proof.
  induction 1 as [|l ls Hl _ IH]; [simpl; lia |].
  cbn [render_all List.length]. rewrite string_length_app.
  apply render_nonempty in Hl. destruct (render l); [discriminate | simpl; lia].
Qed.

Lemma many_run (ls : list L) ln stopper :
  Forall good ls -> ok_last ok ls stopper ->
  (forall ln', q {| line := ln'; rest := stopper |} = None) ->
  Parsy.many q {| line := ln; rest := render_all render ls +:+ stopper |} =
  Some (values_from render value ln ls,
        {| line := ln + count_nl (render_all render ls); rest := stopper |}).
Proof.
  intros Hgood Hlast Hstop. unfold Parsy.many.
  apply many_loop_run; try assumption.
  simpl rest. rewrite string_length_app.
  pose proof (render_all_length ls Hgood). lia.
Qed.

End ManyRun.

Lemma then_string_None {A} (p : Parser A) (sep stopper : string) :
  startswith stopper sep = false ->
  forall ln, Parsy.then_ (Parsy.string sep) p {| line := ln; rest := stopper |} = None.
Proof.
  intros H ln. unfold Parsy.then_, Parsy.bind.
  now rewrite (string_None sep {| line := ln; rest := stopper |} H).
Qed.

Section SepByRun.
Context {L A : Type} (p : Parser A) (sep : string).
Context (render : L -> string) (value : nat -> L -> A).
Context (good : L -> Prop) (ok : L -> string -> Prop).
Hypothesis run : forall l ln r,
  good l -> ok l r ->
  p {| line := ln; rest := render l +:+ r |} =
  Some (value ln l, {| line := ln + count_nl (render l); rest := r |}).
Hypothesis ok_sep : forall l l' r, good l' -> ok l (sep +:+ render l' +:+ r).
Hypothesis sep_nonempty : nonempty sep = true.

Lemma join_render (l : L) (ls : list L) :
  join sep (List.map render (l :: ls)) =
  render l +:+ render_all (fun l' => sep +:+ render l') ls.
Proof.
  revert l. induction ls as [|l' ls IH]; intros l.
  - simpl. now rewrite string_app_nil_r.
  - cbn [List.map] in *. rewrite join_cons by discriminate.
    rewrite IH. cbn [render_all]. now rewrite string_app_assoc.
Qed.

Lemma sep_values_shift (ls : list L) (ln : nat) :
  values_from (fun l' => sep +:+ render l')
    (fun ln' l' => value (ln' + count_nl sep) l') ln ls =
  sep_values sep render value (ln + count_nl sep) ls.
Proof.
  revert ln. induction ls as [|l ls IH]; intros ln; [reflexivity |].
  cbn [values_from sep_values]. rewrite IH, count_nl_app. do 2 f_equal. lia.
Qed.

Lemma sep_by_run (l : L) (ls : list L) (ln : nat) (stopper : string) :
  Forall good (l :: ls) -> ok_last ok (l :: ls) stopper ->
  (forall ln', Parsy.then_ (Parsy.string sep) p {| line := ln'; rest := stopper |} = None) ->
  Parsy.sep_by p (Parsy.string sep)
    {| line := ln; rest := join sep (List.map render (l :: ls)) +:+ stopper |} =
  Some (sep_values sep render value ln (l :: ls),
        {| line := ln + count_nl (join sep (List.map render (l :: ls)));
           rest := stopper |}).
Proof.
  intros Hgood Hlast Hstop. apply Forall_cons in Hgood as [Hl Hls].
  rewrite join_render, string_app_assoc.
  assert (Hok : ok l (render_all (fun l' => sep +:+ render l') ls +:+ stopper)).
  { destruct ls as [|l' ls'].
    - cbn [render_all String.append]. exact Hlast.
    - apply Forall_cons in Hls as [Hl' _]. cbn [render_all].
      rewrite !string_app_assoc. now apply ok_sep. }
  assert (Hmany :
    Parsy.many (Parsy.then_ (Parsy.string sep) p)
      {| line := ln + count_nl (render l);
         rest := render_all (fun l' => sep +:+ render l') ls +:+ stopper |} =
    Some (values_from (fun l' => sep +:+ render l')
            (fun ln' l' => value (ln' + count_nl sep) l') (ln + count_nl (render l)) ls,
          {| line := ln + count_nl (render l) +
                     count_nl (render_all (fun l' => sep +:+ render l') ls);
             rest := stopper |})).
  { apply (many_run (Parsy.then_ (Parsy.string sep) p) (fun l' => sep +:+ render l')
             (fun ln' l' => value (ln' + count_nl sep) l') good ok).
    - intros l0 ln0 r Hl0 Hok0. rewrite string_app_assoc.
      rewrite (then_eq _ _ _ _ _ (string_run sep _ ln0)).
      rewrite run by assumption. now rewrite count_nl_app, Nat.add_assoc.
    - intros l0 l' r Hl'. rewrite string_app_assoc. now apply ok_sep.
    - intros l0 Hl0. destruct sep; [discriminate | reflexivity].
    - exact Hls.
    - destruct ls; [exact I | exact Hlast].
    - exact Hstop. }
  unfold Parsy.sep_by, Parsy.alt.
  rewrite (bind_eq _ _ _ _ _ (run l ln _ Hl Hok)).
  rewrite (bind_eq _ _ _ _ _ Hmany).
  unfold Parsy.success. rewrite sep_values_shift, count_nl_app.
  cbn [sep_values]. now rewrite Nat.add_assoc.
Qed.

End SepByRun.

(** ** Reading a source *)

Lemma free_of_sub (stops stops' : list ascii) (s : string) :
  forallb (char_in stops) stops' = true -> free_of stops s -> free_of stops' s.
Proof.
  intros Hsub. apply free_of_same. intros a Ha. unfold char_in in Ha.
  apply existsb_exists in Ha as (b & Hb & ->%Ascii.eqb_eq).
  rewrite forallb_forall in Hsub. now apply Hsub.
Qed.

Lemma one_of_run (chars : list ascii) (a : ascii) (r : string) (ln : nat) :
  char_in chars a = true -> Ascii.eqb a LF = false ->
  Util.one_of chars {| line := ln; rest := String a r |} =
  Some (str1 a, {| line := ln; rest := r |}).
Proof.
  intros Ha Hnl. unfold Util.one_of. cbn [rest]. rewrite Ha.
  unfold advance. cbn [line count_nl str1]. rewrite Hnl. cbn. now rewrite Nat.add_0_r.
Qed.

Lemma upto_consume_run (s : list ascii) (tok : string) (a : ascii) (r : string) (ln : nat) :
  nonempty tok = true -> free_of (s ++ [LF]) tok ->
  char_in s a = true -> Ascii.eqb a LF = false ->
  Util.upto s true {| line := ln; rest := tok +:+ String a r |} =
  Some (tok, {| line := ln; rest := r |}).
Proof.
  intros Hne Hfree Ha Hnl. unfold Util.upto, Parsy.skip.
  rewrite (bind_eq _ _ _ tok {| line := ln; rest := String a r |}).
  - now rewrite (bind_eq _ _ _ _ _ (one_of_run s a r ln Ha Hnl)).
  - apply not_any_run; try assumption.
    + unfold char_in. rewrite existsb_app. apply orb_true_iff. right. reflexivity.
    + cbn [stops_at]. unfold char_in in *. rewrite existsb_app, Ha. reflexivity.
Qed.

Lemma name_part_run (name r : string) (ln : nat) :
  wf_name name = true ->
  name_part {| line := ln; rest := name +:+ "@" +:+ r |} =
  Some (name, {| line := ln; rest := r |}).
Proof.
  unfold wf_name. intros [Hne Hlacks%lacks_free_of]%andb_true_iff.
  assert (Hfree : free_of ([AT] ++ [LF]) (name_body name)).
  { now apply (free_of_sub [AT; DQUOTE; LF]). }
  unfold name_part, Parsy.concat, Parsy.optional, Parsy.alt.
  destruct name as [|a body]; [discriminate |]. cbn [name_body] in *.
  destruct (Ascii.eqb_spec a AT) as [-> | Hna].
  - change (String AT body +:+ "@" +:+ r) with ("@" +:+ (body +:+ String AT r)).
    unfold Parsy.bind at 1. rewrite string_run. cbn [count_nl]. cbn.
    rewrite Nat.add_0_r.
    now rewrite (bind_eq _ _ _ _ _ (upto_consume_run [AT] body AT r ln Hne Hfree
                                      eq_refl eq_refl)).
  - unfold Parsy.bind at 1.
    rewrite (string_None "@" {| line := ln; rest := String a body +:+ "@" +:+ r |}).
    + unfold Parsy.success.
      change (String a body +:+ "@" +:+ r) with (String a body +:+ String AT r).
      now rewrite (bind_eq _ _ _ _ _ (upto_consume_run [AT] (String a body) AT r ln
                                        Hne Hfree eq_refl eq_refl)).
    + unfold startswith. cbn [rest String.append strip_prefix].
      destruct (Ascii.eqb_spec "@" a) as [<- |]; [now destruct Hna | reflexivity].
Qed.

Lemma stops_here_at (stops : list ascii) (r : string) :
  stops_here stops r = true -> stops_at stops r.
Proof. destruct r; [exact (fun _ => I) | exact (fun H => H)]. Qed.

Lemma wf_name_first (name r : string) :
  wf_name name = true -> startswith (name +:+ r) QUOTE = false.
Proof.
  unfold wf_name. intros [Hne Hlacks%lacks_free_of]%andb_true_iff.
  destruct name as [|a body]; [discriminate |]. cbn [name_body] in *.
  unfold startswith, QUOTE, str1. cbn [String.append strip_prefix].
  destruct (Ascii.eqb_spec DQUOTE a) as [<- |]; [| reflexivity].
  change (Ascii.eqb DQUOTE AT) with false in *. cbv iota in *.
  specialize (Hlacks DQUOTE eq_refl). cbn [contains] in Hlacks.
  now rewrite Ascii.eqb_refl in Hlacks.
Qed.

Lemma wf_name_count_nl (name : string) : wf_name name = true -> count_nl name = 0.
Proof.
  unfold wf_name. intros [Hne Hlacks%lacks_free_of]%andb_true_iff.
  assert (Hbody : count_nl (name_body name) = 0).
  { apply (free_of_count_nl [AT; DQUOTE; LF]); [reflexivity | assumption]. }
  destruct name as [|a body]; [reflexivity |]. cbn [name_body] in Hbody.
  destruct (Ascii.eqb_spec a AT) as [-> | _]; [| assumption].
  cbn [count_nl]. now rewrite Hbody.
Qed.

Lemma source1_bare_run (name constraint r : string) (ln : nat) :
  wf_source1 (false, (name, constraint)) = true -> stops_here BARE_STOPS r = true ->
  source1 false {| line := ln; rest := render_source (name, constraint) +:+ r |} =
  Some ((name, constraint), {| line := ln; rest := r |}).
Proof.
  unfold wf_source1, render_source. cbn [fst snd].
  intros [[Hname Hne]%andb_true_iff Hlacks%lacks_free_of]%andb_true_iff Hr.
  rewrite !string_app_assoc. unfold source1, Util.pair.
  rewrite (bind_eq _ _ _ _ _ (name_part_run name _ ln Hname)).
  rewrite (bind_eq _ _ _ constraint {| line := ln; rest := r |}); [reflexivity |].
  unfold Util.upto. apply not_any_run; [assumption | reflexivity | assumption |].
  now apply stops_here_at.
Qed.

Lemma source1_quoted_run (name constraint r : string) (ln : nat) :
  wf_source1 (true, (name, constraint)) = true ->
  Util.quoted (source1 true)
    {| line := ln; rest := QUOTE +:+ render_source (name, constraint) +:+ QUOTE +:+ r |} =
  Some ((name, constraint), {| line := ln; rest := r |}).
Proof.
  unfold wf_source1, render_source. cbn [fst snd].
  intros [[Hname Hne]%andb_true_iff Hlacks%lacks_free_of]%andb_true_iff.
  rewrite !string_app_assoc. unfold Util.quoted, Parsy.skip, Parsy.then_.
  fold QUOTE.
  assert (Hq : forall s, Parsy.string QUOTE {| line := ln; rest := QUOTE +:+ s |} =
                         Some (QUOTE, {| line := ln; rest := s |})).
  { intros s. rewrite string_run. cbn. now rewrite Nat.add_0_r. }
  rewrite (bind_eq _ _ _ (name, constraint) {| line := ln; rest := QUOTE +:+ r |}).
  - now rewrite (bind_eq _ _ _ _ _ (Hq r)).
  - rewrite (bind_eq _ _ _ _ _ (Hq _)). unfold source1, Util.pair.
    rewrite (bind_eq _ _ _ _ _ (name_part_run name _ ln Hname)).
    rewrite (bind_eq _ _ _ constraint {| line := ln; rest := QUOTE +:+ r |});
      [reflexivity |].
    unfold Util.upto. apply not_any_run; [assumption | reflexivity | assumption |].
    reflexivity.
Qed.

(** X5: a version 1 source written as [name@constraint] is read back as
    the pair (name, constraint), a name with a scope keeping its [@];
    bare, its constraint ends at the first colon, comma, quote or end of
    line, and in quotes it may hold colons and commas and ends at the
    closing quote. *)
Theorem X5_source1_round_trip (name constraint r : string) (ln : nat) :
  (wf_source1 (false, (name, constraint)) = true -> stops_here BARE_STOPS r = true ->
   source1 false {| line := ln; rest := name +:+ "@" +:+ constraint +:+ r |} =
   Some ((name, constraint), {| line := ln; rest := r |})) /\
  (wf_source1 (true, (name, constraint)) = true ->
   Util.quoted (source1 true)
     {| line := ln; rest := QUOTE +:+ name +:+ "@" +:+ constraint +:+ QUOTE +:+ r |} =
   Some ((name, constraint), {| line := ln; rest := r |})).
Proof.
  split.
  - intros Hwf Hr. pose proof (source1_bare_run name constraint r ln Hwf Hr) as H.
    unfold render_source in H. cbn [fst snd] in H.
    now rewrite !string_app_assoc in H.
  - intros Hwf. pose proof (source1_quoted_run name constraint r ln Hwf) as H.
    unfold render_source in H. cbn [fst snd] in H.
    now rewrite !string_app_assoc in H.
Qed.

Lemma X5_witness :
  source1 false
    {| line := 4; rest := "bad-lib" +:+ "@" +:+ "0.0.8" +:+ ", bad-lib@^0.0.4:" |} =
    Some (("bad-lib", "0.0.8"), {| line := 4; rest := ", bad-lib@^0.0.4:" |}) /\
  Util.quoted (source1 true)
    {| line := 4;
       rest := QUOTE +:+ "@scope/bats" +:+ "@" +:+ "https://host/bats,core#master" +:+
               QUOTE +:+ ":" |} =
    Some (("@scope/bats", "https://host/bats,core#master"), {| line := 4; rest := ":" |}).
Proof.
  split.
  - apply (X5_source1_round_trip "bad-lib" "0.0.8" ", bad-lib@^0.0.4:" 4); reflexivity.
  - apply (X5_source1_round_trip "@scope/bats" "https://host/bats,core#master" ":" 4).
    reflexivity.
Defined.

(** ** Reading a header *)

Lemma sep_values_const {L A} (sep : string) (render : L -> string) (f : L -> A)
    (ln : nat) (ls : list L) :
  sep_values sep render (fun _ => f) ln ls = List.map f ls.
Proof.
  revert ln. induction ls as [|l ls IH]; intros ln; [reflexivity |].
  cbn [sep_values List.map]. now rewrite IH.
Qed.

Lemma ok_last_all {L} (ok : L -> string -> Prop) (ls : list L) (stopper : string) :
  (forall l, In l ls -> ok l stopper) -> ok_last ok ls stopper.
Proof.
  induction ls as [|l ls IH]; intros H; [exact I |].
  destruct ls as [|l' ls']; [apply H; now left |].
  apply IH. intros l0 Hl0. apply H. now right.
Qed.

Lemma count_nl_join (sep : string) (pieces : list string) :
  count_nl sep = 0 -> Forall (fun piece => count_nl piece = 0) pieces ->
  count_nl (join sep pieces) = 0.
Proof.
  intros Hsep. induction 1 as [|piece pieces Hp Hps IH]; [reflexivity |].
  destruct pieces as [|piece' pieces']; [exact Hp |].
  rewrite join_cons by discriminate. rewrite !count_nl_app, Hp, Hsep, IH. reflexivity.
Qed.

Lemma lacks_count_nl (stops : list ascii) (s : string) :
  char_in stops LF = true -> lacks stops s = true -> count_nl s = 0.
Proof. intros HLF H. apply (free_of_count_nl stops); [assumption | now apply lacks_free_of]. Qed.

Lemma render_source1_count_nl (item : bool * Source) :
  wf_source1 item = true -> count_nl (render_source1 item) = 0.
Proof.
  destruct item as [quoted [name constraint]]. unfold wf_source1, render_source1, render_source.
  cbn [fst snd]. intros [[Hname Hne]%andb_true_iff Hlacks]%andb_true_iff.
  apply wf_name_count_nl in Hname.
  assert (Hc : count_nl constraint = 0).
  { destruct quoted; eapply lacks_count_nl; try exact Hlacks; reflexivity. }
  destruct quoted; rewrite !count_nl_app, Hname, Hc; reflexivity.
Qed.

Lemma source1_item_run (item : bool * Source) (r : string) (ln : nat) :
  wf_source1 item = true ->
  (item.1 = false -> stops_here BARE_STOPS r = true) ->
  Parsy.alt (Util.quoted (source1 true)) (source1 false)
    {| line := ln; rest := render_source1 item +:+ r |} =
  Some (item.2, {| line := ln; rest := r |}).
Proof.
  destruct item as [[|] [name constraint]]; cbn [fst snd]; intros Hwf Hr;
    unfold Parsy.alt, render_source1; cbn [fst snd].
  - rewrite !string_app_assoc. now rewrite (source1_quoted_run name constraint r ln Hwf).
  - assert (Hfail : Util.quoted (source1 true)
                      {| line := ln; rest := render_source (name, constraint) +:+ r |} = None).
    { unfold Util.quoted, Parsy.skip, Parsy.then_, Parsy.bind.
      rewrite string_None; [reflexivity |]. cbn [rest].
      unfold render_source. cbn [fst snd]. rewrite string_app_assoc.
      unfold wf_source1 in Hwf. cbn [fst snd] in Hwf.
      apply andb_true_iff in Hwf as [[Hname _]%andb_true_iff _].
      now apply wf_name_first. }
    rewrite Hfail. now apply source1_bare_run; [| apply Hr].
Qed.

Lemma header1_run (item : bool * Source) (items : list (bool * Source))
    (r : string) (ln : nat) :
  forallb wf_source1 (item :: items) = true ->
  header1 {| line := ln;
             rest := join ", " (List.map render_source1 (item :: items)) +:+
                     ":" +:+ NEWLINE +:+ r |} =
  Some (List.map snd (item :: items), {| line := S ln; rest := r |}).
Proof.
  intros Hwf. rewrite forallb_forall in Hwf.
  assert (Hgood : Forall (fun it => wf_source1 it = true) (item :: items)).
  { apply Forall_forall. intros it Hit. now apply Hwf, list_elem_of_In. }
  assert (Hrun : forall it ln' r',
    wf_source1 it = true -> (it.1 = false -> stops_here BARE_STOPS r' = true) ->
    Parsy.alt (Util.quoted (source1 true)) (source1 false)
      {| line := ln'; rest := render_source1 it +:+ r' |} =
    Some (it.2, {| line := ln' + count_nl (render_source1 it); rest := r' |})).
  { intros it ln' r' Hit Hok.
    rewrite (render_source1_count_nl it Hit), Nat.add_0_r.
    now apply source1_item_run. }
  set (ok := fun (it : bool * Source) (r' : string) =>
               it.1 = false -> stops_here BARE_STOPS r' = true) in *.
  assert (Hlast : ok_last ok (item :: items) (":" +:+ NEWLINE +:+ r)).
  { apply ok_last_all. intros it _ _. reflexivity. }
  assert (Hsep : forall it it' r',
            wf_source1 it' = true -> ok it (", " +:+ render_source1 it' +:+ r')).
  { intros it it' r' _ _. reflexivity. }
  pose proof (sep_by_run (Parsy.alt (Util.quoted (source1 true)) (source1 false)) ", "
                render_source1 (fun _ it => it.2) (fun it => wf_source1 it = true) ok
                Hrun Hsep eq_refl item items ln (":" +:+ NEWLINE +:+ r) Hgood Hlast
                (then_string_None _ ", " (":" +:+ NEWLINE +:+ r) eq_refl)) as Hsources.
  unfold header1, multi_source1, Parsy.skip.
  rewrite (bind_eq _ _ _ _ _ Hsources).
  rewrite (bind_eq _ _ _ _ _ (string_run (":" +:+ NEWLINE) r _)).
  unfold Parsy.success. rewrite sep_values_const.
  rewrite count_nl_join; [| reflexivity |].
  - change (count_nl (":" +:+ NEWLINE)) with 1.
    now replace (ln + 0 + 1) with (S ln) by lia.
  - apply Forall_map. eapply Forall_impl; [exact Hgood |].
    intros it Hit. now apply render_source1_count_nl.
Qed.

(** X6: a version 1 header written as its sources, each bare or in
    quotes, joined by a comma and a space and closed by a colon and a
    newline, is read back as the list of these sources in their order,
    and the cursor is on the next line. *)
Theorem X6_header1_round_trip (item : bool * Source) (items : list (bool * Source))
    (r : string) (ln : nat) :
  forallb wf_source1 (item :: items) = true ->
  header1 {| line := ln;
             rest := join ", " (List.map render_source1 (item :: items)) +:+
                     ":" +:+ NEWLINE +:+ r |} =
  Some (List.map snd (item :: items), {| line := S ln; rest := r |}).
Proof. exact (header1_run item items r ln). Qed.

Lemma X6_witness :
  header1 {| line := 4;
             rest := join ", " (List.map render_source1
                       [(true, ("@scope/a", "file:../a")); (false, ("a", "^1.0.0"));
                        (true, ("a", "https://host/a,b#c"))]) +:+
                     ":" +:+ NEWLINE +:+ "  version 1" |} =
  Some ([("@scope/a", "file:../a"); ("a", "^1.0.0"); ("a", "https://host/a,b#c")],
        {| line := 5; rest := "  version 1" |}).
Proof.
  apply (X6_header1_round_trip (true, ("@scope/a", "file:../a"))
           [(false, ("a", "^1.0.0")); (true, ("a", "https://host/a,b#c"))]
           "  version 1" 4).
  reflexivity.
Defined.

Lemma source2_run (name raw r : string) (ln : nat) :
  wf_source2 (name, raw) = true -> stops_here SOURCE2_STOPS r = true ->
  source2 {| line := ln; rest := render_source (name, raw) +:+ r |} =
  Some ((name, remove_npm_prefix raw), {| line := ln; rest := r |}).
Proof.
  unfold wf_source2, render_source. cbn [fst snd].
  intros [[Hname Hne]%andb_true_iff Hlacks%lacks_free_of]%andb_true_iff Hr.
  rewrite !string_app_assoc. unfold source2, Util.pair.
  rewrite (bind_eq _ _ _ _ _ (name_part_run name _ ln Hname)).
  unfold Parsy.map.
  rewrite (bind_eq _ _ _ (remove_npm_prefix raw) {| line := ln; rest := r |});
    [reflexivity |].
  rewrite (bind_eq _ _ _ raw {| line := ln; rest := r |}); [reflexivity |].
  unfold Util.upto. apply not_any_run; [assumption | reflexivity | assumption |].
  now apply stops_here_at.
Qed.

Lemma render_source2_count_nl (src : Source) :
  wf_source2 src = true -> count_nl (render_source src) = 0.
Proof.
  destruct src as [name raw]. unfold wf_source2, render_source. cbn [fst snd].
  intros [[Hname Hne]%andb_true_iff Hlacks]%andb_true_iff.
  apply wf_name_count_nl in Hname.
  apply (lacks_count_nl [DQUOTE; COMMA; LF] raw eq_refl) in Hlacks.
  now rewrite !count_nl_app, Hname, Hlacks.
Qed.

Lemma header2_run (src : Source) (srcs : list Source) (r : string) (ln : nat) :
  forallb wf_source2 (src :: srcs) = true ->
  header2 {| line := ln;
             rest := QUOTE +:+ join ", " (List.map render_source (src :: srcs)) +:+
                     QUOTE +:+ ":" +:+ NEWLINE +:+ r |} =
  Some (List.map source2_value (src :: srcs), {| line := S ln; rest := r |}).
Proof.
  intros Hwf. rewrite forallb_forall in Hwf.
  assert (Hgood : Forall (fun s => wf_source2 s = true) (src :: srcs)).
  { apply Forall_forall. intros s Hs. now apply Hwf, list_elem_of_In. }
  set (ok := fun (_ : Source) (r' : string) => stops_here SOURCE2_STOPS r' = true).
  assert (Hrun : forall s ln' r',
    wf_source2 s = true -> ok s r' ->
    source2 {| line := ln'; rest := render_source s +:+ r' |} =
    Some (source2_value s, {| line := ln' + count_nl (render_source s); rest := r' |})).
  { intros [name raw] ln' r' Hs Hok.
    rewrite (render_source2_count_nl _ Hs), Nat.add_0_r. now apply source2_run. }
  assert (Hlast : ok_last ok (src :: srcs) (QUOTE +:+ ":" +:+ NEWLINE +:+ r)).
  { apply ok_last_all. intros s _. reflexivity. }
  assert (Hsep : forall s s' r',
            wf_source2 s' = true -> ok s (", " +:+ render_source s' +:+ r')).
  { intros s s' r' _. reflexivity. }
  pose proof (sep_by_run source2 ", " render_source (fun _ s => source2_value s)
                (fun s => wf_source2 s = true) ok Hrun Hsep eq_refl
                src srcs (S ln - 1) (QUOTE +:+ ":" +:+ NEWLINE +:+ r) Hgood Hlast
                (then_string_None _ ", " (QUOTE +:+ ":" +:+ NEWLINE +:+ r) eq_refl))
    as Hsources.
  replace (S ln - 1) with ln in Hsources by lia.
  rewrite count_nl_join in Hsources; [| reflexivity |].
  2:{ apply Forall_map. eapply Forall_impl; [exact Hgood |].
      intros s Hs. now apply render_source2_count_nl. }
  rewrite Nat.add_0_r, sep_values_const in Hsources.
  assert (Hq : forall ln' s, Parsy.string QUOTE {| line := ln'; rest := QUOTE +:+ s |} =
                             Some (QUOTE, {| line := ln'; rest := s |})).
  { intros ln' s. rewrite string_run. cbn. now rewrite Nat.add_0_r. }
  unfold header2, multi_source2, Util.quoted, Parsy.skip, Parsy.then_. fold QUOTE.
  rewrite (bind_eq _ _ _ (List.map source2_value (src :: srcs))
             {| line := ln; rest := ":" +:+ NEWLINE +:+ r |}).
  - rewrite (bind_eq _ _ _ _ _ (string_run (":" +:+ NEWLINE) r ln)).
    unfold Parsy.success. change (count_nl (":" +:+ NEWLINE)) with 1.
    now replace (ln + 1) with (S ln) by lia.
  - rewrite (bind_eq _ _ _ (List.map source2_value (src :: srcs))
               {| line := ln; rest := QUOTE +:+ ":" +:+ NEWLINE +:+ r |}).
    + now rewrite (bind_eq _ _ _ _ _ (Hq ln _)).
    + rewrite (bind_eq _ _ _ _ _ (Hq ln _)). exact Hsources.
Qed.

(** X7: a version 2 header written as its sources joined by a comma and
    a space, all in one pair of quotes, and closed by a colon and a
    newline, is read back as the list of these sources in their order,
    each constraint without a leading [npm:]. *)
Theorem X7_header2_round_trip (src : Source) (srcs : list Source) (r : string) (ln : nat) :
  forallb wf_source2 (src :: srcs) = true ->
  header2 {| line := ln;
             rest := QUOTE +:+ join ", " (List.map render_source (src :: srcs)) +:+
                     QUOTE +:+ ":" +:+ NEWLINE +:+ r |} =
  Some (List.map source2_value (src :: srcs), {| line := S ln; rest := r |}).
Proof. exact (header2_run src srcs r ln). Qed.

Lemma X7_witness :
  header2 {| line := 7;
             rest := QUOTE +:+
                     join ", " (List.map render_source
                       [("@babel/core", "npm:^7.12.0"); ("@babel/core", "patch:x@^1#~b")])
                     +:+ QUOTE +:+ ":" +:+ NEWLINE +:+ "  version: 7.12.3" |} =
  Some ([("@babel/core", "^7.12.0"); ("@babel/core", "patch:x@^1#~b")],
        {| line := 8; rest := "  version: 7.12.3" |}).
Proof.
  apply (X7_header2_round_trip ("@babel/core", "npm:^7.12.0")
           [("@babel/core", "patch:x@^1#~b")] "  version: 7.12.3" 7).
  reflexivity.
Defined.

(** ** Reading the lines of a block *)

Lemma two_spaces_run (body : string) (ln : nat) :
  starts_with_space body = false ->
  Parsy.many (Parsy.string " ") {| line := ln; rest := "  " +:+ body |} =
  Some ([" "; " "], {| line := ln; rest := body |}).
Proof. intros H. exact (many_spaces 2 ln body H). Qed.

Lemma wf_key1_parts (key : string) :
  wf_key1 key = true ->
  nonempty key = true /\ free_of [SPACE; COLON; LF] key /\ starts_with_space key = false.
Proof.
  unfold wf_key1. intros [Hne Hlacks%lacks_free_of]%andb_true_iff.
  repeat split; try assumption.
  now apply (lacks_space_start [SPACE; COLON; LF]).
Qed.

Lemma wf_key2_parts (key : string) :
  wf_key2 key = true ->
  nonempty key = true /\ free_of [COLON; LF] key /\ starts_with_space key = false.
Proof.
  unfold wf_key2.
  intros [[Hne Hstart%negb_true_iff]%andb_true_iff Hlacks%lacks_free_of]%andb_true_iff.
  now repeat split.
Qed.

Lemma key_value1_field (key value r : string) (ln : nat) :
  wf_key1 key = true -> nonempty value = true -> lacks [LF] value = true ->
  line_ends r = true ->
  key_value1 {| line := ln; rest := "  " +:+ key +:+ " " +:+ value +:+ r |} =
  Some (Some (key, strip DQUOTE value), {| line := ln; rest := r |}).
Proof.
  intros (Hne & Hfree & Hstart)%wf_key1_parts Hvalue Hv Hr. unfold key_value1.
  erewrite bind_eq; [| apply two_spaces_run; now rewrite starts_with_space_app].
  cbn [List.length Nat.eqb negb].
  rewrite (bind_eq _ _ _ key {| line := ln; rest := " " +:+ value +:+ r |}).
  2:{ unfold Util.upto. apply not_any_run; [assumption | reflexivity | assumption |].
      reflexivity. }
  rewrite (bind_eq _ _ _ " " {| line := ln; rest := " " +:+ value +:+ r |})
    by reflexivity.
  change (String.eqb " " ":") with false. cbv iota.
  rewrite (then_eq _ _ _ " " {| line := ln; rest := value +:+ r |}).
  2:{ rewrite string_run. simpl count_nl. now rewrite Nat.add_0_r. }
  now rewrite (bind_eq _ _ _ value {| line := ln; rest := r |})
    by now apply value_run.
Qed.

Lemma key_value1_colon (key junk r : string) (ln : nat) :
  wf_key1 key = true -> lacks [LF] junk = true -> line_ends r = true ->
  key_value1 {| line := ln; rest := "  " +:+ key +:+ ":" +:+ junk +:+ r |} =
  Some (None, {| line := ln; rest := r |}).
Proof.
  intros (Hne & Hfree & Hstart)%wf_key1_parts Hjunk Hr. unfold key_value1.
  erewrite bind_eq; [| apply two_spaces_run; now rewrite starts_with_space_app].
  cbn [List.length Nat.eqb negb].
  rewrite (bind_eq _ _ _ key {| line := ln; rest := ":" +:+ junk +:+ r |}).
  2:{ unfold Util.upto. apply not_any_run; [assumption | reflexivity | assumption |].
      reflexivity. }
  rewrite (bind_eq _ _ _ ":" {| line := ln; rest := ":" +:+ junk +:+ r |})
    by reflexivity.
  change (String.eqb ":" ":") with true. cbv iota.
  change (":" +:+ junk +:+ r) with ((":" +:+ junk) +:+ r).
  apply consume_line_run; [reflexivity | | assumption].
  unfold lacks in *. cbn [forallb contains String.append] in *.
  change (Ascii.eqb ":" LF) with false. exact Hjunk.
Qed.

Lemma key_value2_field (key value r : string) (ln : nat) :
  wf_key2 key = true -> nonempty value = true -> lacks [LF] value = true ->
  line_ends r = true ->
  key_value2 {| line := ln; rest := "  " +:+ key +:+ ": " +:+ value +:+ r |} =
  Some (Some (key, strip DQUOTE value), {| line := ln; rest := r |}).
Proof.
  intros (Hne & Hfree & Hstart)%wf_key2_parts Hvalue Hv Hr. unfold key_value2.
  erewrite bind_eq; [| apply two_spaces_run; now rewrite starts_with_space_app].
  cbn [List.length Nat.eqb negb].
  rewrite (bind_eq _ _ _ key {| line := ln; rest := ": " +:+ value +:+ r |}).
  2:{ unfold Util.upto. apply not_any_run; [assumption | reflexivity | assumption |].
      reflexivity. }
  rewrite (then_eq _ _ _ ":" {| line := ln; rest := " " +:+ value +:+ r |}).
  2:{ change (": " +:+ value +:+ r) with (":" +:+ " " +:+ value +:+ r).
      rewrite string_run. simpl count_nl. now rewrite Nat.add_0_r. }
  rewrite (bind_eq _ _ _ " " {| line := ln; rest := " " +:+ value +:+ r |})
    by reflexivity.
  change (String.eqb " " NEWLINE) with false. cbv iota.
  rewrite (then_eq _ _ _ " " {| line := ln; rest := value +:+ r |}).
  2:{ rewrite string_run. simpl count_nl. now rewrite Nat.add_0_r. }
  now rewrite (bind_eq _ _ _ value {| line := ln; rest := r |})
    by now apply value_run.
Qed.

Lemma key_value2_header (key r : string) (ln : nat) :
  wf_key2 key = true ->
  key_value2 {| line := ln; rest := "  " +:+ key +:+ ":" +:+ String LF r |} =
  Some (None, {| line := ln; rest := String LF r |}).
Proof.
  intros (Hne & Hfree & Hstart)%wf_key2_parts. unfold key_value2.
  erewrite bind_eq; [| apply two_spaces_run; now rewrite starts_with_space_app].
  cbn [List.length Nat.eqb negb].
  rewrite (bind_eq _ _ _ key {| line := ln; rest := ":" +:+ String LF r |}).
  2:{ unfold Util.upto. apply not_any_run; [assumption | reflexivity | assumption |].
      reflexivity. }
  rewrite (then_eq _ _ _ ":" {| line := ln; rest := String LF r |}).
  2:{ rewrite string_run. simpl count_nl. now rewrite Nat.add_0_r. }
  now rewrite (bind_eq _ _ _ NEWLINE {| line := ln; rest := String LF r |})
    by reflexivity.
Qed.

(** X8: a line of two spaces and a key directly followed by a colon, the
    header of a nested sub-block, gives no field.  In version 1 the rest
    of the line is consumed with the colon, whatever it is; in version 2
    the colon must end the line, and the newline is left. *)
Theorem X8_sub_block_header_no_field (key junk r : string) (ln : nat) :
  (wf_key1 key = true -> lacks [LF] junk = true -> line_ends r = true ->
   key_value1 {| line := ln; rest := "  " +:+ key +:+ ":" +:+ junk +:+ r |} =
   Some (None, {| line := ln; rest := r |})) /\
  (wf_key2 key = true ->
   key_value2 {| line := ln; rest := "  " +:+ key +:+ ":" +:+ String LF r |} =
   Some (None, {| line := ln; rest := String LF r |})).
Proof.
  split; [apply key_value1_colon | apply key_value2_header].
Qed.

Lemma X8_witness :
  key_value1 {| line := 8;
                rest := "  " +:+ "version" +:+ ":" +:+ " 7.18.10" +:+ NEWLINE |} =
    Some (None, {| line := 8; rest := NEWLINE |}) /\
  key_value2 {| line := 8;
                rest := "  " +:+ "dependencies" +:+ ":" +:+ String LF "    a: ^1" |} =
    Some (None, {| line := 8; rest := String LF "    a: ^1" |}).
Proof.
  split.
  - apply (X8_sub_block_header_no_field "version" " 7.18.10" NEWLINE 8); reflexivity.
  - apply (X8_sub_block_header_no_field "dependencies" EmptyString "    a: ^1" 8).
    reflexivity.
Defined.

Lemma count_nl_spaces (n : nat) : count_nl (spaces n) = 0.
Proof. induction n as [|n IH]; [reflexivity |]. cbn [spaces count_nl]. now rewrite IH. Qed.

Lemma wf_line_count_nl (wf_key : string -> bool) (render : Line -> string) (l : Line) :
  (forall key, wf_key key = true -> count_nl key = 0) ->
  (forall key value, render (Field key value) = "  " +:+ key +:+ " " +:+ value \/
                     render (Field key value) = "  " +:+ key +:+ ": " +:+ value) ->
  (forall key, render (Header key) = "  " +:+ key +:+ ":") ->
  (forall n body, render (Indented n body) = spaces n +:+ body) ->
  wf_line wf_key l = true -> count_nl (render l) = 0.
Proof.
  intros Hkey Hfield Hheader Hindented. destruct l as [key value | key | n body]; cbn [wf_line].
  - intros [[Hk _]%andb_true_iff Hv]%andb_true_iff.
    apply Hkey in Hk. apply (lacks_count_nl [LF] value eq_refl) in Hv.
    destruct (Hfield key value) as [-> | ->]; now rewrite !count_nl_app, Hk, Hv.
  - intros Hk%Hkey. now rewrite Hheader, !count_nl_app, Hk.
  - intros [_ Hb]%andb_true_iff. apply (lacks_count_nl [LF] body eq_refl) in Hb.
    now rewrite Hindented, count_nl_app, count_nl_spaces, Hb.
Qed.

Lemma render_line1_count_nl (l : Line) :
  wf_line wf_key1 l = true -> count_nl (render_line1 l) = 0.
Proof.
  apply wf_line_count_nl; try (intros; reflexivity); [| intros; now left].
  unfold wf_key1. intros key [_ H]%andb_true_iff.
  now apply (lacks_count_nl [SPACE; COLON; LF] key eq_refl).
Qed.

Lemma render_line2_count_nl (l : Line) :
  wf_line wf_key2 l = true -> count_nl (render_line2 l) = 0.
Proof.
  apply wf_line_count_nl; try (intros; reflexivity); [| intros; now right].
  unfold wf_key2. intros key [_ H]%andb_true_iff.
  now apply (lacks_count_nl [COLON; LF] key eq_refl).
Qed.

Lemma indented_parts (n : nat) (body : string) :
  negb (Nat.eqb n 2) && nonempty body && negb (starts_with_space body) &&
    lacks [LF] body = true ->
  n <> 2 /\ nonempty body = true /\ starts_with_space body = false /\
  lacks [LF] body = true.
Proof.
  intros [[[Hn%negb_true_iff Hne]%andb_true_iff Hs%negb_true_iff]%andb_true_iff Hb]%andb_true_iff.
  apply Nat.eqb_neq in Hn. now repeat split.
Qed.

Lemma key_value1_line (l : Line) (r : string) (ln : nat) :
  wf_line wf_key1 l = true -> line_ends r = true ->
  key_value1 {| line := ln; rest := render_line1 l +:+ r |} =
  Some (line_value l, {| line := ln; rest := r |}).
Proof.
  destruct l as [key value | key | n body]; cbn [wf_line render_line1 line_value];
    intros Hwf Hr; rewrite !string_app_assoc.
  - apply andb_true_iff in Hwf as [[Hk Hne]%andb_true_iff Hv].
    now apply key_value1_field.
  - exact (key_value1_colon key EmptyString r ln Hwf eq_refl Hr).
  - apply indented_parts in Hwf as (Hn & Hne & Hs & Hb).
    unfold key_value1. apply indented_line; try assumption.
    intros sp Hsp. apply Nat.eqb_neq in Hsp. now rewrite Hsp.
Qed.

Lemma key_value2_line (l : Line) (r : string) (ln : nat) :
  wf_line wf_key2 l = true -> line_follows2 l r = true ->
  key_value2 {| line := ln; rest := render_line2 l +:+ r |} =
  Some (line_value l, {| line := ln; rest := r |}).
Proof.
  unfold line_follows2.
  destruct l as [key value | key | n body]; cbn [wf_line render_line2 line_value];
    intros Hwf [Hr Hlast]%andb_true_iff; rewrite !string_app_assoc.
  - apply andb_true_iff in Hwf as [[Hk Hne]%andb_true_iff Hv].
    now apply key_value2_field.
  - destruct r as [|a r]; [discriminate |]. cbn [line_ends] in Hr.
    apply Ascii.eqb_eq in Hr as ->. now apply key_value2_header.
  - apply indented_parts in Hwf as (Hn & Hne & Hs & Hb).
    unfold key_value2. apply indented_line; try assumption.
    intros sp Hsp. apply Nat.eqb_neq in Hsp. now rewrite Hsp.
Qed.

Lemma block_end_line_ends (stopper : string) :
  block_end stopper = true -> line_ends stopper = true.
Proof.
  destruct stopper as [|a [|b s]]; cbn [block_end line_ends]; try done.
  now intros [-> _]%andb_true_iff.
Qed.

Lemma block_end_stop (stopper : string) :
  block_end stopper = true ->
  forall ln,
    Parsy.then_ (Parsy.string NEWLINE) key_value1 {| line := ln; rest := stopper |} = None /\
    Parsy.then_ (Parsy.string NEWLINE) key_value2 {| line := ln; rest := stopper |} = None.
Proof.
  intros H ln. destruct stopper as [|a [|b s]]; cbn [block_end] in H.
  - split; reflexivity.
  - apply Ascii.eqb_eq in H as ->. split; reflexivity.
  - apply andb_true_iff in H as [->%Ascii.eqb_eq ->%Ascii.eqb_eq]. split; reflexivity.
Qed.

Lemma count_nl_join_lines (piece : string) (pieces : list string) :
  Forall (fun p => count_nl p = 0) (piece :: pieces) ->
  count_nl (join NEWLINE (piece :: pieces)) = List.length pieces.
Proof.
  revert piece. induction pieces as [|piece' pieces IH]; intros piece H.
  - apply Forall_cons in H as [H _]. exact H.
  - apply Forall_cons in H as [Hp H]. rewrite join_cons by discriminate.
    rewrite !count_nl_app, Hp, (IH piece' H). reflexivity.
Qed.

Lemma lines1_run_to (l : Line) (ls : list Line) (stopper : string) (ln : nat) :
  forallb (wf_line wf_key1) (l :: ls) = true -> line_ends stopper = true ->
  (forall ln', Parsy.then_ (Parsy.string NEWLINE) key_value1
                 {| line := ln'; rest := stopper |} = None) ->
  Parsy.sep_by key_value1 (Parsy.string NEWLINE)
    {| line := ln; rest := join NEWLINE (List.map render_line1 (l :: ls)) +:+ stopper |} =
  Some (List.map line_value (l :: ls),
        {| line := ln + List.length ls; rest := stopper |}).
Proof.
  intros Hwf Hend Hstop. rewrite forallb_forall in Hwf.
  assert (Hgood : Forall (fun l' => wf_line wf_key1 l' = true) (l :: ls)).
  { apply Forall_forall. intros l' Hl'. now apply Hwf, list_elem_of_In. }
  set (ok := fun (_ : Line) (r : string) => line_ends r = true).
  assert (Hrun : forall l' ln' r,
    wf_line wf_key1 l' = true -> ok l' r ->
    key_value1 {| line := ln'; rest := render_line1 l' +:+ r |} =
    Some (line_value l', {| line := ln' + count_nl (render_line1 l'); rest := r |})).
  { intros l' ln' r Hl' Hok.
    rewrite (render_line1_count_nl _ Hl'), Nat.add_0_r. now apply key_value1_line. }
  assert (Hlast : ok_last ok (l :: ls) stopper).
  { apply ok_last_all. intros l' _. exact Hend. }
  assert (Hsep : forall l0 l' r,
            wf_line wf_key1 l' = true -> ok l0 (NEWLINE +:+ render_line1 l' +:+ r)).
  { intros l0 l' r _. reflexivity. }
  pose proof (sep_by_run key_value1 NEWLINE render_line1 (fun _ l' => line_value l')
                (fun l' => wf_line wf_key1 l' = true) ok Hrun Hsep eq_refl
                l ls ln stopper Hgood Hlast Hstop) as Hlines.
  rewrite sep_values_const in Hlines. rewrite Hlines. do 3 f_equal.
  change (List.map render_line1 (l :: ls))
    with (render_line1 l :: List.map render_line1 ls).
  rewrite count_nl_join_lines; [now rewrite length_map |].
  change (Forall (fun p => count_nl p = 0) (List.map render_line1 (l :: ls))).
  apply Forall_map. eapply Forall_impl; [exact Hgood |].
  intros l' Hl'. now apply render_line1_count_nl.
Qed.

Lemma last_cons_default {L} (x : L) (xs : list L) (d d' : L) :
  List.last (x :: xs) d = List.last (x :: xs) d'.
Proof.
  revert x. induction xs as [|y xs IH]; intros x; [reflexivity |].
  change (List.last (y :: xs) d = List.last (y :: xs) d'). apply IH.
Qed.

Lemma ok_last_last {L} (ok : L -> string -> Prop) (l : L) (ls : list L) (stopper : string) :
  ok (List.last ls l) stopper -> ok_last ok (l :: ls) stopper.
Proof.
  revert l. induction ls as [|l' ls IH]; intros l H; [exact H |].
  change (ok_last ok (l' :: ls) stopper). apply IH.
  destruct ls as [|l'' ls]; [exact H |].
  rewrite (last_cons_default l'' ls l' l). exact H.
Qed.

Lemma lines2_run_to (l : Line) (ls : list Line) (stopper : string) (ln : nat) :
  forallb (wf_line wf_key2) (l :: ls) = true ->
  line_follows2 (List.last ls l) stopper = true ->
  (forall ln', Parsy.then_ (Parsy.string NEWLINE) key_value2
                 {| line := ln'; rest := stopper |} = None) ->
  Parsy.sep_by key_value2 (Parsy.string NEWLINE)
    {| line := ln; rest := join NEWLINE (List.map render_line2 (l :: ls)) +:+ stopper |} =
  Some (List.map line_value (l :: ls),
        {| line := ln + List.length ls; rest := stopper |}).
Proof.
  intros Hwf Hfollows Hstop. rewrite forallb_forall in Hwf.
  assert (Hgood : Forall (fun l' => wf_line wf_key2 l' = true) (l :: ls)).
  { apply Forall_forall. intros l' Hl'. now apply Hwf, list_elem_of_In. }
  set (ok := fun (l' : Line) (r : string) => line_follows2 l' r = true).
  assert (Hrun : forall l' ln' r,
    wf_line wf_key2 l' = true -> ok l' r ->
    key_value2 {| line := ln'; rest := render_line2 l' +:+ r |} =
    Some (line_value l', {| line := ln' + count_nl (render_line2 l'); rest := r |})).
  { intros l' ln' r Hl' Hok.
    rewrite (render_line2_count_nl _ Hl'), Nat.add_0_r. now apply key_value2_line. }
  assert (Hlast : ok_last ok (l :: ls) stopper) by now apply ok_last_last.
  assert (Hsep : forall l0 l' r,
            wf_line wf_key2 l' = true -> ok l0 (NEWLINE +:+ render_line2 l' +:+ r)).
  { intros l0 l' r _. now destruct l0. }
  pose proof (sep_by_run key_value2 NEWLINE render_line2 (fun _ l' => line_value l')
                (fun l' => wf_line wf_key2 l' = true) ok Hrun Hsep eq_refl
                l ls ln stopper Hgood Hlast Hstop) as Hlines.
  rewrite sep_values_const in Hlines. rewrite Hlines. do 3 f_equal.
  change (List.map render_line2 (l :: ls))
    with (render_line2 l :: List.map render_line2 ls).
  rewrite count_nl_join_lines; [now rewrite length_map |].
  change (Forall (fun p => count_nl p = 0) (List.map render_line2 (l :: ls))).
  apply Forall_map. eapply Forall_impl; [exact Hgood |].
  intros l' Hl'. now apply render_line2_count_nl.
Qed.

Lemma lines1_run (l : Line) (ls : list Line) (stopper : string) (ln : nat) :
  forallb (wf_line wf_key1) (l :: ls) = true -> block_end stopper = true ->
  Parsy.sep_by key_value1 (Parsy.string NEWLINE)
    {| line := ln; rest := join NEWLINE (List.map render_line1 (l :: ls)) +:+ stopper |} =
  Some (List.map line_value (l :: ls),
        {| line := ln + List.length ls; rest := stopper |}).
Proof.
  intros Hwf Hend. apply lines1_run_to; [assumption | now apply block_end_line_ends |].
  intros ln'. exact (proj1 (block_end_stop stopper Hend ln')).
Qed.

Lemma lines2_run (l : Line) (ls : list Line) (stopper : string) (ln : nat) :
  forallb (wf_line wf_key2) (l :: ls) = true -> block_end stopper = true ->
  line_follows2 (List.last ls l) stopper = true ->
  Parsy.sep_by key_value2 (Parsy.string NEWLINE)
    {| line := ln; rest := join NEWLINE (List.map render_line2 (l :: ls)) +:+ stopper |} =
  Some (List.map line_value (l :: ls),
        {| line := ln + List.length ls; rest := stopper |}).
Proof.
  intros Hwf Hend Hfollows. apply lines2_run_to; [assumption | assumption |].
  intros ln'. exact (proj2 (block_end_stop stopper Hend ln')).
Qed.

(** ** Reading a block *)

Lemma mark_line_run {A} (p : Parser A) c v c' :
  p c = Some (v, c') -> Util.mark_line p c = Some ((S (line c), v), c').
Proof.
  intros H. unfold Util.mark_line, Util.line_number.
  unfold Parsy.bind at 1. now rewrite (bind_eq _ _ _ _ _ H).
Qed.

Lemma pair_run {A B} (p1 : Parser A) (p2 : Parser B) c a c1 b c2 :
  p1 c = Some (a, c1) -> p2 c1 = Some (b, c2) ->
  Util.pair p1 p2 c = Some ((a, b), c2).
Proof.
  intros H1 H2. unfold Util.pair.
  now rewrite (bind_eq _ _ _ _ _ H1), (bind_eq _ _ _ _ _ H2).
Qed.

Lemma map_run {A B} (p : Parser A) (f : A -> B) c v c' :
  p c = Some (v, c') -> Parsy.map p f c = Some (f v, c').
Proof. intros H. unfold Parsy.map. now rewrite (bind_eq _ _ _ _ _ H). Qed.

Lemma block1_run (b : BlockText (bool * Source)) (stopper : string) (ln : nat) :
  wf_block1 b = true -> line_ends stopper = true ->
  (forall ln', Parsy.then_ (Parsy.string NEWLINE) key_value1
                 {| line := ln'; rest := stopper |} = None) ->
  yarn_dep1 {| line := ln; rest := render_block1 b +:+ stopper |} =
  Some ((S ln, block_value1 b),
        {| line := ln + block_height b - 1; rest := stopper |}).
Proof.
  destruct b as [[item items] [l ls]].
  unfold wf_block1, render_block1, block_value1, block_height, all. cbn [bt_sources bt_lines fst snd].
  intros [Hsources Hlines]%andb_true_iff Hend Hstop.
  rewrite !string_app_assoc.
  unfold yarn_dep1. apply (mark_line_run yarn_block1 {| line := ln; rest := _ |}).
  unfold yarn_block1.
  eapply pair_run.
  - exact (header1_run item items _ ln Hsources).
  - apply map_run.
    rewrite (lines1_run_to l ls stopper (S ln) Hlines Hend Hstop). do 3 f_equal.
    cbn [List.length]. lia.
Qed.

Lemma block2_run (b : BlockText Source) (stopper : string) (ln : nat) :
  wf_block2 b = true ->
  line_follows2 (last_line b) stopper = true ->
  (forall ln', Parsy.then_ (Parsy.string NEWLINE) key_value2
                 {| line := ln'; rest := stopper |} = None) ->
  yarn_dep2 {| line := ln; rest := render_block2 b +:+ stopper |} =
  Some ((S ln, block_value2 b),
        {| line := ln + block_height b - 1; rest := stopper |}).
Proof.
  destruct b as [[src srcs] [l ls]].
  unfold wf_block2, render_block2, block_value2, block_height, last_line, all.
  cbn [bt_sources bt_lines fst snd].
  intros [Hsources Hlines]%andb_true_iff Hfollows Hstop.
  rewrite !string_app_assoc.
  unfold yarn_dep2. apply (mark_line_run yarn_block2 {| line := ln; rest := _ |}).
  unfold yarn_block2.
  eapply pair_run.
  - exact (header2_run src srcs _ ln Hsources).
  - apply map_run.
    rewrite (lines2_run_to l ls stopper (S ln) Hlines Hfollows Hstop). do 3 f_equal.
    cbn [List.length]. lia.
Qed.

(** ** Reading a lockfile *)

Lemma optional_newline_cases (s : string) :
  optional_newline s = true -> s = EmptyString \/ s = NEWLINE.
Proof.
  unfold optional_newline. intros [H | H]%orb_true_iff; apply String.eqb_eq in H; auto.
Qed.

Lemma optional_newline_run (lead r : string) (ln : nat) :
  optional_newline lead = true -> startswith r NEWLINE = false ->
  exists v,
    Parsy.optional (Parsy.map (Parsy.string NEWLINE) Some) None
      {| line := ln; rest := lead +:+ r |} =
    Some (v, {| line := ln + count_nl lead; rest := r |}).
Proof.
  intros [-> | ->]%optional_newline_cases Hr; unfold Parsy.optional, Parsy.alt.
  - cbn [String.append]. unfold Parsy.map, Parsy.bind.
    rewrite (string_None NEWLINE {| line := ln; rest := r |} Hr).
    exists None. unfold Parsy.success. cbn [count_nl]. now rewrite Nat.add_0_r.
  - rewrite (map_run _ _ _ _ _ (string_run NEWLINE r ln)). now exists (Some NEWLINE).
Qed.

Lemma wf_name_not_newline (name r : string) :
  wf_name name = true -> startswith (name +:+ r) NEWLINE = false.
Proof.
  unfold wf_name. intros [Hne Hlacks%lacks_free_of]%andb_true_iff.
  destruct name as [|a body]; [discriminate |]. cbn [name_body] in *.
  unfold startswith, NEWLINE, str1. cbn [String.append strip_prefix].
  destruct (Ascii.eqb_spec LF a) as [<- |]; [| reflexivity].
  change (Ascii.eqb LF AT) with false in *. cbv iota in *.
  specialize (Hlacks LF eq_refl). cbn [contains] in Hlacks.
  now rewrite Ascii.eqb_refl in Hlacks.
Qed.

Lemma join_first (sep piece : string) (pieces : list string) :
  exists t, join sep (piece :: pieces) = piece +:+ t.
Proof.
  destruct pieces as [|piece' pieces].
  - exists EmptyString. cbn [join]. now rewrite string_app_nil_r.
  - eexists. now rewrite join_cons by discriminate.
Qed.

Lemma render_source1_not_newline (item : bool * Source) (r : string) :
  wf_source1 item = true -> startswith (render_source1 item +:+ r) NEWLINE = false.
Proof.
  destruct item as [quoted [name constraint]].
  unfold wf_source1, render_source1, render_source. cbn [fst snd].
  intros [[Hname _]%andb_true_iff _]%andb_true_iff.
  destruct quoted; [reflexivity |]. rewrite !string_app_assoc.
  now apply wf_name_not_newline.
Qed.

Lemma render_block1_not_newline (b : BlockText (bool * Source)) (r : string) :
  wf_block1 b = true -> startswith (render_block1 b +:+ r) NEWLINE = false.
Proof.
  destruct b as [[item items] lines].
  unfold wf_block1, render_block1, all. cbn [bt_sources bt_lines fst snd].
  intros [Hsources _]%andb_true_iff.
  assert (Hitem : wf_source1 item = true).
  { cbn [forallb] in Hsources. now apply andb_true_iff in Hsources as [H _]. }
  change (List.map render_source1 (item :: items))
    with (render_source1 item :: List.map render_source1 items).
  destruct (join_first ", " (render_source1 item) (List.map render_source1 items))
    as [t ->].
  rewrite !string_app_assoc. now apply render_source1_not_newline.
Qed.

Lemma render_block1_count_nl (b : BlockText (bool * Source)) :
  wf_block1 b = true -> count_nl (render_block1 b) = block_height b - 1.
Proof.
  destruct b as [[item items] [l ls]].
  unfold wf_block1, render_block1, block_height, all. cbn [bt_sources bt_lines fst snd].
  intros [Hsources Hlines]%andb_true_iff.
  rewrite forallb_forall in Hsources, Hlines.
  rewrite !count_nl_app, count_nl_join; [| reflexivity |].
  - change (List.map render_line1 (l :: ls))
      with (render_line1 l :: List.map render_line1 ls).
    rewrite count_nl_join_lines.
    + rewrite length_map. change (count_nl ":") with 0.
      change (count_nl NEWLINE) with 1. cbn [List.length]. lia.
    + change (Forall (fun p => count_nl p = 0) (List.map render_line1 (l :: ls))).
      apply Forall_map, Forall_forall. intros l' Hl'.
      now apply render_line1_count_nl, Hlines, list_elem_of_In.
  - apply Forall_map, Forall_forall. intros it Hit.
    now apply render_source1_count_nl, Hsources, list_elem_of_In.
Qed.

Lemma sep_values_number {Src} (render : BlockText Src -> string)
    (value : BlockText Src -> list Source * Fields) (bs : list (BlockText Src)) (ln : nat) :
  Forall (fun b => count_nl (render b) = block_height b - 1) bs ->
  sep_values (NEWLINE +:+ NEWLINE) render (fun ln' b => (S ln', value b)) ln bs =
  number_blocks value (S ln) bs.
Proof.
  intros H. revert ln. induction H as [|b bs Hb _ IH]; intros ln; [reflexivity |].
  cbn [sep_values number_blocks]. rewrite IH, Hb. do 2 f_equal.
  change (count_nl (NEWLINE +:+ NEWLINE)) with 2. unfold block_height. lia.
Qed.

Lemma blocks1_run (b : BlockText (bool * Source)) (bs : list (BlockText (bool * Source)))
    (trail : string) (ln : nat) :
  forallb wf_block1 (b :: bs) = true ->
  line_ends trail = true ->
  (forall ln', Parsy.then_ (Parsy.string NEWLINE) key_value1
                 {| line := ln'; rest := trail |} = None) ->
  startswith trail (NEWLINE +:+ NEWLINE) = false ->
  Parsy.sep_by yarn_dep1 (Parsy.string (NEWLINE +:+ NEWLINE))
    {| line := ln;
       rest := join (NEWLINE +:+ NEWLINE) (List.map render_block1 (b :: bs)) +:+ trail |} =
  Some (number_blocks block_value1 (S ln) (b :: bs),
        {| line := ln + count_nl (join (NEWLINE +:+ NEWLINE)
                                    (List.map render_block1 (b :: bs)));
           rest := trail |}).
Proof.
  intros Hwf Hends Hlines Hblank. rewrite forallb_forall in Hwf.
  assert (Hgood : Forall (fun b' => wf_block1 b' = true) (b :: bs)).
  { apply Forall_forall. intros b' Hb'. now apply Hwf, list_elem_of_In. }
  set (ok := fun (_ : BlockText (bool * Source)) (r : string) =>
               line_ends r = true /\
               forall ln', Parsy.then_ (Parsy.string NEWLINE) key_value1
                             {| line := ln'; rest := r |} = None).
  assert (Hrun : forall b' ln' r,
    wf_block1 b' = true -> ok b' r ->
    yarn_dep1 {| line := ln'; rest := render_block1 b' +:+ r |} =
    Some ((S ln', block_value1 b'),
          {| line := ln' + count_nl (render_block1 b'); rest := r |})).
  { intros b' ln' r Hb' [Hend Hstop]. rewrite (block1_run b' r ln' Hb' Hend Hstop).
    rewrite (render_block1_count_nl b' Hb'). do 3 f_equal.
    unfold block_height. lia. }
  assert (Hlast : ok_last ok (b :: bs) trail).
  { apply ok_last_all. intros b' _. now split. }
  assert (Hsep : forall b0 b' r,
            wf_block1 b' = true ->
            ok b0 ((NEWLINE +:+ NEWLINE) +:+ render_block1 b' +:+ r)).
  { intros b0 b' r _. split; [reflexivity |]. intros ln'.
    exact (proj1 (block_end_stop ((NEWLINE +:+ NEWLINE) +:+ render_block1 b' +:+ r)
                    eq_refl ln')). }
  assert (Hstop : forall ln',
            Parsy.then_ (Parsy.string (NEWLINE +:+ NEWLINE)) yarn_dep1
              {| line := ln'; rest := trail |} = None).
  { now apply then_string_None. }
  rewrite (sep_by_run yarn_dep1 (NEWLINE +:+ NEWLINE) render_block1
             (fun ln' b' => (S ln', block_value1 b'))
             (fun b' => wf_block1 b' = true) ok Hrun Hsep eq_refl
             b bs ln trail Hgood Hlast Hstop).
  rewrite sep_values_number; [reflexivity |].
  eapply Forall_impl; [exact Hgood |]. intros b' Hb'. now apply render_block1_count_nl.
Qed.

Lemma lockfile1_run (lead trail : string) (b : BlockText (bool * Source))
    (bs : list (BlockText (bool * Source))) :
  optional_newline lead = true -> optional_newline trail = true ->
  forallb wf_block1 (b :: bs) = true ->
  Util.safe_path_parse (render_lockfile1 lead trail (b :: bs)) yarn1 =
  Some (number_blocks block_value1 (4 + count_nl lead) (b :: bs)).
Proof.
  intros Hlead Htrail Hwf.
  assert (Hb : wf_block1 b = true).
  { cbn [forallb] in Hwf. now apply andb_true_iff in Hwf as [Hb _]. }
  unfold Util.safe_path_parse, Parsy.parse, render_lockfile1.
  destruct (optional_newline_run lead
              (join (NEWLINE +:+ NEWLINE) (List.map render_block1 (b :: bs)) +:+ trail)
              3 Hlead) as [v1 Hlead_run].
  { cbn [List.map]. destruct bs as [|b' bs'].
    - cbn [join]. now apply render_block1_not_newline.
    - rewrite join_cons by discriminate. rewrite string_app_assoc.
      now apply render_block1_not_newline. }
  destruct (optional_newline_run trail EmptyString
              (3 + count_nl lead +
               count_nl (join (NEWLINE +:+ NEWLINE) (List.map render_block1 (b :: bs))))
              Htrail eq_refl) as [v2 Htrail_run].
  rewrite string_app_nil_r in Htrail_run.
  assert (Hyarn : yarn1 {| line := 0;
                           rest := YARN1_PREFIX +:+ lead +:+
                                   join (NEWLINE +:+ NEWLINE)
                                     (List.map render_block1 (b :: bs)) +:+ trail |} =
                  Some (number_blocks block_value1 (4 + count_nl lead) (b :: bs),
                        {| line := 3 + count_nl lead +
                             count_nl (join (NEWLINE +:+ NEWLINE)
                                         (List.map render_block1 (b :: bs)))
                             + count_nl trail;
                           rest := EmptyString |})).
  { unfold yarn1, Parsy.skip.
    rewrite (bind_eq _ _ _ (number_blocks block_value1 (4 + count_nl lead) (b :: bs))
               {| line := 3 + count_nl lead +
                          count_nl (join (NEWLINE +:+ NEWLINE)
                                      (List.map render_block1 (b :: bs)));
                  rest := trail |}).
    - now rewrite (bind_eq _ _ _ _ _ Htrail_run).
    - rewrite (then_eq _ _ _ v1 {| line := 3 + count_nl lead;
                                   rest := join (NEWLINE +:+ NEWLINE)
                                             (List.map render_block1 (b :: bs)) +:+ trail |}).
      + apply blocks1_run; [exact Hwf | | |];
          destruct (optional_newline_cases _ Htrail) as [-> | ->];
          try reflexivity; intros ln'; reflexivity.
      + rewrite (then_eq _ _ _ _ _ (string_run YARN1_PREFIX _ 0)). exact Hlead_run. }
  unfold Parsy.skip. rewrite (bind_eq _ _ _ _ _ Hyarn). reflexivity.
Qed.

Lemma all_digits_span (v r : string) :
  all_digits v = true ->
  span_digits (v +:+ String LF r) = (v, String LF r) /\ count_nl v = 0.
Proof.
  induction v as [|a v IH]; cbn [all_digits]; intros H.
  - split; reflexivity.
  - apply andb_true_iff in H as [Ha Hv]. destruct (IH Hv) as [Hspan Hcount].
    cbn [String.append span_digits count_nl]. rewrite Ha, Hspan, Hcount. split; [reflexivity |].
    destruct (Ascii.eqb_spec a LF) as [-> |]; [discriminate | reflexivity].
Qed.

Lemma digits1_run (v r : string) (ln : nat) :
  is_number v = true ->
  digits1 {| line := ln; rest := v +:+ String LF r |} =
  Some (v, {| line := ln; rest := String LF r |}).
Proof.
  unfold is_number. intros [Hne Hall]%andb_true_iff.
  destruct (all_digits_span v r Hall) as [Hspan Hcount].
  unfold digits1. cbn [rest]. rewrite Hspan.
  destruct v; [discriminate |]. unfold advance. cbn [line].
  now rewrite Hcount, Nat.add_0_r.
Qed.

Lemma concat_run (p q : Parser string) c a c1 b c2 :
  p c = Some (a, c1) -> q c1 = Some (b, c2) ->
  Parsy.concat p q c = Some (a +:+ b, c2).
Proof.
  intros Hp Hq. unfold Parsy.concat.
  now rewrite (bind_eq _ _ _ _ _ Hp), (bind_eq _ _ _ _ _ Hq).
Qed.

Lemma metadata_run (meta : option (string * string)) (r : string) (ln : nat) :
  wf_metadata meta = true ->
  startswith r (NEWLINE +:+ "__metadata:" +:+ NEWLINE +:+ "  version: ") = false ->
  exists v,
    Parsy.optional (Parsy.map YARN2_METADATA_REGEX Some) None
      {| line := ln; rest := render_metadata meta +:+ r |} =
    Some (v, {| line := ln + count_nl (render_metadata meta); rest := r |}).
Proof.
  intros Hwf Hr. unfold Parsy.optional, Parsy.alt.
  destruct meta as [[version cache_key]|]; cbn [wf_metadata render_metadata] in *.
  - apply andb_true_iff in Hwf as [Hv Hk].
    assert (Hcv : count_nl version = 0).
    { apply andb_true_iff in Hv as [_ Hv]. now destruct (all_digits_span version r Hv). }
    assert (Hck : count_nl cache_key = 0).
    { apply andb_true_iff in Hk as [_ Hk]. now destruct (all_digits_span cache_key r Hk). }
    rewrite !string_app_assoc.
    erewrite map_run; [eexists; reflexivity |].
    unfold YARN2_METADATA_REGEX.
    change (NEWLINE +:+ "__metadata:" +:+ NEWLINE +:+ "  version: " +:+ version +:+
            NEWLINE +:+ "  cacheKey: " +:+ cache_key +:+ NEWLINE +:+ r)
      with ((NEWLINE +:+ "__metadata:" +:+ NEWLINE +:+ "  version: ") +:+ version +:+
            String LF ("  cacheKey: " +:+ cache_key +:+ String LF r)).
    eapply concat_run; [apply string_run |].
    eapply concat_run; [now apply digits1_run |].
    change (String LF ("  cacheKey: " +:+ cache_key +:+ String LF r))
      with ((NEWLINE +:+ "  cacheKey: ") +:+ cache_key +:+ String LF r).
    eapply concat_run; [apply string_run |].
    eapply concat_run; [now apply digits1_run |].
    change (String LF r) with (NEWLINE +:+ r).
    rewrite string_run. do 3 f_equal.
    rewrite !count_nl_app, Hcv, Hck.
    change (count_nl NEWLINE) with 1. change (count_nl "__metadata:") with 0.
    change (count_nl "  version: ") with 0. change (count_nl "  cacheKey: ") with 0.
    lia.
  - cbn [String.append]. unfold Parsy.map, Parsy.bind, YARN2_METADATA_REGEX, Parsy.concat.
    unfold Parsy.bind.
    rewrite (string_None _ {| line := ln; rest := r |} Hr).
    exists None. unfold Parsy.success. cbn [count_nl]. now rewrite Nat.add_0_r.
Qed.

Lemma render_block2_count_nl (b : BlockText Source) :
  wf_block2 b = true -> count_nl (render_block2 b) = block_height b - 1.
Proof.
  destruct b as [[src srcs] [l ls]].
  unfold wf_block2, render_block2, block_height, all. cbn [bt_sources bt_lines fst snd].
  intros [Hsources Hlines]%andb_true_iff.
  rewrite forallb_forall in Hsources, Hlines.
  rewrite !count_nl_app, count_nl_join; [| reflexivity |].
  - change (List.map render_line2 (l :: ls))
      with (render_line2 l :: List.map render_line2 ls).
    rewrite count_nl_join_lines.
    + rewrite length_map. change (count_nl ":") with 0. change (count_nl QUOTE) with 0.
      change (count_nl NEWLINE) with 1. cbn [List.length]. lia.
    + change (Forall (fun p => count_nl p = 0) (List.map render_line2 (l :: ls))).
      apply Forall_map, Forall_forall. intros l' Hl'.
      now apply render_line2_count_nl, Hlines, list_elem_of_In.
  - apply Forall_map, Forall_forall. intros s Hs.
    now apply render_source2_count_nl, Hsources, list_elem_of_In.
Qed.

Lemma blocks2_run (b : BlockText Source) (bs : list (BlockText Source))
    (trail : string) (ln : nat) :
  forallb wf_block2 (b :: bs) = true ->
  line_follows2 (last_line (List.last bs b)) trail = true ->
  (forall ln', Parsy.then_ (Parsy.string NEWLINE) key_value2
                 {| line := ln'; rest := trail |} = None) ->
  startswith trail (NEWLINE +:+ NEWLINE) = false ->
  Parsy.sep_by yarn_dep2 (Parsy.string (NEWLINE +:+ NEWLINE))
    {| line := ln;
       rest := join (NEWLINE +:+ NEWLINE) (List.map render_block2 (b :: bs)) +:+ trail |} =
  Some (number_blocks block_value2 (S ln) (b :: bs),
        {| line := ln + count_nl (join (NEWLINE +:+ NEWLINE)
                                    (List.map render_block2 (b :: bs)));
           rest := trail |}).
Proof.
  intros Hwf Hfollows Hlines Hblank. rewrite forallb_forall in Hwf.
  assert (Hgood : Forall (fun b' => wf_block2 b' = true) (b :: bs)).
  { apply Forall_forall. intros b' Hb'. now apply Hwf, list_elem_of_In. }
  set (ok := fun (b' : BlockText Source) (r : string) =>
               line_follows2 (last_line b') r = true /\
               forall ln', Parsy.then_ (Parsy.string NEWLINE) key_value2
                             {| line := ln'; rest := r |} = None).
  assert (Hrun : forall b' ln' r,
    wf_block2 b' = true -> ok b' r ->
    yarn_dep2 {| line := ln'; rest := render_block2 b' +:+ r |} =
    Some ((S ln', block_value2 b'),
          {| line := ln' + count_nl (render_block2 b'); rest := r |})).
  { intros b' ln' r Hb' [Hok Hstop]. rewrite (block2_run b' r ln' Hb' Hok Hstop).
    rewrite (render_block2_count_nl b' Hb'). do 3 f_equal.
    unfold block_height. lia. }
  assert (Hlast : ok_last ok (b :: bs) trail).
  { apply ok_last_last. now split. }
  assert (Hsep : forall b0 b' r,
            wf_block2 b' = true ->
            ok b0 ((NEWLINE +:+ NEWLINE) +:+ render_block2 b' +:+ r)).
  { intros b0 b' r _. split; [now destruct (last_line b0) |]. intros ln'.
    exact (proj2 (block_end_stop ((NEWLINE +:+ NEWLINE) +:+ render_block2 b' +:+ r)
                    eq_refl ln')). }
  assert (Hstop : forall ln',
            Parsy.then_ (Parsy.string (NEWLINE +:+ NEWLINE)) yarn_dep2
              {| line := ln'; rest := trail |} = None).
  { now apply then_string_None. }
  rewrite (sep_by_run yarn_dep2 (NEWLINE +:+ NEWLINE) render_block2
             (fun ln' b' => (S ln', block_value2 b'))
             (fun b' => wf_block2 b' = true) ok Hrun Hsep eq_refl
             b bs ln trail Hgood Hlast Hstop).
  rewrite sep_values_number; [reflexivity |].
  eapply Forall_impl; [exact Hgood |]. intros b' Hb'. now apply render_block2_count_nl.
Qed.

Lemma lockfile2_run (meta : option (string * string)) (lead trail : string)
    (b : BlockText Source) (bs : list (BlockText Source)) :
  wf_metadata meta = true ->
  optional_newline lead = true -> optional_newline trail = true ->
  forallb wf_block2 (b :: bs) = true ->
  line_follows2 (last_line (List.last bs b)) trail = true ->
  Util.safe_path_parse (render_lockfile2 meta lead trail (b :: bs)) yarn2 =
  Some (number_blocks block_value2
          (3 + count_nl (render_metadata meta) + count_nl lead) (b :: bs)).
Proof.
  intros Hmeta Hlead Htrail Hwf Hfollows.
  set (blocks := join (NEWLINE +:+ NEWLINE) (List.map render_block2 (b :: bs))).
  assert (Hquote : exists t, blocks = QUOTE +:+ t).
  { unfold blocks.
    change (List.map render_block2 (b :: bs))
      with (render_block2 b :: List.map render_block2 bs).
    destruct (join_first (NEWLINE +:+ NEWLINE) (render_block2 b)
                (List.map render_block2 bs)) as [t ->].
    unfold render_block2. rewrite !string_app_assoc. eauto. }
  destruct Hquote as [t Hquote].
  unfold Util.safe_path_parse, Parsy.parse, render_lockfile2. fold blocks.
  destruct (metadata_run meta (lead +:+ blocks +:+ trail) 2 Hmeta) as [v0 Hmeta_run].
  { rewrite Hquote. now destruct (optional_newline_cases _ Hlead) as [-> | ->]. }
  destruct (optional_newline_run lead (blocks +:+ trail)
              (2 + count_nl (render_metadata meta)) Hlead) as [v1 Hlead_run].
  { now rewrite Hquote. }
  destruct (optional_newline_run trail EmptyString
              (2 + count_nl (render_metadata meta) + count_nl lead + count_nl blocks)
              Htrail eq_refl) as [v2 Htrail_run].
  rewrite string_app_nil_r in Htrail_run.
  assert (Hblocks := blocks2_run b bs trail
                       (2 + count_nl (render_metadata meta) + count_nl lead) Hwf Hfollows).
  assert (Htrail_lines : forall ln',
            Parsy.then_ (Parsy.string NEWLINE) key_value2
              {| line := ln'; rest := trail |} = None).
  { intros ln'. now destruct (optional_newline_cases _ Htrail) as [-> | ->]. }
  assert (Htrail_blank : startswith trail (NEWLINE +:+ NEWLINE) = false).
  { now destruct (optional_newline_cases _ Htrail) as [-> | ->]. }
  specialize (Hblocks Htrail_lines Htrail_blank).
  fold blocks in Hblocks.
  assert (Hyarn : yarn2 {| line := 0;
                           rest := YARN2_PREFIX +:+ render_metadata meta +:+ lead +:+
                                   blocks +:+ trail |} =
                  Some (number_blocks block_value2
                          (3 + count_nl (render_metadata meta) + count_nl lead) (b :: bs),
                        {| line := 2 + count_nl (render_metadata meta) + count_nl lead +
                                   count_nl blocks + count_nl trail;
                           rest := EmptyString |})).
  { unfold yarn2, Parsy.skip.
    rewrite (bind_eq _ _ _ (number_blocks block_value2
                              (3 + count_nl (render_metadata meta) + count_nl lead)
                              (b :: bs))
               {| line := 2 + count_nl (render_metadata meta) + count_nl lead +
                          count_nl blocks;
                  rest := trail |}).
    - now rewrite (bind_eq _ _ _ _ _ Htrail_run).
    - rewrite (then_eq _ _ _ v1 {| line := 2 + count_nl (render_metadata meta) +
                                           count_nl lead;
                                   rest := blocks +:+ trail |}).
      + exact Hblocks.
      + rewrite (then_eq _ _ _ v0 {| line := 2 + count_nl (render_metadata meta);
                                     rest := lead +:+ blocks +:+ trail |}).
        * exact Hlead_run.
        * rewrite (then_eq _ _ _ _ _ (string_run YARN2_PREFIX _ 0)). exact Hmeta_run. }
  unfold Parsy.skip. rewrite (bind_eq _ _ _ _ _ Hyarn). reflexivity.
Qed.

(** * Round trips *)

(** X9: the lines under the header of a block, joined by newlines and
    followed by a blank line, a last newline or the end of the text, are
    read up to that point, and the field map of the block is that of
    the field lines alone: the headers of nested sub-blocks and the
    lines with another indentation add nothing.  In version 2 a
    sub-block header that is the last line needs its newline. *)
Theorem X9_block_lines_fields (l : Line) (ls : list Line) (stopper : string) (ln : nat) :
  (forallb (wf_line wf_key1) (l :: ls) = true -> block_end stopper = true ->
   Parsy.map (Parsy.sep_by key_value1 (Parsy.string NEWLINE)) fields_of
     {| line := ln; rest := join NEWLINE (List.map render_line1 (l :: ls)) +:+ stopper |} =
   Some (fields_of (List.map line_value (l :: ls)),
         {| line := ln + List.length ls; rest := stopper |})) /\
  (forallb (wf_line wf_key2) (l :: ls) = true -> block_end stopper = true ->
   line_follows2 (List.last ls l) stopper = true ->
   Parsy.map (Parsy.sep_by key_value2 (Parsy.string NEWLINE)) fields_of
     {| line := ln; rest := join NEWLINE (List.map render_line2 (l :: ls)) +:+ stopper |} =
   Some (fields_of (List.map line_value (l :: ls)),
         {| line := ln + List.length ls; rest := stopper |})).
Proof.
  split.
  - intros Hwf Hend. apply map_run. now apply lines1_run.
  - intros Hwf Hend Hfollows. apply map_run. now apply lines2_run.
Qed.

Lemma X9_witness :
  Parsy.map (Parsy.sep_by key_value1 (Parsy.string NEWLINE)) fields_of
    {| line := 5;
       rest := join NEWLINE (List.map render_line1 sample_lines) +:+
               (NEWLINE +:+ NEWLINE +:+ "b@1:") |} =
    Some (fields_of (List.map line_value sample_lines),
          {| line := 5 + 2; rest := NEWLINE +:+ NEWLINE +:+ "b@1:" |}) /\
  Parsy.map (Parsy.sep_by key_value2 (Parsy.string NEWLINE)) fields_of
    {| line := 5;
       rest := join NEWLINE (List.map render_line2 sample_lines) +:+ NEWLINE |} =
    Some (fields_of (List.map line_value sample_lines),
          {| line := 5 + 2; rest := NEWLINE |}).
Proof.
  split.
  - apply (X9_block_lines_fields (Header "dependencies")
             [Indented 4 "a ^1.0.0"; Field "version" "1.0.0"]
             (NEWLINE +:+ NEWLINE +:+ "b@1:") 5); reflexivity.
  - apply (X9_block_lines_fields (Header "dependencies")
             [Indented 4 "a ^1.0.0"; Field "version" "1.0.0"] NEWLINE 5); reflexivity.
Defined.

Lemma render_lockfile1_version (lead trail : string)
    (bs : list (BlockText (bool * Source))) :
  yarn_version_of (render_lockfile1 lead trail bs) = 1.
Proof.
  unfold yarn_version_of, render_lockfile1, startswith.
  now rewrite strip_prefix_app.
Qed.

Lemma banners_differ_2 (text : string) :
  startswith text YARN2_PREFIX = true -> startswith text YARN1_PREFIX = false.
Proof. intros (r & ->)%startswith_iff. reflexivity. Qed.

Lemma render_lockfile2_version (meta : option (string * string)) (lead trail : string)
    (bs : list (BlockText Source)) :
  yarn_version_of (render_lockfile2 meta lead trail bs) = 2.
Proof.
  unfold yarn_version_of, render_lockfile2.
  rewrite banners_differ_2; [reflexivity |].
  apply startswith_iff. eauto.
Qed.

(** X10: a version 1 lockfile written as the banner, an optional blank
    line, blocks separated by a blank line and an optional last newline
    is read back as these blocks in their order, each with its sources
    and the field map of its field lines, and with the number of its
    header line; [parse_yarn] makes its records from exactly these
    blocks. *)
Theorem X10_lockfile1_round_trip
    (json_doc : Path -> option JSON)
    (extract_npm_lockfile_hash : option string -> gmap string (list string))
    (manifest_path : option Path)
    (lead trail : string) (b : BlockText (bool * Source))
    (bs : list (BlockText (bool * Source))) :
  optional_newline lead = true -> optional_newline trail = true ->
  forallb wf_block1 (b :: bs) = true ->
  Util.safe_path_parse (render_lockfile1 lead trail (b :: bs)) yarn1 =
    Some (number_blocks block_value1 (4 + count_nl lead) (b :: bs)) /\
  parse_yarn json_doc extract_npm_lockfile_hash
    (render_lockfile1 lead trail (b :: bs)) manifest_path =
    omap (assemble extract_npm_lockfile_hash 1 (get_manifest_deps json_doc manifest_path))
      (number_blocks block_value1 (4 + count_nl lead) (b :: bs)).
Proof.
  intros Hlead Htrail Hwf.
  pose proof (lockfile1_run lead trail b bs Hlead Htrail Hwf) as Hparse.
  split; [exact Hparse |].
  pose proof (render_lockfile1_version lead trail (b :: bs)) as Hversion.
  rewrite (parse_yarn_omap _ _ _ _ (number_blocks block_value1 (4 + count_nl lead) (b :: bs)));
    rewrite Hversion; [reflexivity | exact Hparse].
Qed.

Lemma X10_witness :
  Util.safe_path_parse (render_lockfile1 NEWLINE NEWLINE sample_blocks1) yarn1 =
    Some (number_blocks block_value1 (4 + count_nl NEWLINE) sample_blocks1) /\
  parse_yarn no_manifest no_hashes
    (render_lockfile1 NEWLINE NEWLINE sample_blocks1) None =
    omap (assemble no_hashes 1 (get_manifest_deps no_manifest None))
      (number_blocks block_value1 (4 + count_nl NEWLINE) sample_blocks1).
Proof.
  unfold sample_blocks1.
  apply (X10_lockfile1_round_trip no_manifest no_hashes None NEWLINE NEWLINE);
    reflexivity.
Defined.

Example sample_blocks1_text : render_lockfile1 NEWLINE NEWLINE sample_blocks1 = three_blocks.
Proof. vm_compute. reflexivity. Qed.

(** X11: a version 2 lockfile written as the banner, the metadata
    stanza if any, an optional blank line, blocks separated by a blank
    line and an optional last newline is read back as these blocks in
    their order, each with its sources without a leading [npm:], the
    field map of its field lines and the number of its header line; the
    metadata stanza is no block and only moves the line numbers;
    [parse_yarn] makes its records from exactly these blocks. *)
Theorem X11_lockfile2_round_trip
    (json_doc : Path -> option JSON)
    (extract_npm_lockfile_hash : option string -> gmap string (list string))
    (manifest_path : option Path)
    (meta : option (string * string)) (lead trail : string)
    (b : BlockText Source) (bs : list (BlockText Source)) :
  wf_metadata meta = true ->
  optional_newline lead = true -> optional_newline trail = true ->
  forallb wf_block2 (b :: bs) = true ->
  line_follows2 (last_line (List.last bs b)) trail = true ->
  Util.safe_path_parse (render_lockfile2 meta lead trail (b :: bs)) yarn2 =
    Some (number_blocks block_value2
            (3 + count_nl (render_metadata meta) + count_nl lead) (b :: bs)) /\
  parse_yarn json_doc extract_npm_lockfile_hash
    (render_lockfile2 meta lead trail (b :: bs)) manifest_path =
    omap (assemble extract_npm_lockfile_hash 2 (get_manifest_deps json_doc manifest_path))
      (number_blocks block_value2
         (3 + count_nl (render_metadata meta) + count_nl lead) (b :: bs)).
Proof.
  intros Hmeta Hlead Htrail Hwf Hfollows.
  pose proof (lockfile2_run meta lead trail b bs Hmeta Hlead Htrail Hwf Hfollows) as Hparse.
  split; [exact Hparse |].
  pose proof (render_lockfile2_version meta lead trail (b :: bs)) as Hversion.
  rewrite (parse_yarn_omap _ _ _ _
             (number_blocks block_value2
                (3 + count_nl (render_metadata meta) + count_nl lead) (b :: bs)));
    rewrite Hversion; [reflexivity | exact Hparse].
Qed.

Lemma X11_witness :
  Util.safe_path_parse
    (render_lockfile2 (Some ("6", "8")) NEWLINE NEWLINE sample_blocks2) yarn2 =
    Some (number_blocks block_value2
            (3 + count_nl (render_metadata (Some ("6", "8"))) + count_nl NEWLINE)
            sample_blocks2) /\
  parse_yarn no_manifest no_hashes
    (render_lockfile2 (Some ("6", "8")) NEWLINE NEWLINE sample_blocks2) None =
    omap (assemble no_hashes 2 (get_manifest_deps no_manifest None))
      (number_blocks block_value2
         (3 + count_nl (render_metadata (Some ("6", "8"))) + count_nl NEWLINE)
         sample_blocks2).
Proof.
  unfold sample_blocks2.
  apply (X11_lockfile2_round_trip no_manifest no_hashes None (Some ("6", "8"))
           NEWLINE NEWLINE);
    reflexivity.
Defined.

Example sample_blocks2_text :
  render_lockfile2 (Some ("6", "8")) NEWLINE NEWLINE sample_blocks2 = two_blocks2.
Proof. vm_compute. reflexivity. Qed.

(** * A line that the field grammar rejects *)

Lemma blank_line_absent (bad : string) :
  startswith bad NEWLINE = false ->
  startswith (NEWLINE +:+ bad) (NEWLINE +:+ NEWLINE) = false.
Proof.
  unfold startswith. change (NEWLINE +:+ bad) with (String LF bad).
  change (NEWLINE +:+ NEWLINE) with (String LF NEWLINE).
  cbn [strip_prefix]. now rewrite Ascii.eqb_refl.
Qed.

Lemma lockfile1_rejected (lead bad : string) (b : BlockText (bool * Source))
    (bs : list (BlockText (bool * Source))) :
  optional_newline lead = true ->
  forallb wf_block1 (b :: bs) = true ->
  nonempty bad = true -> startswith bad NEWLINE = false ->
  (forall ln, key_value1 {| line := ln; rest := bad |} = None) ->
  Util.safe_path_parse (render_lockfile1 lead (NEWLINE +:+ bad) (b :: bs)) yarn1 = None.
Proof.
  intros Hlead Hwf Hne Hnl Hbad.
  set (blocks := join (NEWLINE +:+ NEWLINE) (List.map render_block1 (b :: bs))).
  unfold Util.safe_path_parse, Parsy.parse, render_lockfile1. fold blocks.
  destruct (optional_newline_run lead (blocks +:+ NEWLINE +:+ bad) 3 Hlead)
    as [v1 Hlead_run].
  { unfold blocks. cbn [List.map]. cbn [forallb] in Hwf.
    apply andb_true_iff in Hwf as [Hb _]. destruct bs as [|b' bs'].
    - cbn [join]. now apply render_block1_not_newline.
    - rewrite join_cons by discriminate. rewrite string_app_assoc.
      now apply render_block1_not_newline. }
  destruct (optional_newline_run NEWLINE bad (3 + count_nl lead + count_nl blocks)
              eq_refl Hnl) as [v2 Htrail_run].
  assert (Hblocks : Parsy.sep_by yarn_dep1 (Parsy.string (NEWLINE +:+ NEWLINE))
                      {| line := 3 + count_nl lead;
                         rest := blocks +:+ NEWLINE +:+ bad |} =
                    Some (number_blocks block_value1 (4 + count_nl lead) (b :: bs),
                          {| line := 3 + count_nl lead + count_nl blocks;
                             rest := NEWLINE +:+ bad |})).
  { apply blocks1_run; [exact Hwf | reflexivity | |].
    - intros ln'. rewrite (then_eq _ _ _ _ _ (string_run NEWLINE bad ln')). apply Hbad.
    - now apply blank_line_absent. }
  assert (Hyarn : yarn1 {| line := 0;
                           rest := YARN1_PREFIX +:+ lead +:+ blocks +:+ NEWLINE +:+ bad |} =
                  Some (number_blocks block_value1 (4 + count_nl lead) (b :: bs),
                        {| line := 3 + count_nl lead + count_nl blocks + count_nl NEWLINE;
                           rest := bad |})).
  { unfold yarn1, Parsy.skip.
    rewrite (bind_eq _ _ _ (number_blocks block_value1 (4 + count_nl lead) (b :: bs))
               {| line := 3 + count_nl lead + count_nl blocks;
                  rest := NEWLINE +:+ bad |}).
    - now rewrite (bind_eq _ _ _ _ _ Htrail_run).
    - rewrite (then_eq _ _ _ v1 {| line := 3 + count_nl lead;
                                   rest := blocks +:+ NEWLINE +:+ bad |}).
      + exact Hblocks.
      + rewrite (then_eq _ _ _ _ _ (string_run YARN1_PREFIX _ 0)). exact Hlead_run. }
  unfold Parsy.skip. rewrite (bind_eq _ _ _ _ _ Hyarn).
  unfold Parsy.bind, Parsy.eof. cbn [rest]. now destruct bad.
Qed.

Lemma lockfile2_rejected (meta : option (string * string)) (lead bad : string)
    (b : BlockText Source) (bs : list (BlockText Source)) :
  wf_metadata meta = true ->
  optional_newline lead = true ->
  forallb wf_block2 (b :: bs) = true ->
  nonempty bad = true -> startswith bad NEWLINE = false ->
  (forall ln, key_value2 {| line := ln; rest := bad |} = None) ->
  Util.safe_path_parse (render_lockfile2 meta lead (NEWLINE +:+ bad) (b :: bs)) yarn2 = None.
Proof.
  intros Hmeta Hlead Hwf Hne Hnl Hbad.
  set (blocks := join (NEWLINE +:+ NEWLINE) (List.map render_block2 (b :: bs))).
  assert (Hquote : exists t, blocks = QUOTE +:+ t).
  { unfold blocks.
    change (List.map render_block2 (b :: bs))
      with (render_block2 b :: List.map render_block2 bs).
    destruct (join_first (NEWLINE +:+ NEWLINE) (render_block2 b)
                (List.map render_block2 bs)) as [t ->].
    unfold render_block2. rewrite !string_app_assoc. eauto. }
  destruct Hquote as [t Hquote].
  unfold Util.safe_path_parse, Parsy.parse, render_lockfile2. fold blocks.
  destruct (metadata_run meta (lead +:+ blocks +:+ NEWLINE +:+ bad) 2 Hmeta)
    as [v0 Hmeta_run].
  { rewrite Hquote. now destruct (optional_newline_cases _ Hlead) as [-> | ->]. }
  destruct (optional_newline_run lead (blocks +:+ NEWLINE +:+ bad)
              (2 + count_nl (render_metadata meta)) Hlead) as [v1 Hlead_run].
  { now rewrite Hquote. }
  destruct (optional_newline_run NEWLINE bad
              (2 + count_nl (render_metadata meta) + count_nl lead + count_nl blocks)
              eq_refl Hnl) as [v2 Htrail_run].
  assert (Hblocks : Parsy.sep_by yarn_dep2 (Parsy.string (NEWLINE +:+ NEWLINE))
                      {| line := 2 + count_nl (render_metadata meta) + count_nl lead;
                         rest := blocks +:+ NEWLINE +:+ bad |} =
                    Some (number_blocks block_value2
                            (3 + count_nl (render_metadata meta) + count_nl lead) (b :: bs),
                          {| line := 2 + count_nl (render_metadata meta) + count_nl lead +
                                     count_nl blocks;
                             rest := NEWLINE +:+ bad |})).
  { apply blocks2_run; [exact Hwf | | |].
    - unfold line_follows2. destruct (last_line (List.last bs b)); reflexivity.
    - intros ln'. rewrite (then_eq _ _ _ _ _ (string_run NEWLINE bad ln')). apply Hbad.
    - now apply blank_line_absent. }
  assert (Hyarn : yarn2 {| line := 0;
                           rest := YARN2_PREFIX +:+ render_metadata meta +:+ lead +:+
                                   blocks +:+ NEWLINE +:+ bad |} =
                  Some (number_blocks block_value2
                          (3 + count_nl (render_metadata meta) + count_nl lead) (b :: bs),
                        {| line := 2 + count_nl (render_metadata meta) + count_nl lead +
                                   count_nl blocks + count_nl NEWLINE;
                           rest := bad |})).
  { unfold yarn2, Parsy.skip.
    rewrite (bind_eq _ _ _ (number_blocks block_value2
                              (3 + count_nl (render_metadata meta) + count_nl lead)
                              (b :: bs))
               {| line := 2 + count_nl (render_metadata meta) + count_nl lead +
                          count_nl blocks;
                  rest := NEWLINE +:+ bad |}).
    - now rewrite (bind_eq _ _ _ _ _ Htrail_run).
    - rewrite (then_eq _ _ _ v1 {| line := 2 + count_nl (render_metadata meta) +
                                           count_nl lead;
                                   rest := blocks +:+ NEWLINE +:+ bad |}).
      + exact Hblocks.
      + rewrite (then_eq _ _ _ v0 {| line := 2 + count_nl (render_metadata meta);
                                     rest := lead +:+ blocks +:+ NEWLINE +:+ bad |}).
        * exact Hlead_run.
        * rewrite (then_eq _ _ _ _ _ (string_run YARN2_PREFIX _ 0)). exact Hmeta_run. }
  unfold Parsy.skip. rewrite (bind_eq _ _ _ _ _ Hyarn).
  unfold Parsy.bind, Parsy.eof. cbn [rest]. now destruct bad.
Qed.

(** X12: in a version 1 lockfile, when the line after the lines of a
    block is neither blank nor the end of the text and the field grammar
    rejects it, the grammar rejects the whole text and [parse_yarn]
    gives no record, also none for the blocks before that line. *)
Theorem X12_rejected_line_loses_all1
    (json_doc : Path -> option JSON)
    (extract_npm_lockfile_hash : option string -> gmap string (list string))
    (manifest_path : option Path)
    (lead bad : string) (b : BlockText (bool * Source))
    (bs : list (BlockText (bool * Source))) :
  optional_newline lead = true ->
  forallb wf_block1 (b :: bs) = true ->
  nonempty bad = true -> startswith bad NEWLINE = false ->
  (forall ln, key_value1 {| line := ln; rest := bad |} = None) ->
  Util.safe_path_parse (render_lockfile1 lead (NEWLINE +:+ bad) (b :: bs)) yarn1 = None /\
  parse_yarn json_doc extract_npm_lockfile_hash
    (render_lockfile1 lead (NEWLINE +:+ bad) (b :: bs)) manifest_path = [].
Proof.
  intros Hlead Hwf Hne Hnl Hbad.
  pose proof (lockfile1_rejected lead bad b bs Hlead Hwf Hne Hnl Hbad) as Hparse.
  split; [exact Hparse |].
  unfold parse_yarn. rewrite render_lockfile1_version.
  change (parser_of 1) with yarn1. now rewrite Hparse.
Qed.

Lemma X12_witness :
  Util.safe_path_parse
    (render_lockfile1 NEWLINE (NEWLINE +:+ "  integrity") sample_blocks1) yarn1 = None /\
  parse_yarn no_manifest no_hashes
    (render_lockfile1 NEWLINE (NEWLINE +:+ "  integrity") sample_blocks1) None = [].
Proof.
  unfold sample_blocks1.
  apply (X12_rejected_line_loses_all1 no_manifest no_hashes None NEWLINE "  integrity");
    reflexivity.
Defined.

(** X13: in a version 2 lockfile, when the line after the lines of a
    block is neither blank nor the end of the text and the field grammar
    rejects it, the grammar rejects the whole text and [parse_yarn]
    gives no record, also none for the blocks before that line. *)
Theorem X13_rejected_line_loses_all2
    (json_doc : Path -> option JSON)
    (extract_npm_lockfile_hash : option string -> gmap string (list string))
    (manifest_path : option Path)
    (meta : option (string * string)) (lead bad : string)
    (b : BlockText Source) (bs : list (BlockText Source)) :
  wf_metadata meta = true ->
  optional_newline lead = true ->
  forallb wf_block2 (b :: bs) = true ->
  nonempty bad = true -> startswith bad NEWLINE = false ->
  (forall ln, key_value2 {| line := ln; rest := bad |} = None) ->
  Util.safe_path_parse (render_lockfile2 meta lead (NEWLINE +:+ bad) (b :: bs)) yarn2 = None /\
  parse_yarn json_doc extract_npm_lockfile_hash
    (render_lockfile2 meta lead (NEWLINE +:+ bad) (b :: bs)) manifest_path = [].
Proof.
  intros Hmeta Hlead Hwf Hne Hnl Hbad.
  pose proof (lockfile2_rejected meta lead bad b bs Hmeta Hlead Hwf Hne Hnl Hbad) as Hparse.
  split; [exact Hparse |].
  unfold parse_yarn. rewrite render_lockfile2_version.
  change (parser_of 2) with yarn2. now rewrite Hparse.
Qed.

Lemma X13_witness :
  Util.safe_path_parse
    (render_lockfile2 (Some ("6", "8")) NEWLINE (NEWLINE +:+ "  checksum:0a1b")
       sample_blocks2) yarn2 = None /\
  parse_yarn no_manifest no_hashes
    (render_lockfile2 (Some ("6", "8")) NEWLINE (NEWLINE +:+ "  checksum:0a1b")
       sample_blocks2) None = [].
Proof.
  unfold sample_blocks2.
  apply (X13_rejected_line_loses_all2 no_manifest no_hashes None (Some ("6", "8"))
           NEWLINE "  checksum:0a1b");
    reflexivity.
Defined.

(** * The manifest and the records *)

Lemma assemble_manifest
    (extract_npm_lockfile_hash : option string -> gmap string (list string))
    (yarn_version : nat) (m1 m2 : option (gset (string * string))) (dep : Block) :
  option_map without_transitivity (assemble extract_npm_lockfile_hash yarn_version m1 dep) =
  option_map without_transitivity (assemble extract_npm_lockfile_hash yarn_version m2 dep).
Proof.
  destruct dep as [ln [[|[package constraint] others] fields]]; [reflexivity |].
  unfold assemble. now destruct (fields !! "version").
Qed.

Lemma assemble_manifest_only
    (extract_npm_lockfile_hash : option string -> gmap string (list string))
    (yarn_version : nat) (m1 m2 : option (gset (string * string))) (deps : list Block) :
  List.map without_transitivity (omap (assemble extract_npm_lockfile_hash yarn_version m1) deps) =
  List.map without_transitivity (omap (assemble extract_npm_lockfile_hash yarn_version m2) deps).
Proof.
  induction deps as [|dep deps IH]; [reflexivity |].
  cbn [omap list_omap].
  pose proof (assemble_manifest extract_npm_lockfile_hash yarn_version m1 m2 dep) as H.
  destruct (assemble extract_npm_lockfile_hash yarn_version m1 dep) as [r1|],
           (assemble extract_npm_lockfile_hash yarn_version m2 dep) as [r2|];
    cbn [option_map] in H; try discriminate; [| exact IH].
  cbn [List.map]. f_equal; [congruence | exact IH].
Qed.

(** X14: the manifest decides the classification of the records and
    nothing else: for a lockfile text, whatever the manifest path and
    whatever the manifest holds, [parse_yarn] gives the same records in
    the same order up to their transitivity. *)
Theorem X14_manifest_only_classifies
    (json_doc1 json_doc2 : Path -> option JSON)
    (extract_npm_lockfile_hash : option string -> gmap string (list string))
    (text : string) (manifest_path1 manifest_path2 : option Path) :
  List.map without_transitivity
    (parse_yarn json_doc1 extract_npm_lockfile_hash text manifest_path1) =
  List.map without_transitivity
    (parse_yarn json_doc2 extract_npm_lockfile_hash text manifest_path2).
Proof.
  unfold parse_yarn.
  destruct (Util.safe_path_parse text (parser_of (yarn_version_of text)))
    as [[|dep deps]|]; [reflexivity | | reflexivity].
  apply assemble_manifest_only.
Qed.
